(** * Linear-function mini-games (src/src/App.tsx): model and verification

    The file embeds the logic of [App.tsx]: the shuffle helper, the
    feedback hook, the four question generators, the state handling of
    the four game components, what the components render (panels,
    option buttons, chart data) and the menu with its game host.  React
    state variables become record fields, event handlers become
    functions on those records, pending [setTimeout] callbacks and
    feedback requests in flight become part of the state, and
    [Math.random] becomes a read from an explicit stream of draws.

    Numbers.  Every number the games compute is an integer of small
    magnitude, so JavaScript numbers are modelled by [Z].  The only
    divisions of computed values are [-b/a] and [score / 10]; both are
    shown to be exact ([divide_intercept], applied to every generated
    question in [buildQuestion_right] and [newItem_right]; the score
    is a multiple of 10 by [game4_reachable_invariant]).  The one
    floating-point operation that rounds is the product
    [Math.random() * k]; it is rounded as the double-precision
    multiplication rounds it ([Random.roundDouble]). *)

From Stdlib Require Import ZArith String Ascii List Bool Lia Permutation.
From Stdlib Require Import DecimalString.
From Stdlib Require DecimalPos.
Import ListNotations.

Local Open Scope string_scope.
Local Open Scope list_scope.
Local Open Scope Z_scope.

(** Concatenation of the pieces of a template literal. *)
Infix "+++" := String.append (right associativity, at level 60).

(* ================================================================== *)
(** * Platform primitives *)
(* ================================================================== *)

Module JS.

(** [String(n)] / [`${n}`] for an integer [n]: decimal digits with a
    leading minus sign for negative values; [-0] prints as [0]. *)
Definition toString (n : Z) : string :=
  NilZero.string_of_int (Z.to_int n).

(** The double-quote character, for the prompts that quote text. *)
Definition dq : string := String (ascii_of_nat 34) EmptyString.

(** [v || d] on numbers: [0] is falsy. *)
Definition orElse (v d : Z) : Z := if v =? 0 then d else v.

(** [array.indexOf(x)] on an array of strings: first index holding a
    string equal to [x], or [-1]. *)
Fixpoint indexOfFrom (i : Z) (x : string) (array : list string) : Z :=
  match array with
  | [] => -1
  | y :: rest => if String.eqb y x then i else indexOfFrom (i + 1) x rest
  end.

Definition indexOf (array : list string) (x : string) : Z :=
  indexOfFrom 0 x array.

(** [array[i]] for a numeric index: [None] is [undefined]. *)
Definition at_index {A : Type} (array : list A) (i : Z) : option A :=
  if i <? 0 then None else nth_error array (Z.to_nat i).

(** A [Set<string>] keeps its members in insertion order; [add] of a
    member already present changes nothing. *)
Definition set_add (s : list string) (x : string) : list string :=
  if existsb (String.eqb x) s then s else s ++ [x].

(** Decimal digit value of a character. *)
Definition digitValue (c : ascii) : option Z :=
  let n := nat_of_ascii c in
  if (48 <=? n)%nat && (n <=? 57)%nat then Some (Z.of_nat (n - 48)) else None.

Definition isWhite (c : ascii) : bool :=
  let n := nat_of_ascii c in
  (n =? 32)%nat || ((9 <=? n)%nat && (n <=? 13)%nat).

Fixpoint trimStart (s : string) : string :=
  match s with
  | String c s' => if isWhite c then trimStart s' else s
  | EmptyString => s
  end.

(** Longest prefix of decimal digits, read as a number; [acc] is
    [None] until a digit has been seen. *)
Fixpoint parseDigits (s : string) (acc : option Z) : option Z :=
  match s with
  | EmptyString => acc
  | String c s' =>
      match digitValue c with
      | Some d =>
          parseDigits s' (Some (10 * match acc with Some v => v | None => 0 end + d))
      | None => acc
      end
  end.

(** [parseInt(s, 10)]: leading white space, an optional sign, then the
    longest run of digits; [None] is [NaN] (no digit found). *)
Definition parseInt (s : string) : option Z :=
  match trimStart s with
  | String "-"%char s' => option_map Z.opp (parseDigits s' None)
  | String "+"%char s' => parseDigits s' None
  | s' => parseDigits s' None
  end.

(** [x / y] for integers [x], [y] with [y] a nonzero divisor of [x], the
    only case in which the games divide (see [divide_intercept] and, for
    the score shown as a number of correct answers, the score
    invariants); the quotient is then an integer. *)
Definition divide (x y : Z) : Z := x / y.

(** [`${s}`] for a string that may be [undefined]. *)
Definition showString (s : option string) : string :=
  match s with
  | Some v => v
  | None => "undefined"
  end.

(** [n === m] where [n] may be [NaN]. *)
Definition strictEq (n : option Z) (m : Z) : bool :=
  match n with
  | Some v => v =? m
  | None => false
  end.

End JS.

Module DOM.

(** What an [<input type="number">] hands back as [e.target.value]:
    the empty string or a valid floating-point number, which HTML
    defines as an optional [-]; then digits, or digits, a dot and
    digits, or a dot and digits; then optionally an exponent, [e] or
    [E], an optional sign and digits. *)
Definition isDigit (c : ascii) : bool :=
  match JS.digitValue c with
  | Some _ => true
  | None => false
  end.

Fixpoint skipDigits (s : string) : string :=
  match s with
  | String c s' => if isDigit c then skipDigits s' else s
  | EmptyString => s
  end.

(** One or more digits: what follows them, or [None] without a digit. *)
Definition digits (s : string) : option string :=
  match s with
  | String c s' => if isDigit c then Some (skipDigits s') else None
  | EmptyString => None
  end.

Definition exponent (s : string) : bool :=
  match s with
  | EmptyString => true
  | String c s' =>
      if (Ascii.eqb c "e" || Ascii.eqb c "E")%bool then
        let s'' := match s' with
                   | String "-"%char t => t
                   | String "+"%char t => t
                   | _ => s'
                   end in
        match digits s'' with
        | Some EmptyString => true
        | _ => false
        end
      else false
  end.

Definition fraction (s : string) : bool :=
  match s with
  | String "."%char s' =>
      match digits s' with
      | Some rest => exponent rest
      | None => false
      end
  | _ => false
  end.

Definition validFloatingPointNumber (s : string) : bool :=
  let s' := match s with
            | String "-"%char t => t
            | _ => s
            end in
  match digits s' with
  | Some (String "."%char rest) => fraction (String "."%char rest)
  | Some rest => exponent rest
  | None => fraction s'
  end.

(** The value sanitization of a number field: text that is no valid
    floating-point number leaves the field with the empty string. *)
Definition numberValue (text : string) : string :=
  if validFloatingPointNumber text then text else EmptyString.
Arguments numberValue text : simpl never.

End DOM.

(* ================================================================== *)
(** * The random source *)
(* ================================================================== *)

Module Random.

(** [Math.random()] returns a double in [0, 1).  A draw is recorded by
    its numerator over [2^53] (engines return multiples of [2^-53]); the
    source is the stream of the draws the program will receive, read
    through a cursor. *)
Definition two53 : Z := 9007199254740992.
Definition two52 : Z := 4503599627370496.

Definition source := nat -> Z.

Definition valid_draw (r : Z) : Prop := 0 <= r < two53.
Definition valid_source (rs : source) : Prop := forall i, valid_draw (rs i).

(** Computations that read draws: the cursor is threaded as state. *)
Definition Rand (A : Type) : Type := source -> nat -> A * nat.

Definition ret {A} (x : A) : Rand A := fun _ n => (x, n).

Definition bind {A B} (m : Rand A) (k : A -> Rand B) : Rand B :=
  fun rs n => let (x, n') := m rs n in k x rs n'.

Definition Math_random : Rand Z := fun rs n => (rs n, S n).

(** Rounding of a double-precision product.  The exact product of a
    draw [r / 2^53] and an integer [k] is [n / 2^53] for [n = r * k]; the
    double the multiplication returns keeps the 53 leading bits of [n],
    rounded to nearest with ties to even.  [roundDouble n] is the
    numerator of that double over [2^53]. *)
Definition roundDouble (n : Z) : Z :=
  if n <? two53 then n
  else
    let e := Z.log2 n - 52 in
    let unit := 2 ^ e in
    let half := 2 ^ (e - 1) in
    let q := n / unit in
    let rem := n mod unit in
    let q' := if rem <? half then q
              else if half <? rem then q + 1
              else if Z.even q then q else q + 1 in
    q' * unit.

(** [Math.floor(r * k)] for a draw [r] and a positive integer [k]. *)
Definition floorTimes (r k : Z) : Z := roundDouble (r * k) / two53.

(** [r < 0.5]. *)
Definition ltHalf (r : Z) : bool := r <? two52.

(** [r - 0.5 < 0]: the difference is computed without rounding, so it
    is negative exactly when [r < 0.5]. *)
Definition minusHalf_neg (r : Z) : bool := r <? two52.

(** Two streams agree on the draws at positions [n], ..., [n' - 1]. *)
Definition agree (rs1 rs2 : source) (n n' : nat) : Prop :=
  forall i, (n <= i < n')%nat -> rs1 i = rs2 i.

End Random.

Declare Scope rand_scope.
Delimit Scope rand_scope with rand.
Notation "x <- m ;; k" := (Random.bind m (fun x => k))
  (at level 61, m at next level, right associativity) : rand_scope.

(* ================================================================== *)
(** * Helper functions of App.tsx *)
(* ================================================================== *)

Module Helpers.
Import Random.
Local Open Scope rand_scope.

(** [[...array].sort(() => Math.random() - 0.5)].

    [Array.prototype.sort] is a built-in of the engine, and ECMAScript
    leaves the sequence of comparator calls to it.  The model follows
    V8 (Chrome, Node), whose sort handles an array of fewer than 64
    elements as one run: [CountAndMakeRun] finds the run at the start of
    the array and reverses it when it descends, then
    [BinaryInsertionSort] inserts each remaining element into the
    sorted prefix by binary search.  Every array the games shuffle has
    four elements.  Each comparator call is one draw [r] and returns
    [r - 0.5], of which the sort only asks whether it is negative. *)
Definition comparefn : Rand bool :=
  r <- Math_random ;;
  ret (minusHalf_neg r).

(** The loop of [CountAndMakeRun]: each of the [remaining] elements
    after the first two is compared with its predecessor, and the run
    ends at the first one that breaks the direction ([order >= 0] in a
    descending run, [order < 0] in an ascending one). *)
Fixpoint extendRun (isDescending : bool) (remaining : nat) (runLength : nat)
    : Rand nat :=
  match remaining with
  | O => ret runLength
  | S remaining' =>
      negative <- comparefn ;;
      if Bool.eqb negative isDescending
      then extendRun isDescending remaining' (S runLength)
      else ret runLength
  end.

(** [CountAndMakeRun] on an array of at least two elements: the first
    comparison, of [a[1]] with [a[0]], decides the direction. *)
Definition countAndMakeRun {A} (array : list A) : Rand (list A * nat) :=
  isDescending <- comparefn ;;
  runLength <- extendRun isDescending (length array - 2) 2 ;;
  ret (if isDescending
       then rev (firstn runLength array) ++ skipn runLength array
       else array,
       runLength).

(** The binary search of [BinaryInsertionSort] for the place of the
    pivot in [a[left .. right - 1]]: the pivot is compared with the
    middle element, and goes before it when [order < 0].  Every round
    shortens the interval, so [right - left] rounds of [fuel] end the
    search ([binarySearch_fuel]). *)
Fixpoint binarySearch (fuel : nat) (left right : nat) : Rand nat :=
  match fuel with
  | O => ret left
  | S fuel' =>
      if (left <? right)%nat then
        let mid := (left + (right - left) / 2)%nat in
        negative <- comparefn ;;
        if negative
        then binarySearch fuel' left mid
        else binarySearch fuel' (S mid) right
      else ret left
  end.

(** [BinaryInsertionSort]: [sorted] is the prefix [a[0 .. start - 1]],
    [todo] holds [a[start]] and the elements after it. *)
Fixpoint binaryInsertionSort {A} (sorted todo : list A) : Rand (list A) :=
  match todo with
  | [] => ret sorted
  | pivot :: todo' =>
      left <- binarySearch (length sorted) 0 (length sorted) ;;
      binaryInsertionSort (firstn left sorted ++ pivot :: skipn left sorted) todo'
  end.

(** [array.sort(comparefn)] for an array of fewer than 64 elements. *)
Definition sort {A} (array : list A) : Rand (list A) :=
  if (length array <? 2)%nat then ret array
  else
    run <- countAndMakeRun array ;;
    let (array', runLength) := run in
    binaryInsertionSort (firstn runLength array') (skipn runLength array').

Definition shuffleArray {A} (array : list A) : Rand (list A) :=
  sort array.

(** The fragment [`${b >= 0 ? `+ ${b}` : `- ${Math.abs(b)}`}`] of the
    templates that print an equation. *)
Definition signedTerm (b : Z) : string :=
  if b >=? 0 then "+ " +++ JS.toString b else "- " +++ JS.toString (Z.abs b).

End Helpers.

(* ================================================================== *)
(** * The feedback hook, [useAIFeedback] *)
(* ================================================================== *)

Module Feedback.

(** The [type] argument of [getFeedback]: ['correct' | 'incorrect']. *)
Inductive Tag := correct | incorrect.

(** The [feedback] state variable; [type = None] is the empty tag. *)
Record Message := mkMessage { message : string; type : option Tag }.

(** State owned by the hook, together with the diagnostics written to
    the console. *)
Record Hook := mkHook {
  feedback : Message;
  isLoading : bool;
  console : list string
}.

Definition initialHook : Hook :=
  mkHook (mkMessage "" None) false [].

(** How a statement ends: normally, or by a thrown error. *)
Inductive Completion (A : Type) :=
| Normal (x : A)
| Throw (error : string).
Arguments Normal {A} x.
Arguments Throw {A} error.

(** Statements of the hook: they update its state, which survives a
    throw. *)
Definition Eff (A : Type) : Type := Hook -> Hook * Completion A.

Definition bindE {A B} (m : Eff A) (k : A -> Eff B) : Eff B :=
  fun h => match m h with
           | (h', Normal x) => k x h'
           | (h', Throw e) => (h', Throw e)
           end.

(** [try { body } catch (error) { handler } finally { cleanup }]. *)
Definition try_catch_finally {A} (body : Eff A) (handler : string -> Eff A)
    (cleanup : Eff unit) : Eff A :=
  fun h =>
    let caught := match body h with
                  | (h', Normal x) => (h', Normal x)
                  | (h', Throw e) => handler e h'
                  end in
    match cleanup (fst caught) with
    | (h'', Normal _) => (h'', snd caught)
    | (h'', Throw e) => (h'', Throw e)
    end.

Definition setFeedback (m : Message) : Eff unit :=
  fun h => (mkHook m (isLoading h) (console h), Normal tt).

Definition setIsLoading (flag : bool) : Eff unit :=
  fun h => (mkHook (feedback h) flag (console h), Normal tt).

Definition console_error (label detail : string) : Eff unit :=
  fun h => (mkHook (feedback h) (isLoading h) (console h ++ [label +++ " " +++ detail]),
            Normal tt).

(** [await] of a call that has settled with the given outcome. *)
Definition await {A} (outcome : Completion A) : Eff A := fun h => (h, outcome).

(** The [ai] memo: [null] when [API_KEY] is undefined or empty ([false]
    here), a client otherwise.  The message the memo logs once when the
    key is missing is not recorded. *)
Definition ai (API_KEY : option string) : bool :=
  match API_KEY with
  | Some (String _ _) => true
  | _ => false
  end.

(** The argument of [ai.models.generateContent]. *)
Record Request := mkRequest { model : string; contents : string }.

(** The service, for the requests that settle: a request is fulfilled
    with the response text or fails with an error.  A request that has
    not settled, or never does, is one that stays in flight ([InFlight]
    below): the hook sets no timeout. *)
Definition Service := Request -> Completion string.

Definition fallbackMessage (t : Tag) : string :=
  match t with
  | correct => "Chính xác! Làm tốt lắm!"
  | incorrect => "Không đúng rồi. Cố gắng lại nhé!"
  end.

(** [getFeedback] up to its [await]: the statements that run inside
    the caller's event, and the request left in flight (if any). *)
Definition getFeedback_start (configured : bool) (prompt : string) (t : Tag)
    (h : Hook) : Hook * option Request :=
  if negb configured then
    (fst (setFeedback (mkMessage (fallbackMessage t) (Some t)) h), None)
  else
    let h1 := fst (setIsLoading true h) in
    let h2 := fst (setFeedback (mkMessage "" (Some t)) h1) in
    (h2, Some (mkRequest "gemini-2.5-flash" prompt)).

(** [getFeedback] from its [await] on: the [try] block resumed with the
    outcome of the request, the [catch] and the [finally]. *)
Definition getFeedback_resume (outcome : Completion string) (t : Tag) : Eff unit :=
  try_catch_finally
    (bindE (await outcome) (fun response =>
       setFeedback (mkMessage response (Some t))))
    (fun error =>
       bindE (console_error "AI feedback error:" error) (fun _ =>
       setFeedback (mkMessage (fallbackMessage t) (Some t))))
    (setIsLoading false).

(** A whole call of [getFeedback] whose request settles, run until its
    promise settles. *)
Definition getFeedback (configured : bool) (service : Service)
    (prompt : string) (t : Tag) : Eff unit :=
  fun h =>
    match getFeedback_start configured prompt t h with
    | (h1, None) => (h1, Normal tt)
    | (h1, Some request) => getFeedback_resume (service request) t h1
    end.

Definition resetFeedback (h : Hook) : Hook :=
  fst (setFeedback (mkMessage "" None) h).

(** Requests in flight, each with the tag its continuation holds. *)
Definition InFlight := list (Request * Tag).

Definition enqueue (q : InFlight) (request : option Request) (t : Tag) : InFlight :=
  match request with
  | Some r => q ++ [(r, t)]
  | None => q
  end.

Fixpoint remove_nth {A} (k : nat) (l : list A) : list A :=
  match k, l with
  | _, [] => []
  | O, _ :: l' => l'
  | S k', x :: l' => x :: remove_nth k' l'
  end.

(** The [k]-th request in flight settles with [outcome]; [None] when
    there is no such request. *)
Definition settle (k : nat) (outcome : Completion string)
    (h : Hook) (q : InFlight) : option (Hook * InFlight) :=
  match nth_error q k with
  | Some (_, t) => Some (fst (getFeedback_resume outcome t h), remove_nth k q)
  | None => None
  end.

End Feedback.

(* ================================================================== *)
(** * Game 1: [DienBangGiaTriNhanh] *)
(* ================================================================== *)

Module Game1.
Import Random Feedback.
Local Open Scope rand_scope.

Record Question := mkQuestion { a : Z; b : Z; x : Z; y : Z }.

(** The draws and arithmetic of [generateQuestion]. *)
Definition newQuestion : Rand Question :=
  r1 <- Math_random ;;
  let a := JS.orElse (floorTimes r1 19 - 9) 1 in
  r2 <- Math_random ;;
  let b := floorTimes r2 19 - 9 in
  r3 <- Math_random ;;
  let x := floorTimes r3 11 - 5 in
  let y := a * x + b in
  ret (mkQuestion a b x y).

(** The component's state variables, the hook's state, the cursor of
    the random source, the requests in flight and the number of
    pending [setTimeout(generateQuestion, 3000)] callbacks. *)
Record State := mkState {
  question : option Question;
  score : Z;
  timeLeft : Z;
  inputValue : string;
  isAnswered : bool;
  hook : Hook;
  inflight : InFlight;
  cursor : nat;
  nextTimers : nat
}.

Definition promptCorrect (q : Question) : string :=
  "Một học sinh lớp 8 đã trả lời đúng câu hỏi về hàm số bậc nhất. Câu hỏi: Với hàm số y="
  +++ JS.toString (a q) +++ "x + " +++ JS.toString (b q)
  +++ ", khi x=" +++ JS.toString (x q)
  +++ " thì y bằng bao nhiêu? (Đáp án đúng: " +++ JS.toString (y q)
  +++ "). Hãy đưa ra một lời khen ngắn gọn và vui vẻ.".

Definition promptIncorrect (q : Question) (isTimeout : bool)
    (inputValue : string) : string :=
  "Một học sinh lớp 8 trả lời SAI câu hỏi về hàm số bậc nhất. Câu hỏi: Với hàm số y="
  +++ JS.toString (a q) +++ "x + " +++ JS.toString (b q)
  +++ ", khi x=" +++ JS.toString (x q)
  +++ " thì y bằng bao nhiêu? (Đáp án đúng: " +++ JS.toString (y q)
  +++ ", học sinh trả lời: "
  +++ (if isTimeout then "hết giờ" else inputValue)
  +++ "). Hãy đưa ra một gợi ý rất ngắn gọn, tập trung vào cách tính toán, ví dụ "
  +++ JS.dq +++ "Bạn hãy thử nhân " +++ JS.toString (a q) +++ " với "
  +++ JS.toString (x q) +++ " trước nhé!" +++ JS.dq +++ " hoặc "
  +++ JS.dq +++ "Đừng quên cộng thêm " +++ JS.toString (b q)
  +++ " sau khi nhân!" +++ JS.dq +++ ".".

Section Component.
Variable rs : source.
Variable API_KEY : option string.

Definition generateQuestion (s : State) : State :=
  let (q, cursor') := newQuestion rs (cursor s) in
  mkState (Some q) (score s) 15 "" false (resetFeedback (hook s))
          (inflight s) cursor' (nextTimers s).

Definition handleSubmit (isTimeout : bool) (s : State) : State :=
  if isAnswered s then s else
  match question s with
  | None => s
  | Some q =>
      let userAnswer := JS.parseInt (inputValue s) in
      let isCorrect := negb isTimeout && JS.strictEq userAnswer (y q) in
      let prompt := if isCorrect then promptCorrect q
                    else promptIncorrect q isTimeout (inputValue s) in
      let tag := if isCorrect then correct else incorrect in
      let (hook', request) := getFeedback_start (ai API_KEY) prompt tag (hook s) in
      mkState (question s)
              (if isCorrect then score s + 10 else score s)
              (timeLeft s) (inputValue s) true hook'
              (enqueue (inflight s) request tag)
              (cursor s) (S (nextTimers s))
  end.

(** The countdown effect, which runs when [timeLeft] or [isAnswered]
    has changed: it arms the one-second timer while time is left and
    otherwise submits as a timeout. *)
Definition timerEffect (s : State) : State :=
  if isAnswered s then s
  else if timeLeft s >? 0 then s
  else handleSubmit true s.

Definition setTimeLeft (t : Z) (s : State) : State :=
  mkState (question s) (score s) t (inputValue s) (isAnswered s) (hook s)
          (inflight s) (cursor s) (nextTimers s).

Definition setInputValue (v : string) (s : State) : State :=
  mkState (question s) (score s) (timeLeft s) v (isAnswered s) (hook s)
          (inflight s) (cursor s) (nextTimers s).

(** State after the mount effects. *)
Definition initial : State :=
  timerEffect
    (generateQuestion (mkState None 0 15 "" false initialHook [] O O)).

Inductive Event :=
| Tick                      (* the one-second timer fires *)
| Change (text : string)    (* the student edits the input, which
                               then shows [text] *)
| SubmitForm                (* the form is submitted *)
| NextTimer                 (* a pending generateQuestion callback fires *)
| Settle (k : nat) (outcome : Completion string).
                            (* a feedback request settles *)

(** One event; [None] when the event cannot occur in the state (no
    such timer or request, input disabled).  [SubmitForm] is the submit
    event of the form reaching its handler. *)
Definition step (e : Event) (s : State) : option State :=
  match e with
  | Tick =>
      if isAnswered s then None
      else if timeLeft s >? 0
           then Some (timerEffect (setTimeLeft (timeLeft s - 1) s))
           else None
  | Change text =>
      if isAnswered s then None
      else Some (setInputValue (DOM.numberValue text) s)
  | SubmitForm => Some (handleSubmit false s)
  | NextTimer =>
      match nextTimers s with
      | O => None
      | S pending =>
          Some (timerEffect (generateQuestion
            (mkState (question s) (score s) (timeLeft s) (inputValue s)
                     (isAnswered s) (hook s) (inflight s) (cursor s) pending)))
      end
  | Settle k outcome =>
      match settle k outcome (hook s) (inflight s) with
      | Some (hook', inflight') =>
          Some (mkState (question s) (score s) (timeLeft s) (inputValue s)
                        (isAnswered s) hook' inflight' (cursor s) (nextTimers s))
      | None => None
      end
  end.

Inductive reachable : State -> Prop :=
| reach_initial : reachable initial
| reach_step s e s' : reachable s -> step e s = Some s' -> reachable s'.

(** Repeated submissions, explicit or by timeout. *)
Definition submissions (attempts : list bool) (s : State) : State :=
  fold_left (fun st isTimeout => handleSubmit isTimeout st) attempts s.

End Component.

End Game1.

(* ================================================================== *)
(** * Game 2: [TimToaDoAn] *)
(* ================================================================== *)

Module Game2.
Import Random Feedback Helpers.
Local Open Scope rand_scope.

(** [answer] and [promptText] are assigned inside the [switch]; they are
    [None] ([undefined]) when no case ran. *)
Record Question := mkQuestion {
  a : Z;
  b : Z;
  options : list string;
  answer : option string;
  promptText : option string
}.

(** [`(${u}, ${v})`]. *)
Definition point (u v : string) : string := "(" +++ u +++ ", " +++ v +++ ")".

(** The [do ... while (b === 0)] loop; [fuel] bounds the number of
    passes, and [None] means the bound was reached. *)
Fixpoint drawCoefficients (fuel : nat) : Rand (option (Z * Z)) :=
  match fuel with
  | O => ret None
  | S fuel' =>
      r1 <- Math_random ;;
      r2 <- Math_random ;;
      let a := (floorTimes r1 5 + 1) * (if ltHalf r2 then 1 else -1) in
      r3 <- Math_random ;;
      let b := a * (floorTimes r3 5 + 1) in
      r4 <- Math_random ;;
      let b := if ltHalf r4 then - b else b in
      if b =? 0 then drawCoefficients fuel' else ret (Some (a, b))
  end.

Definition promptYIntercept : string :=
  "Đồ thị hàm số cắt trục tung (trục Oy) tại điểm nào?".

Definition promptXIntercept : string :=
  "Đồ thị hàm số cắt trục hoành (trục Ox) tại điểm nào?".

Definition promptPoint (x pointY : Z) : string :=
  "Điểm M(" +++ JS.toString x +++ ", " +++ JS.toString pointY
  +++ ") có thuộc đồ thị hàm số không?".

(** The question type and the [switch] on it. *)
Definition buildQuestion (a b : Z) : Rand Question :=
  r <- Math_random ;;
  let questionType := floorTimes r 3 in
  match questionType with
  | 0 =>
      let answer := point "0" (JS.toString b) in
      options <- shuffleArray
        [answer; point (JS.toString b) "0"; point "0" (JS.toString a);
         point (JS.toString a) "0"] ;;
      ret (mkQuestion a b options (Some answer) (Some promptYIntercept))
  | 1 =>
      let answer := point (JS.toString (JS.divide (- b) a)) "0" in
      options <- shuffleArray
        [answer; point "0" (JS.toString b);
         point "0" (JS.toString (JS.divide (- b) a)); point "0" (JS.toString a)] ;;
      ret (mkQuestion a b options (Some answer) (Some promptXIntercept))
  | 2 =>
      r1 <- Math_random ;;
      let x := floorTimes r1 11 - 5 in
      let y := a * x + b in
      r2 <- Math_random ;;
      let isPointOnLine := ltHalf r2 in
      pointY <- (if isPointOnLine then ret y
                 else (r3 <- Math_random ;;
                       r4 <- Math_random ;;
                       ret (y + (if ltHalf r3 then 1 else -1) * (floorTimes r4 2 + 1)))) ;;
      ret (mkQuestion a b ["Có"; "Không"]
             (Some (if isPointOnLine then "Có" else "Không"))
             (Some (promptPoint x pointY)))
  | _ => ret (mkQuestion a b [] None None)
  end.

(** The draws and arithmetic of [generateQuestion]. *)
Definition newQuestion (fuel : nat) : Rand (option Question) :=
  coefficients <- drawCoefficients fuel ;;
  match coefficients with
  | Some (a, b) => (q <- buildQuestion a b ;; ret (Some q))
  | None => ret None
  end.

Record State := mkState {
  question : option Question;
  score : Z;
  isAnswered : bool;
  selectedOption : option string;
  hook : Hook;
  inflight : InFlight;
  cursor : nat;
  nextTimers : nat
}.

Definition promptCorrect (q : Question) : string :=
  "Một học sinh trả lời đúng câu hỏi về đồ thị y="
  +++ JS.toString (a q) +++ "x+" +++ JS.toString (b q)
  +++ ". Hãy khen họ một cách ngắn gọn.".

Definition promptIncorrect (q : Question) : string :=
  "Học sinh trả lời sai câu hỏi về đồ thị y=" +++ JS.toString (a q)
  +++ "x+" +++ JS.toString (b q) +++ ". Câu hỏi là " +++ JS.dq
  +++ JS.showString (promptText q) +++ JS.dq +++ ". Đáp án đúng là "
  +++ JS.dq +++ JS.showString (answer q) +++ JS.dq
  +++ ". Hãy đưa ra một gợi ý ngắn gọn, hữu ích. Ví dụ: " +++ JS.dq
  +++ "Để kiểm tra một điểm, hãy thay tọa độ (x, y) của nó vào phương trình nhé."
  +++ JS.dq +++ " hoặc " +++ JS.dq
  +++ "Giao điểm với trục tung (Oy) luôn có x=0." +++ JS.dq.

Section Component.
Variable rs : source.
Variable API_KEY : option string.
Variable fuel : nat.

(** [None]: the coefficient loop did not end within [fuel] passes. *)
Definition generateQuestion (s : State) : option State :=
  match newQuestion fuel rs (cursor s) with
  | (Some q, cursor') =>
      Some (mkState (Some q) (score s) false None (resetFeedback (hook s))
                    (inflight s) cursor' (nextTimers s))
  | (None, _) => None
  end.

(** [None]: [question] is [null] and reading [question.answer] throws. *)
Definition handleAnswer (opt : string) (s : State) : option State :=
  if isAnswered s then Some s else
  match question s with
  | None => None
  | Some q =>
      let isCorrect := match answer q with
                       | Some correctOption => String.eqb opt correctOption
                       | None => false
                       end in
      let prompt := if isCorrect then promptCorrect q else promptIncorrect q in
      let tag := if isCorrect then correct else incorrect in
      let (hook', request) := getFeedback_start (ai API_KEY) prompt tag (hook s) in
      Some (mkState (question s)
                    (if isCorrect then score s + 10 else score s)
                    true (Some opt) hook'
                    (enqueue (inflight s) request tag)
                    (cursor s) (S (nextTimers s)))
  end.

(** State after the mount effect, when the first question exists. *)
Definition initial : option State :=
  generateQuestion (mkState None 0 false None initialHook [] O O).

Inductive Event :=
| Select (opt : string)
| NextTimer
| Settle (k : nat) (outcome : Completion string).

Definition step (e : Event) (s : State) : option State :=
  match e with
  | Select opt => handleAnswer opt s
  | NextTimer =>
      match nextTimers s with
      | O => None
      | S pending =>
          generateQuestion
            (mkState (question s) (score s) (isAnswered s) (selectedOption s)
                     (hook s) (inflight s) (cursor s) pending)
      end
  | Settle k outcome =>
      match settle k outcome (hook s) (inflight s) with
      | Some (hook', inflight') =>
          Some (mkState (question s) (score s) (isAnswered s) (selectedOption s)
                        hook' inflight' (cursor s) (nextTimers s))
      | None => None
      end
  end.

Inductive reachable : State -> Prop :=
| reach_initial s : initial = Some s -> reachable s
| reach_step s e s' : reachable s -> step e s = Some s' -> reachable s'.

(** Repeated selections, one after the other. *)
Fixpoint selections (attempts : list string) (s : State) : option State :=
  match attempts with
  | [] => Some s
  | opt :: rest =>
      match handleAnswer opt s with
      | Some s' => selections rest s'
      | None => None
      end
  end.

End Component.

End Game2.

(* ================================================================== *)
(** * Game 3: [DoanThamSo] *)
(* ================================================================== *)

Module Game3.
Import Random Feedback Helpers.
Local Open Scope rand_scope.

Record Question := mkQuestion {
  a : Z;
  b : Z;
  options : list string;
  answer : string;
  promptText : string
}.

Definition formatEquation (a b : Z) : string :=
  "y = " +++ JS.toString a +++ "x " +++ signedTerm b.

Definition promptEquation : string :=
  "Đồ thị trên tương ứng với phương trình nào?".

Definition promptMonotone : string :=
  "Hàm số được biểu diễn bởi đồ thị này đồng biến hay nghịch biến?".

Definition promptSigns : string :=
  "Xác định dấu của các tham số a và b.".

(** [`a ${signA} 0, b ${signB} 0`]. *)
Definition signText (signA signB : string) : string :=
  "a " +++ signA +++ " 0, b " +++ signB +++ " 0".

Definition signs : list string := [">"; "<"].

(** The set filled by the two nested [forEach] loops. *)
Definition allSignOptions : list string :=
  fold_left
    (fun acc signA =>
       fold_left (fun acc' signB => JS.set_add acc' (signText signA signB)) signs acc)
    signs [].

(** The set of wrong equations of question type 0. *)
Definition wrongOptions (a b : Z) : list string :=
  let w1 := JS.set_add [] (formatEquation (- a) b) in
  let w2 := JS.set_add w1 (formatEquation a (- b)) in
  let w3 := JS.set_add w2 (formatEquation (- a) (- b)) in
  if (Z.of_nat (length w3) <? 3) then JS.set_add w3 (formatEquation (a * 2) b) else w3.

(** The draws and arithmetic of [generateQuestion]. *)
Definition newQuestion : Rand Question :=
  r1 <- Math_random ;;
  r2 <- Math_random ;;
  let a := (floorTimes r1 5 + 1) * (if ltHalf r2 then 1 else -1) in
  r3 <- Math_random ;;
  r4 <- Math_random ;;
  let b := (floorTimes r3 5 + 1) * (if ltHalf r4 then 1 else -1) in
  r5 <- Math_random ;;
  let questionType := floorTimes r5 3 in
  match questionType with
  | 0 =>
      let answer := formatEquation a b in
      options <- shuffleArray (answer :: firstn 3 (wrongOptions a b)) ;;
      ret (mkQuestion a b options answer promptEquation)
  | 1 =>
      ret (mkQuestion a b ["Đồng biến"; "Nghịch biến"]
             (if a >? 0 then "Đồng biến" else "Nghịch biến") promptMonotone)
  | 2 =>
      let answer := signText (if a >? 0 then ">" else "<") (if b >? 0 then ">" else "<") in
      options <- shuffleArray allSignOptions ;;
      ret (mkQuestion a b options answer promptSigns)
  | _ => ret (mkQuestion a b [] "" "")
  end.

Record State := mkState {
  question : option Question;
  score : Z;
  isAnswered : bool;
  selectedOption : option string;
  hook : Hook;
  inflight : InFlight;
  cursor : nat;
  nextTimers : nat
}.

Definition promptCorrect (q : Question) : string :=
  "Học sinh đã trả lời đúng câu hỏi " +++ JS.dq +++ promptText q
  +++ JS.dq +++ " với đáp án " +++ JS.dq +++ answer q +++ JS.dq
  +++ ". Hãy khen họ.".

Definition promptIncorrect (q : Question) : string :=
  "Học sinh đã trả lời sai câu hỏi " +++ JS.dq +++ promptText q
  +++ JS.dq +++ ". Đáp án đúng là " +++ JS.dq +++ answer q +++ JS.dq
  +++ ". Gợi ý ngắn gọn: " +++ JS.dq
  +++ "Hãy nhìn xem đồ thị đi lên (a>0) hay đi xuống (a<0). Sau đó, tìm điểm cắt trục tung Oy để xác định dấu của b."
  +++ JS.dq.

Section Component.
Variable rs : source.
Variable API_KEY : option string.

Definition generateQuestion (s : State) : State :=
  let (q, cursor') := newQuestion rs (cursor s) in
  mkState (Some q) (score s) false None (resetFeedback (hook s))
          (inflight s) cursor' (nextTimers s).

(** [None]: [question] is [null] and reading [question.answer] throws. *)
Definition handleAnswer (opt : string) (s : State) : option State :=
  if isAnswered s then Some s else
  match question s with
  | None => None
  | Some q =>
      let isCorrect := String.eqb opt (answer q) in
      let prompt := if isCorrect then promptCorrect q else promptIncorrect q in
      let tag := if isCorrect then correct else incorrect in
      let (hook', request) := getFeedback_start (ai API_KEY) prompt tag (hook s) in
      Some (mkState (question s)
                    (if isCorrect then score s + 10 else score s)
                    true (Some opt) hook'
                    (enqueue (inflight s) request tag)
                    (cursor s) (S (nextTimers s)))
  end.

(** State after the mount effect. *)
Definition initial : State :=
  generateQuestion (mkState None 0 false None initialHook [] O O).

Inductive Event :=
| Select (opt : string)
| NextTimer
| Settle (k : nat) (outcome : Completion string).

Definition step (e : Event) (s : State) : option State :=
  match e with
  | Select opt => handleAnswer opt s
  | NextTimer =>
      match nextTimers s with
      | O => None
      | S pending =>
          Some (generateQuestion
            (mkState (question s) (score s) (isAnswered s) (selectedOption s)
                     (hook s) (inflight s) (cursor s) pending))
      end
  | Settle k outcome =>
      match settle k outcome (hook s) (inflight s) with
      | Some (hook', inflight') =>
          Some (mkState (question s) (score s) (isAnswered s) (selectedOption s)
                        hook' inflight' (cursor s) (nextTimers s))
      | None => None
      end
  end.

Inductive reachable : State -> Prop :=
| reach_initial : reachable initial
| reach_step s e s' : reachable s -> step e s = Some s' -> reachable s'.

(** Repeated selections, one after the other. *)
Fixpoint selections (attempts : list string) (s : State) : option State :=
  match attempts with
  | [] => Some s
  | opt :: rest =>
      match handleAnswer opt s with
      | Some s' => selections rest s'
      | None => None
      end
  end.

End Component.

End Game3.

(* ================================================================== *)
(** * Game 4: [AiNhanhHon] *)
(* ================================================================== *)

Module Game4.
Import Random Feedback Helpers.
Local Open Scope rand_scope.

(** An element of [questions].  The three fields are assigned together
    inside the [switch]. *)
Record Question := mkQuestion {
  prompt : string;
  options : list string;
  answerIndex : Z
}.

(** What one pass of the loop of [generateQuiz] leaves: the final values
    of its locals [a] and [b], and the object it pushes ([None]: the
    object whose fields are all [undefined], no case having run). *)
Record Item := mkItem {
  coefA : Z;
  coefB : Z;
  pushed : option Question
}.

(** [`(${u}, ${v})`]. *)
Definition point (u v : string) : string := "(" +++ u +++ ", " +++ v +++ ")".

(** [`Cho hàm số y = ${a}x ${...}.`]. *)
Definition questionText (a b : Z) : string :=
  "Cho hàm số y = " +++ JS.toString a +++ "x " +++ signedTerm b +++ ".".

(** [`y = ${a}x ${...}`] with the sign chosen by [s] and the magnitude
    taken from [m]. *)
Definition line (a s m : Z) : string :=
  "y = " +++ JS.toString a +++ "x "
  +++ (if s >=? 0 then "+ " +++ JS.toString m else "- " +++ JS.toString (Z.abs m)).

Definition promptMonotone (a b : Z) : string :=
  questionText a b +++ " Hàm số này đồng biến hay nghịch biến?".

Definition promptYIntercept (a b : Z) : string :=
  questionText a b +++ " Đồ thị cắt trục tung tại điểm nào?".

Definition promptPoint (a b x pointY : Z) : string :=
  questionText a b +++ " Điểm M(" +++ JS.toString x +++ ", "
  +++ JS.toString pointY +++ ") có thuộc đồ thị không?".

Definition promptParallel (a b : Z) : string :=
  questionText a b +++ " Đường thẳng nào sau đây song song với nó?".

Definition promptXIntercept (a b : Z) : string :=
  questionText a b +++ " Đồ thị cắt trục hoành tại điểm nào?".

(** One pass of the [for] loop of [generateQuiz]. *)
Definition newItem : Rand Item :=
  r1 <- Math_random ;;
  r2 <- Math_random ;;
  let a := (floorTimes r1 5 + 1) * (if ltHalf r2 then 1 else -1) in
  r3 <- Math_random ;;
  let b := floorTimes r3 9 - 4 in
  r4 <- Math_random ;;
  let type := floorTimes r4 5 in
  match type with
  | 0 =>
      ret (mkItem a b (Some (mkQuestion (promptMonotone a b)
             ["Đồng biến"; "Nghịch biến"] (if a >? 0 then 0 else 1))))
  | 1 =>
      let correctYIntercept := point "0" (JS.toString b) in
      options <- shuffleArray
        [correctYIntercept; point (JS.toString b) "0"; point "0" (JS.toString a);
         point "0" (JS.toString (- b))] ;;
      ret (mkItem a b (Some (mkQuestion (promptYIntercept a b) options
             (JS.indexOf options correctYIntercept))))
  | 2 =>
      r5 <- Math_random ;;
      let x := floorTimes r5 5 + 1 in
      let y := a * x + b in
      r6 <- Math_random ;;
      let isPointOnLine := ltHalf r6 in
      pointY <- (if isPointOnLine then ret y
                 else (r7 <- Math_random ;; ret (y + (if ltHalf r7 then 1 else -1)))) ;;
      ret (mkItem a b (Some (mkQuestion (promptPoint a b x pointY)
             ["Có"; "Không"] (if isPointOnLine then 0 else 1))))
  | 3 =>
      r5 <- Math_random ;;
      r6 <- Math_random ;;
      let b_diff :=
        JS.orElse (b + (if ltHalf r5 then 1 else -1) * (floorTimes r6 3 + 1)) (b + 1) in
      let correctParallel := line a b_diff b_diff in
      options <- shuffleArray
        [correctParallel; line (- a) b b; line a b b; line (a + 1) b b_diff] ;;
      ret (mkItem a b (Some (mkQuestion (promptParallel a b) options
             (JS.indexOf options correctParallel))))
  | 4 =>
      r5 <- Math_random ;;
      r6 <- Math_random ;;
      let a := (floorTimes r5 4 + 1) * (if ltHalf r6 then 1 else -1) in
      r7 <- Math_random ;;
      r8 <- Math_random ;;
      let b := a * (floorTimes r7 4 + 1) * (if ltHalf r8 then 1 else -1) in
      let correctXIntercept := point (JS.toString (JS.divide (- b) a)) "0" in
      options <- shuffleArray
        [correctXIntercept; point "0" (JS.toString b);
         point "0" (JS.toString (JS.divide (- b) a)); point (JS.toString b) "0"] ;;
      ret (mkItem a b (Some (mkQuestion (promptXIntercept a b) options
             (JS.indexOf options correctXIntercept))))
  | _ => ret (mkItem a b None)
  end.

(** The [for] loop: [count] passes remain, [newQuestions] holds what
    has been pushed so far. *)
Fixpoint quizLoop (count : nat) (newQuestions : list Item) : Rand (list Item) :=
  match count with
  | O => ret newQuestions
  | S count' =>
      item <- newItem ;;
      quizLoop count' (newQuestions ++ [item])
  end.

Definition generateItems : Rand (list Item) := quizLoop 10 [].

(** The array [generateQuiz] stores in [questions]. *)
Definition generateQuiz : Rand (list (option Question)) :=
  items <- generateItems ;;
  ret (map pushed items).

(** A scheduled [nextQuestion]: the values of [currentQIndex],
    [questions.length] and [score] in the render whose handler scheduled
    it. *)
Record Closure := mkClosure {
  seenIndex : nat;
  seenLength : nat;
  seenScore : Z
}.

Record State := mkState {
  questions : list (option Question);
  currentQIndex : nat;
  score : Z;
  timeLeft : Z;
  isAnswered : bool;
  selectedOption : option Z;
  isGameOver : bool;
  hook : Hook;
  inflight : InFlight;
  cursor : nat;
  nextTimers : list Closure
}.

Definition promptFinal (numCorrect : Z) : string :=
  "Một học sinh vừa hoàn thành bài kiểm tra nhanh 10 câu hỏi về hàm số bậc nhất. Họ trả lời đúng "
  +++ JS.toString numCorrect
  +++ " trên 10 câu. Dựa vào kết quả này, hãy đưa ra một lời nhận xét tổng quát ngắn gọn, khen ngợi điểm mạnh và gợi ý phần kiến thức cần xem lại.".

(** What the component renders. *)
Inductive View :=
| Spinner
| ResultsPanel (scoreLine correctLine : string) (message : string)
| QuestionPanel (scoreItem progressItem timeItem : string) (q : Question)
    (disabled : bool)
| RenderError.

Section Component.
Variable rs : source.
Variable API_KEY : option string.

Definition resetGame (s : State) : State :=
  let (newQuestions, cursor') := generateQuiz rs (cursor s) in
  mkState newQuestions O 0 15 false None false (hook s) (inflight s) cursor'
          (nextTimers s).

Definition nextQuestion (c : Closure) (s : State) : State :=
  if Z.of_nat (seenIndex c) <? Z.of_nat (seenLength c) - 1 then
    mkState (questions s) (S (currentQIndex s)) (score s) 15 false None
            (isGameOver s) (hook s) (inflight s) (cursor s) (nextTimers s)
  else
    let numCorrect := JS.divide (seenScore c) 10 in
    let (hook', request) :=
      getFeedback_start (ai API_KEY) (promptFinal numCorrect) correct (hook s) in
    mkState (questions s) (currentQIndex s) (score s) (timeLeft s) (isAnswered s)
            (selectedOption s) true hook' (enqueue (inflight s) request correct)
            (cursor s) (nextTimers s).

(** [None]: [questions[currentQIndex]] is [undefined] and reading its
    [answerIndex] throws. *)
Definition handleAnswer (optionIndex : Z) (s : State) : option State :=
  if isAnswered s then Some s else
  match nth_error (questions s) (currentQIndex s) with
  | None => None
  | Some slot =>
      let isCorrect := match slot with
                       | Some q => optionIndex =? answerIndex q
                       | None => false
                       end in
      Some (mkState (questions s) (currentQIndex s)
                    (if isCorrect then score s + 10 else score s)
                    (timeLeft s) true (Some optionIndex) (isGameOver s)
                    (hook s) (inflight s) (cursor s)
                    (nextTimers s ++
                       [mkClosure (currentQIndex s) (length (questions s)) (score s)]))
  end.

(** The countdown effect, which runs when [timeLeft], [isAnswered] or
    [isGameOver] has changed. *)
Definition timerEffect (s : State) : option State :=
  if isGameOver s || isAnswered s then Some s
  else if timeLeft s >? 0 then Some s
  else handleAnswer (-1) s.

Definition setTimeLeft (t : Z) (s : State) : State :=
  mkState (questions s) (currentQIndex s) (score s) t (isAnswered s)
          (selectedOption s) (isGameOver s) (hook s) (inflight s) (cursor s)
          (nextTimers s).

Definition setNextTimers (timers : list Closure) (s : State) : State :=
  mkState (questions s) (currentQIndex s) (score s) (timeLeft s) (isAnswered s)
          (selectedOption s) (isGameOver s) (hook s) (inflight s) (cursor s)
          timers.

(** State after the mount effects. *)
Definition initial : option State :=
  timerEffect
    (resetGame (mkState [] O 0 15 false None false initialHook [] O [])).

Definition render (s : State) : View :=
  if (length (questions s) =? 0)%nat then Spinner
  else if isGameOver s then
    ResultsPanel ("Điểm số của bạn: " +++ JS.toString (score s))
                 ("Số câu đúng: " +++ JS.toString (JS.divide (score s) 10) +++ " / 10")
                 (message (feedback (hook s)))
  else
    match nth_error (questions s) (currentQIndex s) with
    | Some (Some currentQuestion) =>
        QuestionPanel ("🏆 Điểm: " +++ JS.toString (score s))
                      ("❓ Câu hỏi: " +++ JS.toString (Z.of_nat (currentQIndex s) + 1) +++ "/10")
                      ("⏳ Thời gian: " +++ JS.toString (timeLeft s) +++ "s")
                      currentQuestion (isAnswered s)
    | _ => RenderError
    end.

Inductive Event :=
| Tick                          (* the one-second timer fires *)
| Select (optionIndex : Z)      (* an option button is clicked *)
| NextTimer                     (* the oldest pending nextQuestion fires *)
| PlayAgain                     (* the button of the results panel *)
| Settle (k : nat) (outcome : Completion string).

Definition step (e : Event) (s : State) : option State :=
  match e with
  | Tick =>
      if isGameOver s || isAnswered s then None
      else if timeLeft s >? 0
           then timerEffect (setTimeLeft (timeLeft s - 1) s)
           else None
  | Select optionIndex => handleAnswer optionIndex s
  | NextTimer =>
      match nextTimers s with
      | [] => None
      | c :: pending => timerEffect (nextQuestion c (setNextTimers pending s))
      end
  | PlayAgain =>
      if isGameOver s then timerEffect (resetGame s) else None
  | Settle k outcome =>
      match settle k outcome (hook s) (inflight s) with
      | Some (hook', inflight') =>
          Some (mkState (questions s) (currentQIndex s) (score s) (timeLeft s)
                        (isAnswered s) (selectedOption s) (isGameOver s)
                        hook' inflight' (cursor s) (nextTimers s))
      | None => None
      end
  end.

Inductive reachable : State -> Prop :=
| reach_initial s : initial = Some s -> reachable s
| reach_step s e s' : reachable s -> step e s = Some s' -> reachable s'.

(** Repeated selections (or timeouts, index [-1]), one after the other. *)
Fixpoint selections (attempts : list Z) (s : State) : option State :=
  match attempts with
  | [] => Some s
  | optionIndex :: rest =>
      match handleAnswer optionIndex s with
      | Some s' => selections rest s'
      | None => None
      end
  end.

(** One round of play: the student clicks [optionIndex], then the
    scheduled [nextQuestion] fires. *)
Definition answerAndAdvance (optionIndex : Z) (s : State) : option State :=
  match step (Select optionIndex) s with
  | Some s' => step NextTimer s'
  | None => None
  end.

End Component.

End Game4.


(* ================================================================== *)
(** * What the games render *)
(* ================================================================== *)

Module Panel.
Import Feedback.

(** [`${feedback.type}`]: the tag as the class name prints it; the
    initial and the reset tag are the empty string. *)
Definition tagText (t : option Tag) : string :=
  match t with
  | Some correct => "correct"
  | Some incorrect => "incorrect"
  | None => ""
  end.

(** The content of the feedback panel:
    [{isLoading ? <div className="loading-spinner"></div> : feedback.message}]. *)
Inductive Body :=
| LoadingSpinner
| Text (message : string).

Record FeedbackPanel := mkFeedbackPanel {
  panelClass : string;
  body : Body
}.

Definition feedbackPanel (h : Hook) : FeedbackPanel :=
  mkFeedbackPanel ("feedback-panel " +++ tagText (type (feedback h)))
                  (if isLoading h then LoadingSpinner else Text (message (feedback h))).

(** An option button. *)
Record Button := mkButton {
  text : string;
  disabled : bool;
  className : string
}.

(** [`mcq-btn ${isAnswered && (isAnswer ? 'correct' : (isSelected ?
    'incorrect' : ''))}`]: while [isAnswered] is false the template
    prints the value [false] itself. *)
Definition optionClass (isAnswered isAnswer isSelected : bool) : string :=
  "mcq-btn "
  +++ (if isAnswered
       then (if isAnswer then "correct" else if isSelected then "incorrect" else "")
       else "false").

(** [Array.from({length: n}, (_, i) => f(i))]. *)
Definition Array_from {A} (length : nat) (f : Z -> A) : list A :=
  map (fun i => f (Z.of_nat i)) (seq 0 length).

(** The [data] prop of the line chart: the labels of the x axis and the
    one dataset, with its legend label and its values.  The colour and
    the tension of the curve are constants and are left out. *)
Record ChartData := mkChartData {
  labels : list Z;
  label : string;
  data : list Z
}.

(** [opt === v] for a string [opt] and a value that may be [null] or
    [undefined]. *)
Definition sameString (opt : string) (v : option string) : bool :=
  match v with
  | Some w => String.eqb opt w
  | None => false
  end.

(** [i === v] for a number [i] and a value that may be [null]. *)
Definition sameNumber (i : Z) (v : option Z) : bool :=
  match v with
  | Some w => i =? w
  | None => false
  end.

(** [array.map((x, i) => f(x, i))]. *)
Fixpoint mapIndexed {A B} (f : A -> Z -> B) (i : Z) (array : list A) : list B :=
  match array with
  | [] => []
  | x :: rest => f x i :: mapIndexed f (i + 1) rest
  end.

End Panel.

Module Game1View.
Import Feedback Panel.

Inductive View :=
| Spinner
| GamePanel (scoreItem timeItem : string) (functionText : string) (xText : string)
    (inputValue : string) (inputDisabled submitDisabled : bool)
    (feedback : FeedbackPanel).

Definition render (s : Game1.State) : View :=
  match Game1.question s with
  | None => Spinner
  | Some q =>
      GamePanel ("🏆 Điểm: " +++ JS.toString (Game1.score s))
                ("⏳ Thời gian: " +++ JS.toString (Game1.timeLeft s) +++ "s")
                ("y = " +++ JS.toString (Game1.a q) +++ "x "
                 +++ Helpers.signedTerm (Game1.b q))
                ("x = " +++ JS.toString (Game1.x q))
                (Game1.inputValue s) (Game1.isAnswered s) (Game1.isAnswered s)
                (feedbackPanel (Game1.hook s))
  end.

End Game1View.

Module Game2View.
Import Feedback Panel.

Definition chartData (q : Game2.Question) : ChartData :=
  mkChartData
    (Array_from 21 (fun i => i - 10))
    ("y = " +++ JS.toString (Game2.a q) +++ "x " +++ Helpers.signedTerm (Game2.b q))
    (Array_from 21 (fun i => Game2.a q * (i - 10) + Game2.b q)).

Definition buttons (q : Game2.Question) (isAnswered : bool)
    (selectedOption : option string) : list Button :=
  mapIndexed
    (fun opt _ =>
       mkButton opt isAnswered
         (optionClass isAnswered (sameString opt (Game2.answer q))
                      (sameString opt selectedOption)))
    0 (Game2.options q).

Inductive View :=
| Spinner
| GamePanel (scoreItem : string) (chart : ChartData) (prompt : option string)
    (options : list Button) (feedback : FeedbackPanel).

Definition render (s : Game2.State) : View :=
  match Game2.question s with
  | None => Spinner
  | Some q =>
      GamePanel ("🏆 Điểm: " +++ JS.toString (Game2.score s))
                (chartData q) (Game2.promptText q)
                (buttons q (Game2.isAnswered s) (Game2.selectedOption s))
                (feedbackPanel (Game2.hook s))
  end.

End Game2View.

Module Game3View.
Import Feedback Panel.

Definition chartData (q : Game3.Question) : ChartData :=
  mkChartData
    (Array_from 21 (fun i => i - 10))
    "Đồ thị hàm số"
    (Array_from 21 (fun i => Game3.a q * (i - 10) + Game3.b q)).

Definition buttons (q : Game3.Question) (isAnswered : bool)
    (selectedOption : option string) : list Button :=
  mapIndexed
    (fun opt _ =>
       mkButton opt isAnswered
         (optionClass isAnswered (String.eqb opt (Game3.answer q))
                      (sameString opt selectedOption)))
    0 (Game3.options q).

Inductive View :=
| Spinner
| GamePanel (scoreItem : string) (chart : ChartData) (prompt : string)
    (options : list Button) (feedback : FeedbackPanel).

Definition render (s : Game3.State) : View :=
  match Game3.question s with
  | None => Spinner
  | Some q =>
      GamePanel ("🏆 Điểm: " +++ JS.toString (Game3.score s))
                (chartData q) (Game3.promptText q)
                (buttons q (Game3.isAnswered s) (Game3.selectedOption s))
                (feedbackPanel (Game3.hook s))
  end.

End Game3View.

Module Game4View.
Import Panel.

(** The option buttons of the question panel of the quiz: the classes
    compare indices, not texts. *)
Definition buttons (q : Game4.Question) (isAnswered : bool)
    (selectedOption : option Z) : list Button :=
  mapIndexed
    (fun opt i =>
       mkButton opt isAnswered
         (optionClass isAnswered (i =? Game4.answerIndex q)
                      (sameNumber i selectedOption)))
    0 (Game4.options q).

(** The feedback panel of the results panel. *)
Definition resultsFeedback (s : Game4.State) : FeedbackPanel :=
  feedbackPanel (Game4.hook s).

End Game4View.

(* ================================================================== *)
(** * The menu and the game host: [App], [MainMenu], [GameHost] *)
(* ================================================================== *)

Module App.

Inductive Component :=
| DienBangGiaTriNhanh
| TimToaDoAn
| DoanThamSo
| AiNhanhHon.

Record Card := mkCard {
  id : string;
  title : string;
  description : string;
  icon : string
}.

(** The [games] array of [MainMenu]. *)
Definition games : list Card :=
  [ mkCard "game1" "Điền bảng giá trị nhanh"
           "AI cho công thức, bạn điền giá trị y tương ứng với x." "📝";
    mkCard "game2" "Tìm tọa độ ẩn"
           "AI hiển thị đồ thị, bạn tìm giao điểm hoặc kiểm tra điểm." "📍";
    mkCard "game3" "Đoán tham số & thuộc tính"
           "AI đưa ra đồ thị, bạn chọn phương trình hoặc thuộc tính." "📈";
    mkCard "game4" "Ai nhanh hơn"
           "Trả lời nhanh 10 câu hỏi trắc nghiệm đa dạng để đạt điểm cao." "⚡️" ].

(** [aria-label] of a card. *)
Definition ariaLabel (game : Card) : string :=
  "Bắt đầu trò chơi " +++ title game.

(** The names every object literal inherits from [Object.prototype];
    the value of each is a function or an object, hence truthy. *)
Definition objectPrototypeNames : list string :=
  [ "constructor"; "hasOwnProperty"; "isPrototypeOf"; "propertyIsEnumerable";
    "toLocaleString"; "toString"; "valueOf"; "__proto__";
    "__defineGetter__"; "__defineSetter__"; "__lookupGetter__";
    "__lookupSetter__" ].

(** [object[key]] on an object literal: an own property, a member
    inherited from [Object.prototype], or [undefined]. *)
Inductive Lookup (A : Type) :=
| Own (value : A)
| Inherited
| Undefined.
Arguments Own {A} value.
Arguments Inherited {A}.
Arguments Undefined {A}.

Fixpoint ownProperty {A} (properties : list (string * A)) (key : string) : option A :=
  match properties with
  | [] => None
  | (name, value) :: rest =>
      if String.eqb name key then Some value else ownProperty rest key
  end.

Definition lookup {A} (properties : list (string * A)) (key : string) : Lookup A :=
  match ownProperty properties key with
  | Some value => Own value
  | None =>
      if existsb (String.eqb key) objectPrototypeNames then Inherited else Undefined
  end.

Definition gameComponents : list (string * Component) :=
  [ ("game1", DienBangGiaTriNhanh); ("game2", TimToaDoAn);
    ("game3", DoanThamSo); ("game4", AiNhanhHon) ].

Definition gameTitles : list (string * string) :=
  [ ("game1", "Điền bảng giá trị nhanh"); ("game2", "Tìm tọa độ ẩn");
    ("game3", "Đoán tham số & Thuộc tính"); ("game4", "Ai nhanh hơn") ].

(** What [GameHost] puts under its header:
    [gameComponents[gameId] || <p>Trò chơi không tồn tại.</p>]. *)
Inductive HostBody :=
| Game (component : Component)
| InheritedMember
| Placeholder (text : string).

Record HostView := mkHostView {
  header : Lookup string;
  hostBody : HostBody
}.

Definition GameHost (gameId : string) : HostView :=
  mkHostView (lookup gameTitles gameId)
             (match lookup gameComponents gameId with
              | Own component => Game component
              | Inherited => InheritedMember
              | Undefined => Placeholder "Trò chơi không tồn tại."
              end).

(** The state of [App]: [activeGameId], [None] being [null]. *)
Definition State := option string.

Definition handleStartGame (gameId : string) (_ : State) : State := Some gameId.

Definition handleBackToMenu (_ : State) : State := None.

Inductive View :=
| MainMenu (cards : list Card)
| Host (host : HostView).

(** [activeGameId ? <GameHost .../> : <MainMenu .../>]: the empty
    string is falsy, like [null]. *)
Definition render (activeGameId : State) : View :=
  match activeGameId with
  | Some (String c rest) => Host (GameHost (String c rest))
  | _ => MainMenu games
  end.

Inductive Event :=
| ClickCard (index : nat)   (* a click on the card at this position *)
| ClickBack.                (* the button of the host's header *)

(** One event; [None] when the view does not offer it. *)
Definition step (e : Event) (activeGameId : State) : option State :=
  match e, render activeGameId with
  | ClickCard index, MainMenu cards =>
      match nth_error cards index with
      | Some game => Some (handleStartGame (id game) activeGameId)
      | None => None
      end
  | ClickBack, Host _ => Some (handleBackToMenu activeGameId)
  | _, _ => None
  end.

Inductive reachable : State -> Prop :=
| reach_initial : reachable None
| reach_step s e s' : reachable s -> step e s = Some s' -> reachable s'.

End App.

(* ================================================================== *)
(** * Vocabulary of the properties *)
(* ================================================================== *)

Module Spec.
Import Random.

(** A computation is determined by the draws it consumes: it only moves
    the cursor forward, and on a second stream that holds the same
    values at the positions it read, it returns the same result and
    stops at the same position. *)
Definition determined {A} (m : Rand A) : Prop :=
  forall rs1 rs2 n,
    (n <= snd (m rs1 n))%nat /\
    (agree rs1 rs2 n (snd (m rs1 n)) -> m rs2 n = m rs1 n).

(** The right answer to each kind of question of game 2 about the line
    [y = ax + b], named by the prompt: where the line meets the axes, and
    whether a point lies on it. *)
Inductive RightAnswer2 (a b : Z) : string -> string -> Prop :=
| yIntercept2 y0 :
    y0 = a * 0 + b ->
    RightAnswer2 a b Game2.promptYIntercept (Game2.point "0" (JS.toString y0))
| xIntercept2 x0 :
    a * x0 + b = 0 ->
    RightAnswer2 a b Game2.promptXIntercept (Game2.point (JS.toString x0) "0")
| pointOn2 x pointY :
    pointY = a * x + b ->
    RightAnswer2 a b (Game2.promptPoint x pointY) "Có"
| pointOff2 x pointY :
    pointY <> a * x + b ->
    RightAnswer2 a b (Game2.promptPoint x pointY) "Không".

(** The sign a parameter is said to have. *)
Inductive SignOf (v : Z) : string -> Prop :=
| positive_sign : 0 < v -> SignOf v ">"
| negative_sign : v < 0 -> SignOf v "<".

(** The right answer to each kind of question of game 3. *)
Inductive RightAnswer3 (a b : Z) : string -> string -> Prop :=
| equation3 :
    RightAnswer3 a b Game3.promptEquation (Game3.formatEquation a b)
| increasing3 :
    0 < a -> RightAnswer3 a b Game3.promptMonotone "Đồng biến"
| decreasing3 :
    a < 0 -> RightAnswer3 a b Game3.promptMonotone "Nghịch biến"
| signs3 signA signB :
    SignOf a signA -> SignOf b signB ->
    RightAnswer3 a b Game3.promptSigns (Game3.signText signA signB).

(** The right answer to each kind of question of the quiz, for the
    line [y = ax + b] its prompt prints. *)
Inductive RightAnswer4 (a b : Z) : string -> string -> Prop :=
| increasing4 :
    0 < a -> RightAnswer4 a b (Game4.promptMonotone a b) "Đồng biến"
| decreasing4 :
    a < 0 -> RightAnswer4 a b (Game4.promptMonotone a b) "Nghịch biến"
| yIntercept4 y0 :
    y0 = a * 0 + b ->
    RightAnswer4 a b (Game4.promptYIntercept a b) (Game4.point "0" (JS.toString y0))
| pointOn4 x pointY :
    pointY = a * x + b ->
    RightAnswer4 a b (Game4.promptPoint a b x pointY) "Có"
| pointOff4 x pointY :
    pointY <> a * x + b ->
    RightAnswer4 a b (Game4.promptPoint a b x pointY) "Không"
| parallel4 c :
    c <> b ->
    RightAnswer4 a b (Game4.promptParallel a b) (Game4.line a c c)
| xIntercept4 x0 :
    a * x0 + b = 0 ->
    RightAnswer4 a b (Game4.promptXIntercept a b) (Game4.point (JS.toString x0) "0").

(** What holds of one pass of the quiz loop under a valid source. *)
Definition rightItem (item : Game4.Item) : Prop :=
  Game4.coefA item <> 0 /\
  exists q ans,
    Game4.pushed item = Some q /\
    JS.at_index (Game4.options q) (Game4.answerIndex q) = Some ans /\
    RightAnswer4 (Game4.coefA item) (Game4.coefB item) (Game4.prompt q) ans.

(** Every pushed question whose fields are assigned has an index of a
    listed option as its [answerIndex]; this needs no assumption on the
    draws. *)
Definition indexedSlot (slot : option Game4.Question) : Prop :=
  match slot with
  | Some q => 0 <= Game4.answerIndex q
  | None => True
  end.

(** What holds in every state the quiz can reach: ten questions, an
    index inside the list, a score that is a multiple of ten and at most
    ten per question answered so far, and at most one pending
    [nextQuestion], scheduled for the current question. *)
Definition QuizInvariant (s : Game4.State) : Prop :=
  length (Game4.questions s) = 10%nat /\
  Forall indexedSlot (Game4.questions s) /\
  (Game4.currentQIndex s < 10)%nat /\
  Game4.score s mod 10 = 0 /\
  0 <= Game4.score s <=
    10 * (Z.of_nat (Game4.currentQIndex s) + (if Game4.isAnswered s then 1 else 0)) /\
  match Game4.isAnswered s, Game4.isGameOver s with
  | false, false => Game4.nextTimers s = []
  | true, false =>
      exists seen, Game4.nextTimers s = [Game4.mkClosure (Game4.currentQIndex s) 10 seen]
  | true, true => Game4.nextTimers s = []
  | false, true => False
  end.

(** The index that a correct answer to the current question carries. *)
Definition correctOption (s : Game4.State) : option Z :=
  match nth_error (Game4.questions s) (Game4.currentQIndex s) with
  | Some (Some q) => Some (Game4.answerIndex q)
  | _ => None
  end.

(** The state in which question number [i] (from 0) is put to a student
    who has answered every earlier question correctly. *)
Definition RoundStart (i : nat) (s : Game4.State) : Prop :=
  QuizInvariant s /\
  Forall (fun slot => slot <> None) (Game4.questions s) /\
  Game4.currentQIndex s = i /\
  Game4.score s = 10 * Z.of_nat i /\
  Game4.isAnswered s = false /\
  Game4.timeLeft s = 15.

(** A run of events, one after the other. *)
Fixpoint quizRun (rs : Random.source) (key : option string)
    (events : list Game4.Event) (s : Game4.State) : option Game4.State :=
  match events with
  | [] => Some s
  | e :: rest =>
      match Game4.step rs key e s with
      | Some s' => quizRun rs key rest s'
      | None => None
      end
  end.

(** The student lets [delay] seconds pass, clicks the correct option,
    and the scheduled [nextQuestion] fires. *)
Definition correctRound (rs : Random.source) (key : option string)
    (delay : nat) (s : Game4.State) : option Game4.State :=
  match quizRun rs key (repeat Game4.Tick delay) s with
  | Some waited =>
      match correctOption waited with
      | Some optionIndex => Game4.answerAndAdvance rs key optionIndex waited
      | None => None
      end
  | None => None
  end.

(** One correct round per entry of [delays]. *)
Fixpoint playCorrectly (rs : Random.source) (key : option string)
    (delays : list nat) (s : Game4.State) : option Game4.State :=
  match delays with
  | [] => Some s
  | delay :: rest =>
      match correctRound rs key delay s with
      | Some s' => playCorrectly rs key rest s'
      | None => None
      end
  end.

(** No string occurs twice in the list. *)
Fixpoint distinctb (l : list string) : bool :=
  match l with
  | [] => true
  | x :: rest => negb (existsb (String.eqb x) rest) && distinctb rest
  end.

(** The list holds no duplicate and holds [answer] exactly once. *)
Definition answerOnce (options : list string) (answer : string) : bool :=
  distinctb options && (count_occ string_dec options answer =? 1)%nat.

(** The values [(Math.floor(Math.random() * 5) + 1) * (+1 or -1)] can
    take. *)
Definition magnitudes5 : list Z := [-5; -4; -3; -2; -1; 1; 2; 3; 4; 5].

(** ** Concrete random sources *)

(** A valid stream with varied draws. *)
Definition sampleSource : source :=
  fun i => (Z.of_nat i * 2718281828459045 + 3141592653589793) mod two53.

(** [Math.random()] returns 0 at every call. *)
Definition zeroSource : source := fun _ => 0.

(** Draws 0, 0, 0.5, 0.25, 0, 0, ...: the first quiz question has
    [a = 1], [b = 0] and asks for the y-intercept. *)
Definition yInterceptSource : source :=
  fun i => match i with
           | 2%nat => two52
           | 3%nat => 2251799813685248
           | _ => 0
           end.

(** Draws 0, 0, 0, 0.5, 0, 0, ...: the question of game 2 has
    [a = b = 1] and asks for the y-intercept. *)
Definition equalCoefficientsSource : source :=
  fun i => match i with
           | 3%nat => two52
           | _ => 0
           end.

(** One draw per comparator call: above one half where the pattern
    says [true], below where it says [false]. *)
Definition signSource (pattern : list bool) : source :=
  fun i => if nth i pattern false then two53 - 1 else 0.










End Spec.

(* ================================================================== *)
(** * Proof tactics *)
(* ================================================================== *)

(** Runs one step of a generator: binds and draws are computed, the
    stream being symbolic. *)
Ltac run_rand := unfold Random.bind, Random.ret, Random.Math_random; cbn beta iota zeta.

(** Case analysis on the scrutinee of a [switch] over small numbers. *)
Ltac destruct_switch t :=
  let p := fresh "p" in
  destruct t as [| p | p];
  [ | destruct p as [p | p |];
      [ destruct p as [p | p |]; [destruct p | destruct p |]
      | destruct p as [p | p |]; [destruct p | destruct p |]
      | ]
    | ].

(** Reduces the field reads of a quiz state written out as a record. *)
Ltac quiz_fields :=
  unfold Spec.QuizInvariant, Game4.setNextTimers, Game4.setTimeLeft;
  cbn [Game4.questions Game4.currentQIndex Game4.score Game4.timeLeft
       Game4.isAnswered Game4.selectedOption Game4.isGameOver Game4.hook
       Game4.inflight Game4.cursor Game4.nextTimers Game4.seenIndex
       Game4.seenLength Game4.seenScore app].

(* ================================================================== *)
(** * Vocabulary of the further properties *)
(* ================================================================== *)

Module Extra.

(** The number a run of decimal digits denotes, read after the digits
    that gave [acc]. *)
Fixpoint digitsValue (d : Decimal.uint) (acc : Z) : Z :=
  match d with
  | Decimal.Nil => acc
  | Decimal.D0 l => digitsValue l (10 * acc + 0)
  | Decimal.D1 l => digitsValue l (10 * acc + 1)
  | Decimal.D2 l => digitsValue l (10 * acc + 2)
  | Decimal.D3 l => digitsValue l (10 * acc + 3)
  | Decimal.D4 l => digitsValue l (10 * acc + 4)
  | Decimal.D5 l => digitsValue l (10 * acc + 5)
  | Decimal.D6 l => digitsValue l (10 * acc + 6)
  | Decimal.D7 l => digitsValue l (10 * acc + 7)
  | Decimal.D8 l => digitsValue l (10 * acc + 8)
  | Decimal.D9 l => digitsValue l (10 * acc + 9)
  end.

(** The text does not go on with a digit: it is empty or starts with
    another character. *)
Definition endsNumber (rest : string) : bool :=
  match rest with
  | EmptyString => true
  | String c _ => match JS.digitValue c with Some _ => false | None => true end
  end.




(** A run of events of game 1, one after the other; [None] when one of
    them cannot occur. *)
Fixpoint game1Run (rs : Random.source) (key : option string)
    (events : list Game1.Event) (s : Game1.State) : option Game1.State :=
  match events with
  | [] => Some s
  | e :: rest =>
      match Game1.step rs key e s with
      | Some s' => game1Run rs key rest s'
      | None => None
      end
  end.

(** What holds in every state game 1 can reach: a question is present,
    the time shown is within 0 and 15, time 0 means the question is
    locked, and a [setTimeout(generateQuestion, 3000)] is pending exactly
    when the question is locked. *)
Definition Game1Invariant (s : Game1.State) : Prop :=
  (exists q, Game1.question s = Some q) /\
  0 <= Game1.timeLeft s <= 15 /\
  (Game1.timeLeft s = 0 -> Game1.isAnswered s = true) /\
  Game1.nextTimers s = (if Game1.isAnswered s then 1 else 0)%nat.


(** The three shapes a question of game 2 takes, with what the
    generator guarantees of each: the four options of an intercept
    question before the shuffle, the range of the intercept and of the
    point that is checked. *)
Inductive Game2Shape (q : Game2.Question) : Prop :=
| shapeYIntercept :
    Game2.promptText q = Some Game2.promptYIntercept ->
    Game2.answer q = Some (Game2.point "0" (JS.toString (Game2.b q))) ->
    Permutation
      [Game2.point "0" (JS.toString (Game2.b q));
       Game2.point (JS.toString (Game2.b q)) "0";
       Game2.point "0" (JS.toString (Game2.a q));
       Game2.point (JS.toString (Game2.a q)) "0"]
      (Game2.options q) ->
    Game2Shape q
| shapeXIntercept x0 :
    Game2.a q * x0 + Game2.b q = 0 -> -5 <= x0 <= 5 -> x0 <> 0 ->
    Game2.promptText q = Some Game2.promptXIntercept ->
    Game2.answer q = Some (Game2.point (JS.toString x0) "0") ->
    Permutation
      [Game2.point (JS.toString x0) "0";
       Game2.point "0" (JS.toString (Game2.b q));
       Game2.point "0" (JS.toString x0);
       Game2.point "0" (JS.toString (Game2.a q))]
      (Game2.options q) ->
    Game2Shape q
| shapePoint x pointY :
    -5 <= x <= 5 ->
    -2 <= pointY - (Game2.a q * x + Game2.b q) <= 2 ->
    Game2.promptText q = Some (Game2.promptPoint x pointY) ->
    Game2.answer q
    = Some (if pointY =? Game2.a q * x + Game2.b q then "Có" else "Không") ->
    Game2.options q = ["Có"; "Không"] ->
    Game2Shape q.

(** What holds of every question game 2 generates under a valid
    source. *)
Definition Game2Generated (q : Game2.Question) : Prop :=
  Game2.a q <> 0 /\ -5 <= Game2.a q <= 5 /\
  (exists m, 1 <= m <= 5 /\
             (Game2.b q = Game2.a q * m \/ Game2.b q = - (Game2.a q * m))) /\
  Game2Shape q.

(** What holds in every state game 2 can reach under a valid source. *)
Definition Game2Invariant (s : Game2.State) : Prop :=
  (exists q, Game2.question s = Some q /\ Game2Generated q) /\
  Game2.nextTimers s = (if Game2.isAnswered s then 1 else 0)%nat.

(** The chart plots the point [(x, y)]: [x] is a label of the x axis
    and [y] the value of the dataset at the same position. *)
Definition plotted (c : Panel.ChartData) (x y : Z) : Prop :=
  exists i, nth_error (Panel.labels c) i = Some x /\
            nth_error (Panel.data c) i = Some y.

(** The answer to a question of game 2, as read off the points the
    chart plots. *)
Inductive ChartAnswer2 (c : Panel.ChartData) : string -> string -> Prop :=
| readYIntercept y :
    plotted c 0 y ->
    ChartAnswer2 c Game2.promptYIntercept (Game2.point "0" (JS.toString y))
| readXIntercept x :
    plotted c x 0 ->
    ChartAnswer2 c Game2.promptXIntercept (Game2.point (JS.toString x) "0")
| readPointOn x y :
    plotted c x y -> ChartAnswer2 c (Game2.promptPoint x y) "Có"
| readPointOff x y pointY :
    plotted c x y -> pointY <> y ->
    ChartAnswer2 c (Game2.promptPoint x pointY) "Không".

(** What holds in every state game 3 can reach: the question is one
    the generator returns, and a next-question callback is pending
    exactly when the question is locked. *)
Definition Game3Invariant (rs : Random.source) (s : Game3.State) : Prop :=
  (exists n, Game3.question s = Some (fst (Game3.newQuestion rs n))) /\
  Game3.nextTimers s = (if Game3.isAnswered s then 1 else 0)%nat /\
  (Game3.isAnswered s = false -> Game3.selectedOption s = None).

(** The answer to a question of game 3, as read off the two points the
    chart plots at x = 0 and x = 1. *)
Inductive ChartAnswer3 (c : Panel.ChartData) : string -> string -> Prop :=
| readEquation y0 y1 :
    plotted c 0 y0 -> plotted c 1 y1 ->
    ChartAnswer3 c Game3.promptEquation (Game3.formatEquation (y1 - y0) y0)
| readIncreasing y0 y1 :
    plotted c 0 y0 -> plotted c 1 y1 -> y0 < y1 ->
    ChartAnswer3 c Game3.promptMonotone "Đồng biến"
| readDecreasing y0 y1 :
    plotted c 0 y0 -> plotted c 1 y1 -> y1 < y0 ->
    ChartAnswer3 c Game3.promptMonotone "Nghịch biến"
| readSigns y0 y1 signA signB :
    plotted c 0 y0 -> plotted c 1 y1 ->
    Spec.SignOf (y1 - y0) signA -> Spec.SignOf y0 signB ->
    ChartAnswer3 c Game3.promptSigns (Game3.signText signA signB).

(** How many buttons carry the class. *)
Definition marked (class : string) (buttons : list Panel.Button) : nat :=
  count_occ string_dec (map Panel.className buttons) class.

(** ** Playing the quiz *)

(** What a student does with one question of the quiz: wait [delay]
    seconds and click the option at [optionIndex], or let the countdown
    run out. *)
Inductive Move :=
| Click (delay : nat) (optionIndex : Z)
| LetTimeout.

(** A click comes before the countdown ends. *)
Definition inTime (m : Move) : Prop :=
  match m with
  | Click delay _ => (delay < 15)%nat
  | LetTimeout => True
  end.

(** One round: the move, then the scheduled [nextQuestion]. *)
Definition playRound (rs : Random.source) (key : option string) (m : Move)
    (s : Game4.State) : option Game4.State :=
  match m with
  | Click delay optionIndex =>
      match Spec.quizRun rs key (repeat Game4.Tick delay) s with
      | Some waited => Game4.answerAndAdvance rs key optionIndex waited
      | None => None
      end
  | LetTimeout =>
      match Spec.quizRun rs key
              (repeat Game4.Tick (Z.to_nat (Game4.timeLeft s))) s with
      | Some expired => Game4.step rs key Game4.NextTimer expired
      | None => None
      end
  end.

(** One round per move. *)
Fixpoint play (rs : Random.source) (key : option string) (moves : list Move)
    (s : Game4.State) : option Game4.State :=
  match moves with
  | [] => Some s
  | m :: rest =>
      match playRound rs key m s with
      | Some s' => play rs key rest s'
      | None => None
      end
  end.

(** The move is a click on the index the question records as correct. *)
Definition judgedCorrect (slot : option Game4.Question) (m : Move) : bool :=
  match m, slot with
  | Click _ optionIndex, Some q => optionIndex =? Game4.answerIndex q
  | _, _ => false
  end.

(** The number of moves that are clicks on the recorded index of their
    question, the moves being matched with the questions in order. *)
Fixpoint correctMoves (questions : list (option Game4.Question))
    (moves : list Move) : Z :=
  match questions, moves with
  | slot :: questions', m :: moves' =>
      (if judgedCorrect slot m then 1 else 0) + correctMoves questions' moves'
  | _, _ => 0
  end.

(** The state in which question number [i] (from 0) is put to a student
    who has [k] correct answers so far. *)
Definition RoundAt (i : nat) (k : Z) (s : Game4.State) : Prop :=
  Spec.QuizInvariant s /\
  Game4.currentQIndex s = i /\
  Game4.score s = 10 * k /\
  Game4.isAnswered s = false /\
  Game4.timeLeft s = 15.

(** The questions of the state are a quiz the generator returns. *)
Definition QuizFrom (rs : Random.source) (s : Game4.State) : Prop :=
  exists n, Game4.questions s = fst (Game4.generateQuiz rs n).

(** The five shapes a question of the quiz takes, for the coefficients
    [a] and [b] its pass of the loop ends with: the options before the
    shuffle, and how the recorded index is found. *)
Inductive QuizShape (a b : Z) (q : Game4.Question) : Prop :=
| quizMonotone :
    Game4.prompt q = Game4.promptMonotone a b ->
    Game4.options q = ["Đồng biến"; "Nghịch biến"] ->
    Game4.answerIndex q = (if a >? 0 then 0 else 1) ->
    QuizShape a b q
| quizYIntercept :
    Game4.prompt q = Game4.promptYIntercept a b ->
    Permutation
      [Game4.point "0" (JS.toString b); Game4.point (JS.toString b) "0";
       Game4.point "0" (JS.toString a); Game4.point "0" (JS.toString (- b))]
      (Game4.options q) ->
    Game4.answerIndex q
    = JS.indexOf (Game4.options q) (Game4.point "0" (JS.toString b)) ->
    QuizShape a b q
| quizPoint x pointY :
    Game4.prompt q = Game4.promptPoint a b x pointY ->
    Game4.options q = ["Có"; "Không"] ->
    Game4.answerIndex q = (if pointY =? a * x + b then 0 else 1) ->
    QuizShape a b q
| quizParallel b_diff :
    b_diff <> b ->
    Game4.prompt q = Game4.promptParallel a b ->
    Permutation
      [Game4.line a b_diff b_diff; Game4.line (- a) b b; Game4.line a b b;
       Game4.line (a + 1) b b_diff]
      (Game4.options q) ->
    Game4.answerIndex q
    = JS.indexOf (Game4.options q) (Game4.line a b_diff b_diff) ->
    QuizShape a b q
| quizXIntercept x0 :
    a * x0 + b = 0 -> x0 <> 0 -> b <> 0 ->
    Game4.prompt q = Game4.promptXIntercept a b ->
    Permutation
      [Game4.point (JS.toString x0) "0"; Game4.point "0" (JS.toString b);
       Game4.point "0" (JS.toString x0); Game4.point (JS.toString b) "0"]
      (Game4.options q) ->
    Game4.answerIndex q
    = JS.indexOf (Game4.options q) (Game4.point (JS.toString x0) "0") ->
    QuizShape a b q.

(** What holds of every pass of the quiz loop under a valid source. *)
Definition GeneratedItem (item : Game4.Item) : Prop :=
  Game4.coefA item <> 0 /\
  exists q,
    Game4.pushed item = Some q /\
    QuizShape (Game4.coefA item) (Game4.coefB item) q.

(** How often the quiz lists the text of the right answer: three times
    for a y-intercept question with [b = 0], twice for one with
    [a = b], twice for an x-intercept question with [a = -1], once
    otherwise. *)
Definition quizCopies (a b : Z) (q : Game4.Question) : nat :=
  if String.eqb (Game4.prompt q) (Game4.promptYIntercept a b) then
    (if b =? 0 then 3%nat else if a =? b then 2%nat else 1%nat)
  else if String.eqb (Game4.prompt q) (Game4.promptXIntercept a b) then
    (if a =? -1 then 2%nat else 1%nat)
  else 1%nat.

(** Whether the options of a question of game 2 are pairwise distinct
    texts, decided from its kind and its coefficients. *)
Definition game2Distinct (q : Game2.Question) : bool :=
  if Panel.sameString Game2.promptYIntercept (Game2.promptText q) then
    negb (Game2.a q =? Game2.b q)
  else if Panel.sameString Game2.promptXIntercept (Game2.promptText q) then
    negb (Game2.a q =? Game2.b q) && negb (Game2.a q =? -1)
    && negb (Game2.a q * Game2.a q + Game2.b q =? 0)
  else true.

(** The same for a question of the quiz about the line [y = ax + b]. *)
Definition quizDistinct (a b : Z) (q : Game4.Question) : bool :=
  if String.eqb (Game4.prompt q) (Game4.promptYIntercept a b) then
    negb (b =? 0) && negb (a =? b) && negb (a =? - b)
  else if String.eqb (Game4.prompt q) (Game4.promptXIntercept a b) then
    negb (a =? -1)
  else true.

(** ** The menu *)

(** What [App] shows in a state the menu can lead to: the menu itself,
    or the host of the game of one of the cards. *)
Definition Routed (s : App.State) : Prop :=
  match App.render s with
  | App.MainMenu cards => s = None /\ cards = App.games
  | App.Host host =>
      exists game component shown,
        In game App.games /\ s = Some (App.id game) /\
        App.ownProperty App.gameComponents (App.id game) = Some component /\
        host = App.mkHostView (App.Own shown) (App.Game component) /\
        (shown = App.title game <-> App.id game <> "game3")
  end.

End Extra.

(* ================================================================== *)
(** * Facts about the random source and the shuffle *)
(* ================================================================== *)

Lemma some_injective {A} (x y : A) : Some x = Some y -> x = y.
Proof. intros H. injection H as H. exact H. Qed.

Lemma roundDouble_small n : n < Random.two53 -> Random.roundDouble n = n.
Proof.
  intros H. unfold Random.roundDouble.
  destruct (Z.ltb_spec n Random.two53) as [_ | Hge]; [reflexivity | lia].
Qed.

(** Above [2^53] the rounded numerator is a multiple of the unit in the
    last place, at most half a unit away from the exact one, and half a
    unit is [2^(log2 n - 53)]. *)
Lemma roundDouble_near n :
  Random.two53 <= n ->
  exists half,
    0 < half /\ half * Random.two53 <= n /\
    n - half <= Random.roundDouble n <= n + half.
Proof.
  intros Hge. unfold Random.roundDouble.
  destruct (Z.ltb_spec n Random.two53) as [Hlt | _]; [lia |].
  assert (Hpos : 0 < n) by (unfold Random.two53 in Hge; lia).
  assert (Hlog : 53 <= Z.log2 n).
  { apply Z.log2_le_pow2; [exact Hpos | exact Hge]. }
  destruct (Z.log2_spec n Hpos) as [Hlow _].
  set (e := Z.log2 n - 52) in *.
  assert (Hunit : 2 ^ e = 2 * 2 ^ (e - 1)).
  { replace e with (Z.succ (e - 1)) at 1 by lia.
    apply Z.pow_succ_r. unfold e. lia. }
  assert (Hhalf : 0 < 2 ^ (e - 1)) by (apply Z.pow_pos_nonneg; unfold e; lia).
  assert (Hsplit : 2 ^ Z.log2 n = 2 ^ (e - 1) * Random.two53).
  { replace (Z.log2 n) with ((e - 1) + 53) at 1 by (unfold e; lia).
    rewrite Z.pow_add_r by (unfold e; lia). reflexivity. }
  exists (2 ^ (e - 1)).
  split; [exact Hhalf |]. split; [lia |].
  pose proof (Z.div_mod n (2 ^ e) ltac:(lia)) as Hdm.
  pose proof (Z.mod_pos_bound n (2 ^ e) ltac:(lia)) as Hrem.
  set (q := n / 2 ^ e) in *. set (rem := n mod 2 ^ e) in *.
  set (half := 2 ^ (e - 1)) in *.
  rewrite Hunit in *.
  destruct (Z.ltb_spec rem half) as [Hr | Hr].
  - lia.
  - destruct (Z.ltb_spec half rem) as [Hr' | Hr'].
    + lia.
    + destruct (Z.even q); lia.
Qed.

Lemma floorTimes_range r k :
  Random.valid_draw r -> 0 < k -> 0 <= Random.floorTimes r k < k.
Proof.
  unfold Random.valid_draw, Random.floorTimes.
  intros [Hlo Hhi] Hk.
  assert (Hn : 0 <= r * k <= k * Random.two53 - k) by (unfold Random.two53 in *; nia).
  assert (Htwo : 0 < Random.two53) by reflexivity.
  destruct (Z.lt_ge_cases (r * k) Random.two53) as [Hsmall | Hbig].
  - rewrite roundDouble_small by exact Hsmall. split.
    + apply Z.div_pos; lia.
    + apply Z.div_lt_upper_bound; [exact Htwo | nia].
  - destruct (roundDouble_near (r * k) Hbig) as (half & Hhalf & Hle & Hnear).
    unfold Random.two53 in *.
    assert (Hhk : half < k) by nia.
    split.
    + apply Z.div_pos; lia.
    + apply Z.div_lt_upper_bound; lia.
Qed.

Section Determined.
Import Random Spec.

Lemma determined_ret {A} (x : A) : determined (ret x).
Proof. intros rs1 rs2 n. simpl. split; [lia | reflexivity]. Qed.

Lemma determined_Math_random : determined Math_random.
Proof.
  intros rs1 rs2 n. unfold Math_random. simpl. split; [lia |].
  intros H. rewrite (H n); [reflexivity | lia].
Qed.

Lemma determined_bind {A B} (m : Rand A) (k : A -> Rand B) :
  determined m -> (forall x, determined (k x)) -> determined (bind m k).
Proof.
  intros Hm Hk rs1 rs2 n. unfold bind.
  destruct (Hm rs1 rs2 n) as [Hle Hsame].
  destruct (m rs1 n) as [x n1] eqn:E1. simpl in Hle, Hsame.
  destruct (Hk x rs1 rs2 n1) as [Hle' Hsame'].
  split.
  - lia.
  - intros Hag.
    rewrite Hsame by (intros i Hi; apply Hag; lia).
    apply Hsame'. intros i Hi. apply Hag. lia.
Qed.

Lemma determined_comparefn : determined Helpers.comparefn.
Proof.
  apply determined_bind; [apply determined_Math_random |].
  intros r. apply determined_ret.
Qed.

Lemma determined_extendRun isDescending remaining runLength :
  determined (Helpers.extendRun isDescending remaining runLength).
Proof.
  revert runLength. induction remaining as [| remaining' IH]; intros runLength; simpl.
  - apply determined_ret.
  - apply determined_bind; [apply determined_comparefn |].
    intros negative. destruct (Bool.eqb negative isDescending).
    + apply IH.
    + apply determined_ret.
Qed.

Lemma determined_countAndMakeRun {A} (array : list A) :
  determined (Helpers.countAndMakeRun array).
Proof.
  apply determined_bind; [apply determined_comparefn |].
  intros isDescending.
  apply determined_bind; [apply determined_extendRun |].
  intros runLength. apply determined_ret.
Qed.

Lemma determined_binarySearch fuel left right :
  determined (Helpers.binarySearch fuel left right).
Proof.
  revert left right. induction fuel as [| fuel' IH]; intros left right; simpl.
  - apply determined_ret.
  - destruct (left <? right)%nat.
    + apply determined_bind; [apply determined_comparefn |].
      intros negative. destruct negative; apply IH.
    + apply determined_ret.
Qed.

Lemma determined_binaryInsertionSort {A} (todo sorted : list A) :
  determined (Helpers.binaryInsertionSort sorted todo).
Proof.
  revert sorted. induction todo as [| pivot todo' IH]; intros sorted; simpl.
  - apply determined_ret.
  - apply determined_bind; [apply determined_binarySearch | intros; apply IH].
Qed.

Lemma determined_sort {A} (array : list A) :
  determined (Helpers.sort array).
Proof.
  unfold Helpers.sort. destruct (length array <? 2)%nat.
  - apply determined_ret.
  - apply determined_bind; [apply determined_countAndMakeRun |].
    intros [array' runLength]. apply determined_binaryInsertionSort.
Qed.

Lemma determined_shuffleArray {A} (array : list A) :
  determined (Helpers.shuffleArray array).
Proof. apply determined_sort. Qed.

End Determined.

Section ShufflePermutation.
Import Random.

Lemma countAndMakeRun_Permutation {A} (array : list A) rs n :
  Permutation array (fst (fst (Helpers.countAndMakeRun array rs n))).
Proof.
  unfold Helpers.countAndMakeRun, bind.
  destruct (Helpers.comparefn rs n) as [isDescending n1].
  destruct (Helpers.extendRun isDescending (length array - 2) 2 rs n1)
    as [runLength n2].
  cbn [ret fst]. destruct isDescending.
  - rewrite <- (firstn_skipn runLength array) at 1.
    apply Permutation_app_tail, Permutation_rev.
  - apply Permutation_refl.
Qed.

Lemma binaryInsertionSort_Permutation {A} (todo sorted : list A) rs n :
  Permutation (sorted ++ todo)
              (fst (Helpers.binaryInsertionSort sorted todo rs n)).
Proof.
  revert sorted n. induction todo as [| pivot todo' IH]; intros sorted n; simpl.
  - rewrite app_nil_r. apply Permutation_refl.
  - unfold bind.
    destruct (Helpers.binarySearch (length sorted) 0 (length sorted) rs n)
      as [left n1].
    eapply Permutation_trans; [| apply IH].
    rewrite <- (firstn_skipn left sorted) at 1.
    rewrite <- !app_assoc. apply Permutation_app_head.
    cbn [app]. symmetry. apply Permutation_middle.
Qed.

Lemma sort_Permutation {A} (array : list A) rs n :
  Permutation array (fst (Helpers.sort array rs n)).
Proof.
  unfold Helpers.sort. destruct (length array <? 2)%nat.
  - apply Permutation_refl.
  - unfold bind.
    pose proof (countAndMakeRun_Permutation array rs n) as Hrun.
    destruct (Helpers.countAndMakeRun array rs n) as [[array' runLength] n1].
    cbn [fst] in Hrun.
    eapply Permutation_trans; [exact Hrun |].
    rewrite <- (firstn_skipn runLength array') at 1.
    apply binaryInsertionSort_Permutation.
Qed.

(** The binary search has ended when its fuel is spent: more fuel than
    the length of the interval changes nothing. *)
Lemma binarySearch_fuel fuel extra left right rs n :
  (right - left <= fuel)%nat ->
  Helpers.binarySearch (fuel + extra) left right rs n
  = Helpers.binarySearch fuel left right rs n.
Proof.
  revert left right n. induction fuel as [| fuel' IH]; intros left right n Hle.
  - cbn [Nat.add Helpers.binarySearch].
    destruct extra as [| extra']; [reflexivity |].
    cbn [Helpers.binarySearch].
    destruct (Nat.ltb_spec left right) as [Hlt | _]; [lia | reflexivity].
  - cbn [Nat.add Helpers.binarySearch].
    destruct (Nat.ltb_spec left right) as [Hlt | _]; [| reflexivity].
    unfold bind.
    destruct (Helpers.comparefn rs n) as [negative n1].
    assert (Hmid : ((right - left) / 2 < S fuel')%nat).
    { apply Nat.Div0.div_lt_upper_bound. lia. }
    destruct negative; apply IH; lia.
Qed.

(** The sort at work: one draw below one half reverses two elements;
    draws that stay below one half make the whole array one descending
    run, which is reversed after two (three) comparator calls; a run of
    two followed by a binary insertion takes four calls. *)
Lemma shuffleArray_examples :
  Helpers.shuffleArray ["a"; "b"] Spec.zeroSource O = (["b"; "a"], 1%nat) /\
  Helpers.shuffleArray ["a"; "b"; "c"] Spec.zeroSource O
  = (["c"; "b"; "a"], 2%nat) /\
  Helpers.shuffleArray ["a"; "b"; "c"] (Spec.signSource [false; true; false]) O
  = (["c"; "b"; "a"], 4%nat) /\
  Helpers.shuffleArray ["a"; "b"; "c"] (Spec.signSource [true; false; true]) O
  = (["a"; "b"; "c"], 3%nat) /\
  Helpers.shuffleArray ["a"; "b"; "c"; "d"] Spec.zeroSource O
  = (["d"; "c"; "b"; "a"], 3%nat).
Proof. repeat split; vm_compute; reflexivity. Qed.

End ShufflePermutation.

(* ================================================================== *)
(** * Facts about the question generators *)
(* ================================================================== *)


(** The three values [Math.floor(Math.random() * 3)] can take. *)
Lemma floorTimes_3_cases r :
  Random.valid_draw r ->
  Random.floorTimes r 3 = 0 \/ Random.floorTimes r 3 = 1 \/ Random.floorTimes r 3 = 2.
Proof. intros H. pose proof (floorTimes_range r 3 H). lia. Qed.

Lemma floorTimes_5_cases r :
  Random.valid_draw r ->
  Random.floorTimes r 5 = 0 \/ Random.floorTimes r 5 = 1 \/ Random.floorTimes r 5 = 2 \/
  Random.floorTimes r 5 = 3 \/ Random.floorTimes r 5 = 4.
Proof. intros H. pose proof (floorTimes_range r 5 H). lia. Qed.

Lemma shuffleArray_perm {A} (array : list A) rs n :
  Permutation array (fst (Helpers.shuffleArray array rs n)).
Proof. apply sort_Permutation. Qed.

Lemma shuffleArray_In {A} (array : list A) rs n x :
  In x array -> In x (fst (Helpers.shuffleArray array rs n)).
Proof. apply Permutation_in, shuffleArray_perm. Qed.

Section Game1Facts.
Import Random Game1.

Lemma game1_question_value rs n :
  let q := fst (newQuestion rs n) in y q = a q * x q + b q.
Proof. reflexivity. Qed.

Lemma game1_question_ranges rs n :
  valid_source rs ->
  let q := fst (newQuestion rs n) in
  a q <> 0 /\ -9 <= a q <= 9 /\ -9 <= b q <= 9 /\ -5 <= x q <= 5.
Proof.
  intros Hrs. unfold newQuestion. run_rand. simpl.
  pose proof (floorTimes_range (rs n) 19 (Hrs n)).
  pose proof (floorTimes_range (rs (S n)) 19 (Hrs (S n))).
  pose proof (floorTimes_range (rs (S (S n))) 11 (Hrs (S (S n)))).
  unfold JS.orElse.
  destruct (Z.eqb_spec (floorTimes (rs n) 19 - 9) 0); lia.
Qed.

End Game1Facts.

Section Game2Facts.
Import Random Game2.

(** Under a valid source the coefficient loop ends after one pass: the
    slope is a nonzero integer of magnitude at most 5 and [b] is a
    nonzero multiple of it. *)
Lemma drawCoefficients_spec rs fuel n :
  valid_source rs ->
  exists a b m,
    drawCoefficients (S fuel) rs n = (Some (a, b), S (S (S (S n)))) /\
    a <> 0 /\ -5 <= a <= 5 /\ 1 <= m <= 5 /\ (b = a * m \/ b = - (a * m)).
Proof.
  intros Hrs. simpl. run_rand.
  pose proof (floorTimes_range (rs n) 5 (Hrs n)) as H1.
  pose proof (floorTimes_range (rs (S (S n))) 5 (Hrs (S (S n)))) as H3.
  set (a := (floorTimes (rs n) 5 + 1) * (if ltHalf (rs (S n)) then 1 else -1)).
  set (m := floorTimes (rs (S (S n))) 5 + 1).
  assert (Ha : a <> 0 /\ -5 <= a <= 5) by (subst a; destruct (ltHalf (rs (S n))); lia).
  set (b := if ltHalf (rs (S (S (S n)))) then - (a * m) else a * m).
  assert (Hb : b <> 0) by (subst b; destruct (ltHalf (rs (S (S (S n))))); nia).
  exists a, b, m.
  destruct (Z.eqb_spec b 0) as [E | _]; [contradiction |].
  repeat split; try tauto; try lia.
  subst b. destruct (ltHalf (rs (S (S (S n))))); auto.
Qed.

(** [-b/a] is an integer and solves [ax + b = 0] when [b] is a multiple
    of the nonzero [a]. *)
Lemma divide_intercept a b m :
  a <> 0 -> b = a * m \/ b = - (a * m) ->
  a * JS.divide (- b) a + b = 0.
Proof.
  intros Ha Hb. unfold JS.divide.
  assert (E : exists k, - b = k * a) by (destruct Hb; [exists (- m) | exists m]; lia).
  destruct E as [k E]. rewrite E, Z.div_mul by exact Ha. lia.
Qed.

Lemma buildQuestion_right rs n a0 b0 m :
  valid_source rs -> a0 <> 0 -> b0 = a0 * m \/ b0 = - (a0 * m) ->
  let q := fst (buildQuestion a0 b0 rs n) in
  a q = a0 /\ b q = b0 /\
  exists p ans, promptText q = Some p /\ answer q = Some ans /\
                Spec.RightAnswer2 a0 b0 p ans.
Proof.
  intros Hrs Ha Hb. unfold buildQuestion. run_rand.
  destruct (floorTimes_3_cases (rs n) (Hrs n)) as [E | [E | E]]; rewrite E.
  - destruct (Helpers.shuffleArray _ rs (S n)) as [opts n']. simpl.
    repeat split. eexists _, _. repeat split.
    apply Spec.yIntercept2. lia.
  - destruct (Helpers.shuffleArray _ rs (S n)) as [opts n']. simpl.
    repeat split. eexists _, _. repeat split.
    apply Spec.xIntercept2. apply (divide_intercept a0 b0 m); assumption.
  - destruct (ltHalf (rs (S (S n)))); simpl.
    + repeat split. eexists _, _. repeat split.
      apply Spec.pointOn2. reflexivity.
    + repeat split. eexists _, _. repeat split.
      apply Spec.pointOff2.
      pose proof (floorTimes_range (rs (S (S (S (S n))))) 2 (Hrs _)).
      destruct (ltHalf (rs (S (S (S n))))); lia.
Qed.

Lemma game2_newQuestion_right rs fuel n :
  valid_source rs ->
  exists q, fst (newQuestion (S fuel) rs n) = Some q /\
    a q <> 0 /\
    (exists m, b q = a q * m \/ b q = - (a q * m)) /\
    exists p ans, promptText q = Some p /\ answer q = Some ans /\
                  Spec.RightAnswer2 (a q) (b q) p ans.
Proof.
  intros Hrs. unfold newQuestion, bind.
  destruct (drawCoefficients_spec rs fuel n Hrs) as (a0 & b0 & m & E & Ha & _ & _ & Hb).
  rewrite E.
  pose proof (buildQuestion_right rs (S (S (S (S n)))) a0 b0 m Hrs Ha Hb) as H.
  destruct (buildQuestion a0 b0 rs (S (S (S (S n))))) as [q n']. simpl in *.
  destruct H as (Ea & Eb & H). exists q. rewrite Ea, Eb.
  split; [reflexivity |]. split; [exact Ha |]. split; [exists m; exact Hb | exact H].
Qed.

End Game2Facts.

Section IndexOf.

Lemma indexOfFrom_found x array :
  In x array ->
  forall i, 0 <= i ->
    i <= JS.indexOfFrom i x array < i + Z.of_nat (length array) /\
    nth_error array (Z.to_nat (JS.indexOfFrom i x array - i)) = Some x.
Proof.
  induction array as [| y rest IH]; intros Hin i Hi; [destruct Hin |].
  simpl JS.indexOfFrom. destruct (String.eqb_spec y x) as [-> | Hne].
  - rewrite Z.sub_diag. simpl. split; [lia | reflexivity].
  - destruct Hin as [E | Hin]; [contradiction |].
    destruct (IH Hin (i + 1)) as [Hrange Hnth]; [lia |].
    split; [simpl length; lia |].
    replace (Z.to_nat (JS.indexOfFrom (i + 1) x rest - i))
      with (S (Z.to_nat (JS.indexOfFrom (i + 1) x rest - (i + 1)))) by lia.
    exact Hnth.
Qed.

Lemma indexOf_found x array :
  In x array ->
  0 <= JS.indexOf array x /\ JS.at_index array (JS.indexOf array x) = Some x.
Proof.
  intros Hin. destruct (indexOfFrom_found x array Hin 0) as [Hrange Hnth]; [lia |].
  unfold JS.indexOf, JS.at_index. split; [lia |].
  destruct (Z.ltb_spec (JS.indexOfFrom 0 x array) 0); [lia |].
  rewrite Z.sub_0_r in Hnth. exact Hnth.
Qed.

End IndexOf.

Section Game3Facts.
Import Random Game3.

Lemma game3_newQuestion_right rs n :
  valid_source rs ->
  let q := fst (newQuestion rs n) in
  a q <> 0 /\ b q <> 0 /\ Spec.RightAnswer3 (a q) (b q) (promptText q) (answer q).
Proof.
  intros Hrs. unfold newQuestion. run_rand.
  pose proof (floorTimes_range (rs n) 5 (Hrs n)) as H1.
  pose proof (floorTimes_range (rs (S (S n))) 5 (Hrs (S (S n)))) as H3.
  set (a0 := (floorTimes (rs n) 5 + 1) * (if ltHalf (rs (S n)) then 1 else -1)).
  set (b0 := (floorTimes (rs (S (S n))) 5 + 1) * (if ltHalf (rs (S (S (S n)))) then 1 else -1)).
  assert (Ha : a0 <> 0) by (subst a0; destruct (ltHalf (rs (S n))); lia).
  assert (Hb : b0 <> 0) by (subst b0; destruct (ltHalf (rs (S (S (S n))))); lia).
  destruct (floorTimes_3_cases _ (Hrs (S (S (S (S n)))))) as [E | [E | E]]; rewrite E.
  - destruct (Helpers.shuffleArray _ rs _) as [opts n']. simpl.
    repeat split; try assumption. apply Spec.equation3.
  - simpl. repeat split; try assumption.
    destruct (Z.gtb_spec a0 0); [apply Spec.increasing3 | apply Spec.decreasing3]; lia.
  - destruct (Helpers.shuffleArray _ rs _) as [opts n']. simpl.
    repeat split; try assumption.
    apply Spec.signs3.
    + destruct (Z.gtb_spec a0 0); constructor; lia.
    + destruct (Z.gtb_spec b0 0); constructor; lia.
Qed.

End Game3Facts.

Section Game4Facts.
Import Random Game4.


Lemma newItem_right rs n :
  valid_source rs -> Spec.rightItem (fst (newItem rs n)).
Proof.
  intros Hrs. unfold Spec.rightItem, newItem. run_rand.
  pose proof (floorTimes_range (rs n) 5 (Hrs n)) as H1.
  set (a0 := (floorTimes (rs n) 5 + 1) * (if ltHalf (rs (S n)) then 1 else -1)).
  set (b0 := floorTimes (rs (S (S n))) 9 - 4).
  assert (Ha : a0 <> 0) by (subst a0; destruct (ltHalf (rs (S n))); lia).
  destruct (floorTimes_5_cases _ (Hrs (S (S (S n))))) as [E | [E | [E | [E | E]]]];
    rewrite E.
  - (* monotonicity *)
    simpl. split; [exact Ha |].
    destruct (Z.gtb_spec a0 0);
      (eexists _, _; split; [reflexivity |]; split; [reflexivity |]).
    + apply Spec.increasing4. lia.
    + apply Spec.decreasing4. lia.
  - (* y-intercept *)
    pose proof (shuffleArray_In
      [point "0" (JS.toString b0); point (JS.toString b0) "0";
       point "0" (JS.toString a0); point "0" (JS.toString (- b0))]
      rs (S (S (S (S n)))) (point "0" (JS.toString b0)) (or_introl eq_refl)) as Hin.
    destruct (Helpers.shuffleArray _ rs _) as [opts n']. simpl in *.
    split; [exact Ha |]. eexists _, _. split; [reflexivity |]. simpl.
    split; [apply indexOf_found; exact Hin |].
    apply Spec.yIntercept4. lia.
  - (* point on the line *)
    destruct (ltHalf (rs (S (S (S (S (S n))))))); simpl.
    + split; [exact Ha |]. eexists _, _. repeat split.
      apply Spec.pointOn4. reflexivity.
    + split; [exact Ha |]. eexists _, _. repeat split.
      apply Spec.pointOff4.
      match goal with |- context [if ?c then 1 else -1] => destruct c end; lia.
  - (* parallel line *)
    set (b_diff := JS.orElse _ _).
    pose proof (shuffleArray_In
      [line a0 b_diff b_diff; line (- a0) b0 b0; line a0 b0 b0; line (a0 + 1) b0 b_diff]
      rs (S (S (S (S (S (S n)))))) (line a0 b_diff b_diff) (or_introl eq_refl)) as Hin.
    destruct (Helpers.shuffleArray _ rs _) as [opts n']. simpl in *.
    split; [exact Ha |]. eexists _, _. split; [reflexivity |]. simpl.
    split; [apply indexOf_found; exact Hin |].
    apply Spec.parallel4.
    pose proof (floorTimes_range _ 3 (Hrs (S (S (S (S (S n))))))) as H6.
    subst b_diff. unfold JS.orElse.
    match goal with |- context [?v =? 0] => destruct (Z.eqb_spec v 0) end; [lia |].
    match goal with |- context [if ?c then 1 else -1] => destruct c end; lia.
  - (* x-intercept, coefficients drawn again *)
    pose proof (floorTimes_range _ 4 (Hrs (S (S (S (S n)))))) as H5.
    pose proof (floorTimes_range _ 4 (Hrs (S (S (S (S (S (S n)))))))) as H7.
    set (a1 := (floorTimes (rs (S (S (S (S n))))) 4 + 1) *
               (if ltHalf (rs (S (S (S (S (S n)))))) then 1 else -1)).
    set (m := floorTimes (rs (S (S (S (S (S (S n))))))) 4 + 1).
    set (b1 := a1 * m * (if ltHalf (rs (S (S (S (S (S (S (S n)))))))) then 1 else -1)).
    assert (Ha1 : a1 <> 0)
      by (subst a1; match goal with |- context [if ?c then 1 else -1] => destruct c end; lia).
    assert (Hb1 : b1 = a1 * m \/ b1 = - (a1 * m))
      by (subst b1; match goal with |- context [if ?c then 1 else -1] => destruct c end; lia).
    pose proof (shuffleArray_In
      [point (JS.toString (JS.divide (- b1) a1)) "0"; point "0" (JS.toString b1);
       point "0" (JS.toString (JS.divide (- b1) a1)); point (JS.toString b1) "0"]
      rs (S (S (S (S (S (S (S (S n))))))))
      (point (JS.toString (JS.divide (- b1) a1)) "0") (or_introl eq_refl)) as Hin.
    destruct (Helpers.shuffleArray _ rs _) as [opts n']. simpl in *.
    split; [exact Ha1 |]. eexists _, _. split; [reflexivity |]. simpl.
    split; [apply indexOf_found; exact Hin |].
    apply Spec.xIntercept4. apply (divide_intercept a1 b1 m); assumption.
Qed.

Lemma quizLoop_Forall (P : Item -> Prop) rs :
  (forall n, P (fst (newItem rs n))) ->
  forall count newQuestions n,
    Forall P newQuestions -> Forall P (fst (quizLoop count newQuestions rs n)).
Proof.
  intros HP. induction count as [| count IH]; intros acc n Hacc; simpl.
  - exact Hacc.
  - unfold bind. specialize (HP n).
    destruct (newItem rs n) as [item n']. simpl in HP.
    apply IH. apply Forall_app. split; [exact Hacc | constructor; [exact HP | constructor]].
Qed.

Lemma quizLoop_length rs count :
  forall newQuestions n,
    length (fst (quizLoop count newQuestions rs n)) = (length newQuestions + count)%nat.
Proof.
  induction count as [| count IH]; intros acc n; simpl.
  - lia.
  - unfold bind. destruct (newItem rs n) as [item n'].
    rewrite IH, length_app. simpl. lia.
Qed.

Lemma generateItems_right rs n :
  valid_source rs -> Forall Spec.rightItem (fst (generateItems rs n)).
Proof.
  intros Hrs. apply quizLoop_Forall; [| constructor].
  intros k. apply newItem_right. exact Hrs.
Qed.

End Game4Facts.

Section QuizShape.
Import Random Game4.



Lemma newItem_indexed rs n : Spec.indexedSlot (pushed (fst (newItem rs n))).
Proof.
  unfold newItem. run_rand.
  destruct_switch (floorTimes (rs (S (S (S n)))) 5); cbn beta iota zeta;
    try exact I;
    try (match goal with
         | |- context [Helpers.shuffleArray ?l rs ?k] =>
             let Hin := fresh "Hin" in
             pose proof (shuffleArray_In l rs k _ (or_introl eq_refl)) as Hin;
             destruct (Helpers.shuffleArray l rs k) as [opts n'];
             simpl in *; apply indexOf_found; exact Hin
         end).
  - simpl. destruct (_ >? 0); lia.
  - destruct (ltHalf (rs (S (S (S (S (S n))))))); simpl; lia.
Qed.

Lemma generateQuiz_shape rs n :
  length (fst (generateQuiz rs n)) = 10%nat /\
  Forall Spec.indexedSlot (fst (generateQuiz rs n)).
Proof.
  unfold generateQuiz, generateItems, bind.
  pose proof (quizLoop_length rs 10 [] n) as Hlen.
  pose proof (quizLoop_Forall (fun item => Spec.indexedSlot (pushed item)) rs
                (newItem_indexed rs) 10 [] n (Forall_nil _)) as Hall.
  destruct (quizLoop 10 [] rs n) as [items n']. simpl in *.
  rewrite length_map. split; [exact Hlen |].
  apply Forall_map. exact Hall.
Qed.

End QuizShape.

Section GeneratorsDetermined.
Import Random Spec.

Ltac determined_tac :=
  repeat (cbv beta zeta;
          first [ apply determined_ret
                | apply determined_Math_random
                | apply determined_shuffleArray
                | apply determined_bind; [| intro]
                | match goal with
                  | |- determined (if ?c then _ else _) => destruct c
                  | |- determined (match ?t with _ => _ end) => destruct t
                  end ]).

Lemma determined_game1 : determined Game1.newQuestion.
Proof. unfold Game1.newQuestion. determined_tac. Qed.

Lemma determined_drawCoefficients fuel : determined (Game2.drawCoefficients fuel).
Proof.
  induction fuel as [| fuel IH]; simpl.
  - apply determined_ret.
  - do 4 (apply determined_bind; [apply determined_Math_random | intro]).
    cbv zeta. destruct (_ =? 0); [exact IH | apply determined_ret].
Qed.

Lemma determined_buildQuestion a b : determined (Game2.buildQuestion a b).
Proof. unfold Game2.buildQuestion. determined_tac. Qed.

Lemma determined_game2 fuel : determined (Game2.newQuestion fuel).
Proof.
  unfold Game2.newQuestion.
  apply determined_bind; [apply determined_drawCoefficients |].
  intros [[a b] |]; [| apply determined_ret].
  apply determined_bind; [apply determined_buildQuestion | intro; apply determined_ret].
Qed.

Lemma determined_game3 : determined Game3.newQuestion.
Proof. unfold Game3.newQuestion. determined_tac. Qed.

Lemma determined_newItem : determined Game4.newItem.
Proof. unfold Game4.newItem. determined_tac. Qed.

Lemma determined_quizLoop count :
  forall newQuestions, determined (Game4.quizLoop count newQuestions).
Proof.
  induction count as [| count IH]; intros acc; simpl.
  - apply determined_ret.
  - apply determined_bind; [apply determined_newItem | intro; apply IH].
Qed.

Lemma determined_game4 : determined Game4.generateQuiz.
Proof.
  unfold Game4.generateQuiz, Game4.generateItems.
  apply determined_bind; [apply determined_quizLoop | intro; apply determined_ret].
Qed.

End GeneratorsDetermined.

Section Game3Options.
Import Random Game3 Spec.

Lemma distinctb_NoDup l : distinctb l = true -> NoDup l.
Proof.
  induction l as [| x rest IH]; simpl; intros H; [constructor |].
  apply andb_true_iff in H. destruct H as [Hx Hrest].
  constructor; [| apply IH; exact Hrest].
  intros Hin. apply negb_true_iff in Hx.
  assert (existsb (String.eqb x) rest = true) as E
    by (apply existsb_exists; exists x; split; [exact Hin | apply String.eqb_refl]).
  rewrite E in Hx. discriminate.
Qed.

Lemma answerOnce_spec options answer :
  answerOnce options answer = true ->
  NoDup options /\ count_occ string_dec options answer = 1%nat.
Proof.
  unfold answerOnce. intros H. apply andb_true_iff in H. destruct H as [Hd Hc].
  split; [apply distinctb_NoDup; exact Hd | apply Nat.eqb_eq; exact Hc].
Qed.

Lemma answerOnce_shuffled options answer rs n :
  answerOnce options answer = true ->
  NoDup (fst (Helpers.shuffleArray options rs n)) /\
  count_occ string_dec (fst (Helpers.shuffleArray options rs n)) answer = 1%nat.
Proof.
  intros H. destruct (answerOnce_spec options answer H) as [Hd Hc].
  pose proof (shuffleArray_perm options rs n) as Hperm.
  split.
  - apply (Permutation_NoDup Hperm Hd).
  - rewrite <- Hc. symmetry.
    apply (proj1 (Permutation_count_occ string_dec _ _) Hperm).
Qed.

Lemma magnitudes5_complete r (sign : bool) :
  valid_draw r ->
  In ((floorTimes r 5 + 1) * (if sign then 1 else -1)) magnitudes5.
Proof.
  intros Hr. destruct (floorTimes_5_cases r Hr) as [E | [E | [E | [E | E]]]];
    rewrite E; destruct sign; simpl; tauto.
Qed.

(** The equation question lists four different equations, the right one
    among them, for all coefficients the generator can draw. *)
Lemma equation_options_checked :
  forallb (fun ab => answerOnce
                       (formatEquation (fst ab) (snd ab)
                          :: firstn 3 (wrongOptions (fst ab) (snd ab)))
                       (formatEquation (fst ab) (snd ab)))
          (list_prod magnitudes5 magnitudes5) = true.
Proof. vm_compute. reflexivity. Qed.

(** Game 3 keeps what games 2 and 4 miss: under every valid source its
    option list has no duplicate and holds the stored answer exactly
    once. *)
Lemma game3_options_hold_answer_once rs n :
  valid_source rs ->
  let q := fst (newQuestion rs n) in
  NoDup (options q) /\ count_occ string_dec (options q) (answer q) = 1%nat.
Proof.
  intros Hrs. unfold newQuestion. run_rand.
  pose proof (magnitudes5_complete (rs n) (ltHalf (rs (S n))) (Hrs n)) as Ha.
  pose proof (magnitudes5_complete (rs (S (S n))) (ltHalf (rs (S (S (S n)))))
                (Hrs (S (S n)))) as Hb.
  set (a0 := (floorTimes (rs n) 5 + 1) * (if ltHalf (rs (S n)) then 1 else -1)) in *.
  set (b0 := (floorTimes (rs (S (S n))) 5 + 1) *
             (if ltHalf (rs (S (S (S n)))) then 1 else -1)) in *.
  destruct (floorTimes_3_cases _ (Hrs (S (S (S (S n)))))) as [E | [E | E]]; rewrite E.
  - pose proof equation_options_checked as Hall.
    rewrite forallb_forall in Hall.
    specialize (Hall (a0, b0) (proj2 (in_prod_iff _ _ a0 b0) (conj Ha Hb))).
    cbn [fst snd] in Hall.
    pose proof (answerOnce_shuffled _ _ rs (S (S (S (S (S n))))) Hall) as H.
    destruct (Helpers.shuffleArray _ rs _) as [opts n']. exact H.
  - cbn [fst options answer].
    destruct (a0 >? 0); (split; [apply distinctb_NoDup |]); vm_compute; reflexivity.
  - assert (Hall : answerOnce allSignOptions
                     (signText (if a0 >? 0 then ">" else "<")
                               (if b0 >? 0 then ">" else "<")) = true)
      by (destruct (a0 >? 0), (b0 >? 0); vm_compute; reflexivity).
    pose proof (answerOnce_shuffled _ _ rs (S (S (S (S (S n))))) Hall) as H.
    destruct (Helpers.shuffleArray _ rs _) as [opts n']. exact H.
Qed.

End Game3Options.

(* ================================================================== *)
(** * Facts about the game components *)
(* ================================================================== *)

Section Game1State.
Import Feedback Game1.
Variable rs : Random.source.
Variable key : option string.

Lemma game1_handleSubmit_locked isTimeout s :
  isAnswered s = true -> handleSubmit key isTimeout s = s.
Proof. intros H. unfold handleSubmit. rewrite H. reflexivity. Qed.

(** What a submission does to an unanswered question. *)
Lemma game1_handleSubmit_open isTimeout s q :
  isAnswered s = false -> question s = Some q ->
  let isCorrect := negb isTimeout && JS.strictEq (JS.parseInt (inputValue s)) (y q) in
  let tag := if isCorrect then correct else incorrect in
  let s' := handleSubmit key isTimeout s in
  score s' = (if isCorrect then score s + 10 else score s) /\
  isAnswered s' = true /\
  nextTimers s' = S (nextTimers s) /\
  question s' = question s /\ timeLeft s' = timeLeft s /\
  inputValue s' = inputValue s /\ cursor s' = cursor s /\
  hook s' = fst (getFeedback_start (ai key) "" tag (hook s)) /\
  length (inflight s') = (length (inflight s) + (if ai key then 1 else 0))%nat.
Proof.
  intros Hopen Hq. cbv zeta. unfold handleSubmit. rewrite Hopen, Hq.
  unfold getFeedback_start.
  destruct (negb isTimeout && JS.strictEq (JS.parseInt (inputValue s)) (y q));
    destruct (ai key); simpl; rewrite ?length_app; simpl; repeat split; lia.
Qed.

Lemma game1_handleSubmit_score isTimeout s :
  score (handleSubmit key isTimeout s) = score s \/
  (score (handleSubmit key isTimeout s) = score s + 10 /\
   isTimeout = false /\ isAnswered s = false /\
   exists q, question s = Some q /\
             JS.strictEq (JS.parseInt (inputValue s)) (y q) = true).
Proof.
  destruct (isAnswered s) eqn:Hans.
  - left. rewrite game1_handleSubmit_locked by exact Hans. reflexivity.
  - destruct (question s) as [q |] eqn:Hq.
    + destruct (game1_handleSubmit_open isTimeout s q Hans Hq) as (Hscore & _).
      rewrite Hscore.
      destruct isTimeout; simpl; [left; reflexivity |].
      destruct (JS.strictEq (JS.parseInt (inputValue s)) (y q)) eqn:E.
      * right. repeat split. exists q. split; [reflexivity | exact E].
      * left. reflexivity.
    + left. unfold handleSubmit. rewrite Hans, Hq. reflexivity.
Qed.

Lemma game1_timerEffect_score s : score (timerEffect key s) = score s.
Proof.
  unfold timerEffect. destruct (isAnswered s); [reflexivity |].
  destruct (timeLeft s >? 0); [reflexivity |].
  destruct (game1_handleSubmit_score true s) as [H | (_ & H & _)];
    [exact H | discriminate].
Qed.

Lemma game1_generateQuestion_score s : score (generateQuestion rs s) = score s.
Proof. unfold generateQuestion. destruct (newQuestion rs (cursor s)). reflexivity. Qed.

(** A step leaves the score alone or adds 10; it adds 10 only for a form
    submission whose parsed input equals the stored [y]. *)
Lemma game1_step_score e s s' :
  step rs key e s = Some s' ->
  score s' = score s \/
  (score s' = score s + 10 /\ e = SubmitForm /\
   exists q, question s = Some q /\
             JS.strictEq (JS.parseInt (inputValue s)) (y q) = true).
Proof.
  destruct e as [| value | | | k outcome]; simpl; intros H.
  - destruct (isAnswered s); [discriminate |].
    destruct (timeLeft s >? 0); [| discriminate].
    injection H as <-. rewrite game1_timerEffect_score. left. reflexivity.
  - destruct (isAnswered s); [discriminate |].
    injection H as <-. left. reflexivity.
  - injection H as <-.
    destruct (game1_handleSubmit_score false s) as [E | (E & _ & _ & Hq)];
      [left; exact E | right; auto].
  - destruct (nextTimers s); [discriminate |]. injection H as <-.
    rewrite game1_timerEffect_score, game1_generateQuestion_score. left. reflexivity.
  - destruct (settle k outcome (hook s) (inflight s)) as [[h q] |]; [| discriminate].
    injection H as <-. left. reflexivity.
Qed.

Lemma game1_initial_score : score (initial rs key) = 0.
Proof.
  unfold initial. rewrite game1_timerEffect_score, game1_generateQuestion_score.
  reflexivity.
Qed.

Lemma game1_reachable_score s :
  reachable rs key s -> 0 <= score s /\ score s mod 10 = 0.
Proof.
  induction 1 as [| s e s' _ [IH1 IH2] Hstep].
  - rewrite game1_initial_score. split; [lia | reflexivity].
  - destruct (game1_step_score e s s' Hstep) as [E | (E & _)]; rewrite E.
    + split; assumption.
    + split; [lia |]. rewrite <- Z.add_mod_idemp_l, IH2 by lia. reflexivity.
Qed.

End Game1State.

Section Game2State.
Import Feedback Game2.
Variable rs : Random.source.
Variable key : option string.
Variable fuel : nat.

Lemma game2_handleAnswer_locked opt s :
  isAnswered s = true -> handleAnswer key opt s = Some s.
Proof. intros H. unfold handleAnswer. rewrite H. reflexivity. Qed.

Lemma game2_selections_locked attempts s :
  isAnswered s = true -> selections key attempts s = Some s.
Proof.
  intros H. induction attempts as [| opt rest IH]; simpl; [reflexivity |].
  rewrite game2_handleAnswer_locked by exact H. exact IH.
Qed.

Lemma game2_handleAnswer_score opt s s' :
  handleAnswer key opt s = Some s' ->
  score s' = score s \/
  (score s' = score s + 10 /\ isAnswered s = false /\
   exists q, question s = Some q /\ answer q = Some opt).
Proof.
  unfold handleAnswer. destruct (isAnswered s).
  - intros H. injection H as <-. left. reflexivity.
  - destruct (question s) as [q |]; [| discriminate].
    destruct (answer q) as [correctOption |] eqn:Hans.
    + destruct (String.eqb_spec opt correctOption) as [-> | Hne];
        destruct (getFeedback_start _ _ _ _); intros H; injection H as <-; simpl.
      * right. repeat split. exists q. split; [reflexivity | exact Hans].
      * left. reflexivity.
    + destruct (getFeedback_start _ _ _ _); intros H; injection H as <-. left. reflexivity.
Qed.

Lemma game2_generateQuestion_score s s' :
  generateQuestion rs fuel s = Some s' -> score s' = score s.
Proof.
  unfold generateQuestion. destruct (newQuestion fuel rs (cursor s)) as [[q |] n'];
    [| discriminate].
  intros H. injection H as <-. reflexivity.
Qed.

Lemma game2_step_score e s s' :
  step rs key fuel e s = Some s' ->
  score s' = score s \/
  (score s' = score s + 10 /\
   exists q opt, e = Select opt /\ question s = Some q /\ answer q = Some opt).
Proof.
  destruct e as [opt | | k outcome]; simpl; intros H.
  - destruct (game2_handleAnswer_score opt s s' H) as [E | (E & _ & q & Hq & Ha)];
      [left; exact E | right].
    split; [exact E |]. exists q, opt. auto.
  - destruct (nextTimers s); [discriminate |].
    apply game2_generateQuestion_score in H. left. exact H.
  - destruct (settle k outcome (hook s) (inflight s)) as [[h q] |]; [| discriminate].
    injection H as <-. left. reflexivity.
Qed.

Lemma game2_reachable_score s :
  reachable rs key fuel s -> 0 <= score s /\ score s mod 10 = 0.
Proof.
  induction 1 as [s Hinit | s e s' _ [IH1 IH2] Hstep].
  - unfold initial in Hinit. apply game2_generateQuestion_score in Hinit.
    rewrite Hinit. simpl. split; [lia | reflexivity].
  - destruct (game2_step_score e s s' Hstep) as [E | (E & _)]; rewrite E.
    + split; assumption.
    + split; [lia |]. rewrite <- Z.add_mod_idemp_l, IH2 by lia. reflexivity.
Qed.

End Game2State.

Section Game3State.
Import Feedback Game3.
Variable rs : Random.source.
Variable key : option string.

Lemma game3_handleAnswer_locked opt s :
  isAnswered s = true -> handleAnswer key opt s = Some s.
Proof. intros H. unfold handleAnswer. rewrite H. reflexivity. Qed.

Lemma game3_selections_locked attempts s :
  isAnswered s = true -> selections key attempts s = Some s.
Proof.
  intros H. induction attempts as [| opt rest IH]; simpl; [reflexivity |].
  rewrite game3_handleAnswer_locked by exact H. exact IH.
Qed.

Lemma game3_handleAnswer_score opt s s' :
  handleAnswer key opt s = Some s' ->
  score s' = score s \/
  (score s' = score s + 10 /\ isAnswered s = false /\
   exists q, question s = Some q /\ answer q = opt).
Proof.
  unfold handleAnswer. destruct (isAnswered s).
  - intros H. injection H as <-. left. reflexivity.
  - destruct (question s) as [q |]; [| discriminate].
    destruct (String.eqb_spec opt (answer q)) as [-> | Hne];
      destruct (getFeedback_start _ _ _ _); intros H; injection H as <-; simpl.
    + right. repeat split. exists q. split; reflexivity.
    + left. reflexivity.
Qed.

Lemma game3_generateQuestion_score s : score (generateQuestion rs s) = score s.
Proof. unfold generateQuestion. destruct (newQuestion rs (cursor s)). reflexivity. Qed.

Lemma game3_step_score e s s' :
  step rs key e s = Some s' ->
  score s' = score s \/
  (score s' = score s + 10 /\
   exists q opt, e = Select opt /\ question s = Some q /\ answer q = opt).
Proof.
  destruct e as [opt | | k outcome]; simpl; intros H.
  - destruct (game3_handleAnswer_score opt s s' H) as [E | (E & _ & q & Hq & Ha)];
      [left; exact E | right].
    split; [exact E |]. exists q, opt. auto.
  - destruct (nextTimers s); [discriminate |]. injection H as <-.
    rewrite game3_generateQuestion_score. left. reflexivity.
  - destruct (settle k outcome (hook s) (inflight s)) as [[h q] |]; [| discriminate].
    injection H as <-. left. reflexivity.
Qed.

Lemma game3_reachable_score s :
  reachable rs key s -> 0 <= score s /\ score s mod 10 = 0.
Proof.
  induction 1 as [| s e s' _ [IH1 IH2] Hstep].
  - unfold initial. rewrite game3_generateQuestion_score. simpl.
    split; [lia | reflexivity].
  - destruct (game3_step_score e s s' Hstep) as [E | (E & _)]; rewrite E.
    + split; assumption.
    + split; [lia |]. rewrite <- Z.add_mod_idemp_l, IH2 by lia. reflexivity.
Qed.

End Game3State.

Section Game4State.
Import Feedback Game4 Spec.
Variable rs : Random.source.
Variable key : option string.

Lemma game4_handleAnswer_locked optionIndex s :
  isAnswered s = true -> handleAnswer optionIndex s = Some s.
Proof. intros H. unfold handleAnswer. rewrite H. reflexivity. Qed.

Lemma game4_selections_locked attempts s :
  isAnswered s = true -> selections attempts s = Some s.
Proof.
  intros H. induction attempts as [| i rest IH]; simpl; [reflexivity |].
  rewrite game4_handleAnswer_locked by exact H. exact IH.
Qed.

(** What a selection does to an unanswered question. *)
Lemma game4_handleAnswer_open optionIndex s slot :
  isAnswered s = false ->
  nth_error (questions s) (currentQIndex s) = Some slot ->
  handleAnswer optionIndex s =
    Some (mkState (questions s) (currentQIndex s)
            (if match slot with
                | Some q => optionIndex =? answerIndex q
                | None => false
                end then score s + 10 else score s)
            (timeLeft s) true (Some optionIndex) (isGameOver s) (hook s) (inflight s)
            (cursor s)
            (nextTimers s ++
               [mkClosure (currentQIndex s) (length (questions s)) (score s)])).
Proof. intros Hopen Hnth. unfold handleAnswer. rewrite Hopen, Hnth. reflexivity. Qed.

Lemma game4_current_slot s :
  QuizInvariant s -> exists slot,
    nth_error (questions s) (currentQIndex s) = Some slot /\ indexedSlot slot.
Proof.
  intros (Hlen & Hall & Hidx & _).
  destruct (nth_error (questions s) (currentQIndex s)) as [slot |] eqn:E.
  - exists slot. split; [reflexivity |].
    rewrite Forall_forall in Hall. apply Hall. eapply nth_error_In. exact E.
  - apply nth_error_None in E. lia.
Qed.

Lemma game4_handleAnswer_invariant optionIndex s s' :
  QuizInvariant s -> handleAnswer optionIndex s = Some s' -> QuizInvariant s'.
Proof.
  intros Hinv H. destruct (isAnswered s) eqn:Hans.
  - rewrite game4_handleAnswer_locked in H by exact Hans. injection H as <-. exact Hinv.
  - destruct (game4_current_slot s Hinv) as (slot & Hnth & _).
    rewrite (game4_handleAnswer_open optionIndex s slot Hans Hnth) in H.
    injection H as <-.
    destruct Hinv as (Hlen & Hall & Hidx & Hmod & Hscore & Htimers).
    rewrite Hans in Hscore, Htimers.
    destruct (isGameOver s) eqn:Hover; [contradiction |].
    quiz_fields. rewrite Htimers, Hlen. cbn [app].
    repeat split; try assumption.
    + destruct (match slot with Some q => _ | None => false end); [| exact Hmod].
      rewrite <- Z.add_mod_idemp_l, Hmod by lia. reflexivity.
    + destruct (match slot with Some q => _ | None => false end); lia.
    + destruct (match slot with Some q => _ | None => false end); lia.
    + eexists. reflexivity.
Qed.

Lemma game4_timerEffect_invariant s s' :
  QuizInvariant s -> timerEffect s = Some s' -> QuizInvariant s'.
Proof.
  intros Hinv. unfold timerEffect.
  destruct (isGameOver s || isAnswered s); [intros H; injection H as <-; exact Hinv |].
  destruct (timeLeft s >? 0); [intros H; injection H as <-; exact Hinv |].
  apply game4_handleAnswer_invariant. exact Hinv.
Qed.

Lemma game4_resetGame_invariant s :
  nextTimers s = [] -> QuizInvariant (resetGame rs s).
Proof.
  intros Htimers. unfold resetGame.
  destruct (generateQuiz_shape rs (cursor s)) as [Hlen Hall].
  destruct (generateQuiz rs (cursor s)) as [qs n']. simpl in Hlen, Hall.
  quiz_fields. repeat split; try assumption; try lia.
Qed.

Lemma game4_nextQuestion_invariant c pending s :
  QuizInvariant s -> nextTimers s = c :: pending ->
  QuizInvariant (nextQuestion key c (setNextTimers pending s)).
Proof.
  intros (Hlen & Hall & Hidx & Hmod & Hscore & Htimers) Hc.
  rewrite Hc in Htimers.
  destruct (isAnswered s) eqn:Hans; destruct (isGameOver s) eqn:Hover;
    try discriminate; try contradiction.
  destruct Htimers as [seen Hseen]. injection Hseen as -> ->.
  unfold nextQuestion. quiz_fields.
  destruct (Z.ltb_spec (Z.of_nat (currentQIndex s)) (Z.of_nat 10 - 1)) as [Hlt | Hge].
  - quiz_fields. rewrite Hover.
    repeat split; try assumption; try lia.
  - destruct (getFeedback_start _ _ _ _) as [h request].
    quiz_fields. rewrite Hans.
    repeat split; try assumption; try lia.
Qed.

Lemma game4_step_invariant e s s' :
  QuizInvariant s -> step rs key e s = Some s' -> QuizInvariant s'.
Proof.
  intros Hinv. destruct e as [| optionIndex | | | k outcome]; simpl.
  - destruct (isGameOver s || isAnswered s); [discriminate |].
    destruct (timeLeft s >? 0); [| discriminate].
    apply game4_timerEffect_invariant. exact Hinv.
  - apply game4_handleAnswer_invariant. exact Hinv.
  - destruct (nextTimers s) as [| c pending] eqn:Hc; [discriminate |].
    apply game4_timerEffect_invariant.
    apply game4_nextQuestion_invariant; assumption.
  - destruct (isGameOver s) eqn:Hover; [| discriminate].
    apply game4_timerEffect_invariant. apply game4_resetGame_invariant.
    destruct Hinv as (_ & _ & _ & _ & _ & Htimers). rewrite Hover in Htimers.
    destruct (isAnswered s); [exact Htimers | contradiction].
  - destruct (settle k outcome (hook s) (inflight s)) as [[h q] |]; [| discriminate].
    intros H. injection H as <-. exact Hinv.
Qed.

Lemma game4_reachable_invariant s : reachable rs key s -> QuizInvariant s.
Proof.
  induction 1 as [s Hinit | s e s' _ IH Hstep].
  - unfold initial in Hinit.
    eapply game4_timerEffect_invariant; [| exact Hinit].
    apply game4_resetGame_invariant. reflexivity.
  - apply (game4_step_invariant e s s' IH Hstep).
Qed.

End Game4State.

Section Game4Play.
Import Feedback Game4 Spec.
Variable rs : Random.source.
Variable key : option string.

(** The countdown effect never changes the score: a timeout carries the
    index [-1], which no assigned question has as its answer. *)
Lemma game4_timerEffect_score s s' :
  QuizInvariant s -> timerEffect s = Some s' -> score s' = score s.
Proof.
  intros Hinv. unfold timerEffect.
  destruct (isGameOver s || isAnswered s) eqn:Hflags;
    [intros H; injection H as <-; reflexivity |].
  destruct (timeLeft s >? 0); [intros H; injection H as <-; reflexivity |].
  apply orb_false_iff in Hflags. destruct Hflags as [_ Hans].
  destruct (game4_current_slot s Hinv) as (slot & Hnth & Hslot).
  rewrite (game4_handleAnswer_open (-1) s slot Hans Hnth).
  intros H. apply some_injective in H. subst s'. cbn [score].
  destruct slot as [q |]; [| reflexivity].
  simpl in Hslot. destruct (Z.eqb_spec (-1) (answerIndex q)); [lia | reflexivity].
Qed.

Lemma game4_setTimeLeft_invariant t s :
  QuizInvariant s -> QuizInvariant (setTimeLeft t s).
Proof. intros H. exact H. Qed.

(** A step leaves the score alone, adds 10 for the selection of the
    option the current question records as correct, or puts it back to
    0 when the quiz is restarted from the results panel. *)
Lemma game4_step_score e s s' :
  QuizInvariant s -> step rs key e s = Some s' ->
  score s' = score s \/
  (score s' = score s + 10 /\
   exists optionIndex, e = Select optionIndex /\ correctOption s = Some optionIndex) \/
  (e = PlayAgain /\ isGameOver s = true /\ score s' = 0).
Proof.
  intros Hinv. destruct e as [| optionIndex | | | k outcome]; simpl.
  - destruct (isGameOver s || isAnswered s); [discriminate |].
    destruct (timeLeft s >? 0); [| discriminate].
    intros H. left.
    apply (game4_timerEffect_score _ _ (game4_setTimeLeft_invariant _ s Hinv) H).
  - destruct (isAnswered s) eqn:Hans.
    + rewrite game4_handleAnswer_locked by exact Hans.
      intros H. injection H as <-. left. reflexivity.
    + destruct (game4_current_slot s Hinv) as (slot & Hnth & _).
      rewrite (game4_handleAnswer_open optionIndex s slot Hans Hnth).
      intros H. apply some_injective in H. subst s'. cbn [score].
      destruct slot as [q |]; [| left; reflexivity].
      destruct (Z.eqb_spec optionIndex (answerIndex q)) as [-> | Hne];
        [| left; reflexivity].
      right. left. split; [reflexivity |].
      exists (answerIndex q). split; [reflexivity |].
      unfold correctOption. rewrite Hnth. reflexivity.
  - destruct (nextTimers s) as [| c pending] eqn:Hc; [discriminate |].
    intros H. left.
    rewrite (game4_timerEffect_score _ _
               (game4_nextQuestion_invariant key c pending s Hinv Hc) H).
    unfold nextQuestion.
    destruct (_ <? _); [reflexivity |].
    destruct (getFeedback_start _ _ _ _). reflexivity.
  - destruct (isGameOver s) eqn:Hover; [| discriminate].
    intros H. right. right. split; [reflexivity |]. split; [reflexivity |].
    assert (Htimers : nextTimers s = []).
    { destruct Hinv as (_ & _ & _ & _ & _ & Ht). rewrite Hover in Ht.
      destruct (isAnswered s); [exact Ht | contradiction]. }
    rewrite (game4_timerEffect_score _ _ (game4_resetGame_invariant rs s Htimers) H).
    unfold resetGame. destruct (generateQuiz rs (cursor s)). reflexivity.
  - destruct (settle k outcome (hook s) (inflight s)) as [[h q] |]; [| discriminate].
    intros H. injection H as <-. left. reflexivity.
Qed.

(** Fewer ticks than seconds left only lower the countdown. *)
Lemma game4_ticks delay :
  forall s,
    isGameOver s = false -> isAnswered s = false ->
    Z.of_nat delay < timeLeft s ->
    quizRun rs key (repeat Tick delay) s =
      Some (setTimeLeft (timeLeft s - Z.of_nat delay) s).
Proof.
  induction delay as [| delay IH]; intros s Hover Hans Ht.
  - simpl. rewrite Z.sub_0_r. destruct s. reflexivity.
  - cbn [repeat quizRun step]. rewrite Hover, Hans. cbn [orb].
    destruct (Z.gtb_spec (timeLeft s) 0); [| lia].
    unfold timerEffect. quiz_fields. rewrite Hover, Hans. cbn [orb].
    destruct (Z.gtb_spec (timeLeft s - 1) 0); [| lia].
    rewrite IH; quiz_fields; try assumption; try lia.
    f_equal. f_equal. lia.
Qed.

Lemma game4_open_state s :
  QuizInvariant s -> isAnswered s = false ->
  isGameOver s = false /\ nextTimers s = [] /\ length (questions s) = 10%nat.
Proof.
  intros (Hlen & _ & _ & _ & _ & Ht) Hans. rewrite Hans in Ht.
  destruct (isGameOver s); [contradiction |]. auto.
Qed.

(** A correct selection followed by the scheduled [nextQuestion]: the
    quiz moves to the next question, or ends after the tenth.  The final
    prompt is built from the score the closure saw, that of the render
    before the last answer was counted. *)
Lemma game4_answerAndAdvance_correct w q :
  QuizInvariant w -> isAnswered w = false ->
  nth_error (questions w) (currentQIndex w) = Some (Some q) ->
  answerAndAdvance rs key (answerIndex q) w =
    Some (if Z.of_nat (currentQIndex w) <? 9 then
            mkState (questions w) (S (currentQIndex w)) (score w + 10) 15 false None
                    false (hook w) (inflight w) (cursor w) []
          else
            let started :=
              getFeedback_start (ai key) (promptFinal (JS.divide (score w) 10))
                                correct (hook w) in
            mkState (questions w) (currentQIndex w) (score w + 10) (timeLeft w) true
                    (Some (answerIndex q)) true (fst started)
                    (enqueue (inflight w) (snd started) correct) (cursor w) []).
Proof.
  intros Hinv Hans Hnth.
  destruct (game4_open_state w Hinv Hans) as (Hover & Htimers & Hlen).
  unfold answerAndAdvance. cbn [step].
  rewrite (game4_handleAnswer_open (answerIndex q) w (Some q) Hans Hnth).
  rewrite Z.eqb_refl, Htimers, Hlen, Hover. cbn [app step nextTimers].
  unfold nextQuestion. quiz_fields.
  change (Z.of_nat 10 - 1) with 9.
  destruct (Z.of_nat (currentQIndex w) <? 9).
  - reflexivity.
  - destruct (getFeedback_start _ _ _ _) as [h request]. reflexivity.
Qed.

Lemma generateQuiz_assigned n :
  Random.valid_source rs ->
  Forall (fun slot => slot <> None) (fst (generateQuiz rs n)).
Proof.
  intros Hrs. unfold generateQuiz, Random.bind.
  pose proof (generateItems_right rs n Hrs) as Hall.
  destruct (generateItems rs n) as [items n']. simpl in *.
  apply Forall_map. eapply Forall_impl; [| exact Hall].
  intros item (_ & q & ans & Hq & _). rewrite Hq. discriminate.
Qed.

Lemma game4_initial_round s0 :
  Random.valid_source rs -> initial rs = Some s0 -> RoundStart 0 s0.
Proof.
  intros Hrs Hinit.
  assert (Hinv : QuizInvariant s0)
    by (apply (game4_reachable_invariant rs key), reach_initial; exact Hinit).
  unfold initial, resetGame in Hinit. cbn [cursor] in Hinit.
  pose proof (generateQuiz_assigned O Hrs) as Hall.
  destruct (generateQuiz rs O) as [qs n']. simpl in Hall.
  unfold timerEffect in Hinit. cbn in Hinit.
  apply some_injective in Hinit. subst s0.
  unfold RoundStart. cbn [questions currentQIndex score isAnswered timeLeft].
  split; [exact Hinv |]. split; [exact Hall |]. repeat split.
Qed.

(** One round answered correctly, from the start of question [i]. *)
Lemma game4_correctRound i delay s :
  RoundStart i s -> (delay < 15)%nat ->
  exists s',
    correctRound rs key delay s = Some s' /\
    questions s' = questions s /\
    score s' = 10 * (Z.of_nat i + 1) /\
    if Z.of_nat i <? 9 then RoundStart (S i) s'
    else QuizInvariant s' /\ isGameOver s' = true /\ currentQIndex s' = 9%nat.
Proof.
  intros (Hinv & Hall & Hi & Hscore & Hans & Htime) Hdelay.
  destruct (game4_open_state s Hinv Hans) as (Hover & Htimers & Hlen).
  unfold correctRound.
  rewrite game4_ticks by (try assumption; lia).
  set (w := setTimeLeft (timeLeft s - Z.of_nat delay) s).
  assert (Hw : QuizInvariant w) by exact Hinv.
  destruct (game4_current_slot s Hinv) as (slot & Hnth & _).
  assert (Hslot : slot <> None).
  { rewrite Forall_forall in Hall. apply Hall. eapply nth_error_In. exact Hnth. }
  destruct slot as [q |]; [clear Hslot | contradiction].
  assert (Hc : correctOption w = Some (answerIndex q))
    by (unfold correctOption, w; quiz_fields; rewrite Hnth; reflexivity).
  rewrite Hc.
  pose proof (game4_answerAndAdvance_correct w q Hw Hans Hnth) as Hrun.
  assert (Hinv' : forall s', answerAndAdvance rs key (answerIndex q) w = Some s' ->
                             QuizInvariant s').
  { intros s' H. unfold answerAndAdvance in H.
    destruct (step rs key (Select (answerIndex q)) w) as [mid |] eqn:E1; [| discriminate].
    apply (game4_step_invariant rs key NextTimer mid s'); [| exact H].
    apply (game4_step_invariant rs key (Select (answerIndex q)) w mid Hw E1). }
  rewrite Hrun. eexists. split; [reflexivity |].
  specialize (Hinv' _ Hrun). revert Hinv'.
  unfold w. quiz_fields. rewrite Hi, Hscore.
  destruct (Z.ltb_spec (Z.of_nat i) 9) as [Hlt | Hge]; intros Hinv'.
  - cbn [questions score].
    split; [reflexivity |]. split; [lia |].
    unfold RoundStart. cbn [questions currentQIndex score isAnswered timeLeft].
    split; [exact Hinv' |]. split; [exact Hall |].
    repeat split; lia.
  - cbv zeta in Hinv' |- *. cbn [questions score isGameOver currentQIndex].
    split; [reflexivity |]. split; [lia |].
    split; [exact Hinv' |]. split; [reflexivity |].
    destruct Hinv as (_ & _ & Hidx & _). lia.
Qed.

Lemma game4_playCorrectly delays :
  forall i s,
    RoundStart i s -> (i + length delays = 10)%nat -> delays <> [] ->
    Forall (fun delay => (delay < 15)%nat) delays ->
    exists final,
      playCorrectly rs key delays s = Some final /\
      QuizInvariant final /\ isGameOver final = true /\ score final = 100 /\
      questions final = questions s /\ currentQIndex final = 9%nat.
Proof.
  induction delays as [| delay rest IH]; intros i s Hstart Hlen Hne Hall;
    [contradiction |].
  inversion Hall as [| d l Hd Hrest]; subst.
  destruct (game4_correctRound i delay s Hstart Hd) as (s' & Hround & Hqs & Hscore & Hnext).
  cbn [playCorrectly]. rewrite Hround.
  destruct (Z.ltb_spec (Z.of_nat i) 9) as [Hlt | Hge].
  - destruct (IH (S i) s' Hnext) as (final & Hplay & Hfinal); try assumption.
    + simpl in Hlen. lia.
    + intros ->. simpl in Hlen. lia.
    + exists final. rewrite <- Hqs. split; [exact Hplay | exact Hfinal].
  - simpl in Hlen. destruct rest; [| simpl in Hlen; lia].
    exists s'. destruct Hnext as (Hinv & Hover & Hidx).
    split; [reflexivity |]. split; [exact Hinv |]. split; [exact Hover |].
    split; [lia |]. split; [exact Hqs | exact Hidx].
Qed.

(** In the results panel nothing but the restart button changes the
    question, the score or the end of the game. *)
Lemma game4_gameOver_step e s s' :
  QuizInvariant s -> isGameOver s = true -> e <> PlayAgain ->
  step rs key e s = Some s' ->
  QuizInvariant s' /\ isGameOver s' = true /\
  currentQIndex s' = currentQIndex s /\ questions s' = questions s /\
  score s' = score s.
Proof.
  intros Hinv Hover He Hstep.
  split; [apply (game4_step_invariant rs key e s s' Hinv Hstep) |].
  destruct Hinv as (_ & _ & _ & _ & _ & Ht). rewrite Hover in Ht.
  destruct (isAnswered s) eqn:Hans; [| contradiction].
  destruct e as [| optionIndex | | | k outcome]; simpl in Hstep.
  - rewrite Hover in Hstep. discriminate.
  - rewrite game4_handleAnswer_locked in Hstep by exact Hans.
    apply some_injective in Hstep. subst s'. auto.
  - rewrite Ht in Hstep. discriminate.
  - contradiction.
  - destruct (settle k outcome (hook s) (inflight s)) as [[h q] |]; [| discriminate].
    apply some_injective in Hstep. subst s'. auto.
Qed.

Lemma game4_gameOver_run events :
  forall s s',
    QuizInvariant s -> isGameOver s = true -> ~ In PlayAgain events ->
    quizRun rs key events s = Some s' ->
    isGameOver s' = true /\ currentQIndex s' = currentQIndex s /\
    questions s' = questions s /\ score s' = score s.
Proof.
  induction events as [| e rest IH]; intros s s' Hinv Hover Hno Hrun.
  - simpl in Hrun. apply some_injective in Hrun. subst s'. auto.
  - cbn [quizRun] in Hrun.
    destruct (step rs key e s) as [mid |] eqn:Hstep; [| discriminate].
    assert (He : e <> PlayAgain) by (intros ->; apply Hno; left; reflexivity).
    destruct (game4_gameOver_step e s mid Hinv Hover He Hstep)
      as (Hinv' & Hover' & Hidx & Hqs & Hscore).
    destruct (IH mid s' Hinv' Hover') as (H1 & H2 & H3 & H4); [| exact Hrun |].
    + intros Hin. apply Hno. right. exact Hin.
    + rewrite H2, H3, H4. auto.
Qed.

(** The restart button of the results panel starts a new quiz. *)
Lemma game4_playAgain s :
  isGameOver s = true ->
  exists fresh,
    step rs key PlayAgain s = Some fresh /\
    isGameOver fresh = false /\ isAnswered fresh = false /\
    currentQIndex fresh = O /\ score fresh = 0 /\ timeLeft fresh = 15.
Proof.
  intros Hover. cbn [step]. rewrite Hover. unfold resetGame.
  destruct (generateQuiz rs (cursor s)) as [qs n'].
  unfold timerEffect. cbn. eexists. split; [reflexivity |]. cbn. auto.
Qed.

Lemma game4_results_view s :
  QuizInvariant s -> isGameOver s = true -> score s = 100 ->
  render s = ResultsPanel "Điểm số của bạn: 100" "Số câu đúng: 10 / 10"
                          (message (feedback (hook s))).
Proof.
  intros (Hlen & _) Hover Hscore. unfold render.
  rewrite Hlen, Hover, Hscore. reflexivity.
Qed.

End Game4Play.

Section Game4Reach.
Import Game4 Spec.
Variable rs : Random.source.
Variable key : option string.

Lemma game4_initial_exists : exists s0, initial rs = Some s0.
Proof.
  unfold initial, resetGame. destruct (generateQuiz rs _) as [qs n'].
  unfold timerEffect. cbn. eexists. reflexivity.
Qed.

Lemma game4_run_reachable events :
  forall s s', reachable rs key s -> quizRun rs key events s = Some s' ->
               reachable rs key s'.
Proof.
  induction events as [| e rest IH]; intros s s' Hreach Hrun.
  - simpl in Hrun. apply some_injective in Hrun. subst s'. exact Hreach.
  - cbn [quizRun] in Hrun.
    destruct (step rs key e s) as [mid |] eqn:Hstep; [| discriminate].
    apply (IH mid s'); [| exact Hrun].
    apply (reach_step rs key s e mid Hreach Hstep).
Qed.

Lemma game4_round_reachable delay s s' :
  reachable rs key s -> correctRound rs key delay s = Some s' -> reachable rs key s'.
Proof.
  intros Hreach. unfold correctRound.
  destruct (quizRun rs key (repeat Tick delay) s) as [waited |] eqn:Hwait;
    [| discriminate].
  pose proof (game4_run_reachable _ s waited Hreach Hwait) as Hw.
  destruct (correctOption waited) as [optionIndex |]; [| discriminate].
  unfold answerAndAdvance.
  destruct (step rs key (Select optionIndex) waited) as [mid |] eqn:Hsel;
    [| discriminate].
  intros Hnext.
  apply (reach_step rs key mid NextTimer s'); [| exact Hnext].
  apply (reach_step rs key waited (Select optionIndex) mid Hw Hsel).
Qed.

Lemma game4_play_reachable delays :
  forall s s', reachable rs key s -> playCorrectly rs key delays s = Some s' ->
               reachable rs key s'.
Proof.
  induction delays as [| delay rest IH]; intros s s' Hreach Hplay.
  - simpl in Hplay. apply some_injective in Hplay. subst s'. exact Hreach.
  - cbn [playCorrectly] in Hplay.
    destruct (correctRound rs key delay s) as [mid |] eqn:Hround; [| discriminate].
    apply (IH mid s'); [| exact Hplay].
    apply (game4_round_reachable delay s mid Hreach Hround).
Qed.

End Game4Reach.

(* ================================================================== *)
(** * Concrete sources *)
(* ================================================================== *)

Lemma sampleSource_valid : Random.valid_source Spec.sampleSource.
Proof.
  intros i. unfold Random.valid_draw, Spec.sampleSource.
  apply Z.mod_pos_bound. reflexivity.
Qed.

Lemma zeroSource_valid : Random.valid_source Spec.zeroSource.
Proof. intros i. unfold Random.valid_draw, Spec.zeroSource, Random.two53. lia. Qed.

Lemma yInterceptSource_valid : Random.valid_source Spec.yInterceptSource.
Proof.
  intros i. unfold Random.valid_draw, Spec.yInterceptSource, Random.two53, Random.two52.
  destruct i as [| [| [| [| i]]]]; lia.
Qed.

Lemma equalCoefficientsSource_valid : Random.valid_source Spec.equalCoefficientsSource.
Proof.
  intros i.
  unfold Random.valid_draw, Spec.equalCoefficientsSource, Random.two53, Random.two52.
  destruct i as [| [| [| [| i]]]]; lia.
Qed.

(* ================================================================== *)
(** * The properties of the specification *)
(* ================================================================== *)

(** C1.  Under every valid random source, each generator stores the
    answer that recomputation from the stored coefficients gives: in
    game 1 the stored [y] is [a * x + b]; in games 2 and 3 the stored
    [answer] is the right answer to the stored prompt for the stored
    [a] and [b]; in the quiz the option at the stored [answerIndex] is
    the right answer to the stored prompt for the coefficients the
    prompt prints. *)
Theorem stored_answer_is_recomputed rs :
  Random.valid_source rs ->
  (forall n,
     let q := fst (Game1.newQuestion rs n) in
     Game1.y q = Game1.a q * Game1.x q + Game1.b q) /\
  (forall fuel n,
     exists q p ans,
       fst (Game2.newQuestion (S fuel) rs n) = Some q /\
       Game2.promptText q = Some p /\ Game2.answer q = Some ans /\
       Spec.RightAnswer2 (Game2.a q) (Game2.b q) p ans) /\
  (forall n,
     let q := fst (Game3.newQuestion rs n) in
     Spec.RightAnswer3 (Game3.a q) (Game3.b q) (Game3.promptText q) (Game3.answer q)) /\
  (forall n,
     fst (Game4.generateQuiz rs n) = map Game4.pushed (fst (Game4.generateItems rs n)) /\
     Forall (fun item =>
               exists q ans,
                 Game4.pushed item = Some q /\
                 JS.at_index (Game4.options q) (Game4.answerIndex q) = Some ans /\
                 Spec.RightAnswer4 (Game4.coefA item) (Game4.coefB item)
                                   (Game4.prompt q) ans)
            (fst (Game4.generateItems rs n))).
Proof.
  intros Hrs.
  split; [intros n; apply game1_question_value |].
  split.
  { intros fuel n.
    destruct (game2_newQuestion_right rs fuel n Hrs)
      as (q & Hq & _ & _ & p & ans & Hp & Hans & Hright).
    exists q, p, ans. auto. }
  split; [intros n; apply (game3_newQuestion_right rs n Hrs) |].
  intros n. split.
  - unfold Game4.generateQuiz, Random.bind.
    destruct (Game4.generateItems rs n). reflexivity.
  - eapply Forall_impl; [| apply (generateItems_right rs n Hrs)].
    intros item (_ & H). exact H.
Qed.

(** An instance: the first question of game 1 under the sample
    source. *)
Lemma stored_answer_witness :
  Random.valid_source Spec.sampleSource /\
  Game1.y (fst (Game1.newQuestion Spec.sampleSource O))
  = Game1.a (fst (Game1.newQuestion Spec.sampleSource O))
    * Game1.x (fst (Game1.newQuestion Spec.sampleSource O))
    + Game1.b (fst (Game1.newQuestion Spec.sampleSource O)).
Proof.
  split; [exact sampleSource_valid |].
  exact (proj1 (stored_answer_is_recomputed Spec.sampleSource sampleSource_valid) O).
Defined.

(** C2, at an input where it fails.  With the draws 0, 0, 0.5, 0.25, 0,
    ... the first quiz question (a = 1, b = 0, y-intercept) lists the
    text of the correct option three times, so that some index other
    than the recorded [answerIndex] shows the same text, and a click
    there is judged and scores nothing; with the draws 0, 0, 0, 0.5, 0,
    ... the question of game 2 (a = b = 1, y-intercept) lists its
    answer twice. *)
Theorem options_repeat_the_answer :
  Random.valid_source Spec.yInterceptSource /\
  (exists s0 q,
     Game4.initial Spec.yInterceptSource = Some s0 /\
     nth_error (fst (Game4.generateQuiz Spec.yInterceptSource O)) O = Some (Some q) /\
     nth_error (Game4.questions s0) (Game4.currentQIndex s0) = Some (Some q) /\
     length (Game4.options q) = 4%nat /\
     JS.at_index (Game4.options q) (Game4.answerIndex q) = Some "(0, 0)" /\
     count_occ string_dec (Game4.options q) "(0, 0)" = 3%nat /\
     ~ NoDup (Game4.options q) /\
     exists j s1,
       j <> Game4.answerIndex q /\
       JS.at_index (Game4.options q) j = Some "(0, 0)" /\
       Game4.step Spec.yInterceptSource None (Game4.Select j) s0 = Some s1 /\
       Game4.isAnswered s1 = true /\
       Game4.selectedOption s1 = Some j /\
       Game4.score s1 = Game4.score s0) /\
  Random.valid_source Spec.equalCoefficientsSource /\
  (exists q,
     fst (Game2.newQuestion 1 Spec.equalCoefficientsSource O) = Some q /\
     length (Game2.options q) = 4%nat /\
     Game2.answer q = Some "(0, 1)" /\
     count_occ string_dec (Game2.options q) "(0, 1)" = 2%nat /\
     ~ NoDup (Game2.options q)).
Proof.
  split; [exact yInterceptSource_valid |].
  split.
  { eexists. eexists. split; [vm_compute; reflexivity |].
    split; [vm_compute; reflexivity |].
    split; [vm_compute; reflexivity |].
    cbn [Game4.options Game4.answerIndex].
    split; [reflexivity |].
    split; [vm_compute; reflexivity |].
    split; [vm_compute; reflexivity |].
    split.
    { intros H. apply (NoDup_count_occ string_dec) with (x := "(0, 0)") in H.
      vm_compute in H. lia. }
    exists 2. eexists.
    split; [discriminate |].
    split; [vm_compute; reflexivity |].
    split; [vm_compute; reflexivity |].
    split; [reflexivity |]. split; reflexivity. }
  split; [exact equalCoefficientsSource_valid |].
  eexists. split; [vm_compute; reflexivity |].
  cbn [Game2.options Game2.answer].
  split; [reflexivity |].
  split; [reflexivity |].
  split; [vm_compute; reflexivity |].
  intros H. apply (NoDup_count_occ string_dec) with (x := "(0, 1)") in H.
  vm_compute in H. lia.
Qed.

(** C3.  In each of the four games, once [isAnswered] is set, any run of
    further submissions (explicit or by timeout) or option selections
    returns the state unchanged, the score included; the countdown
    cannot fire either. *)
Theorem answered_question_is_locked :
  (forall key attempts s,
     Game1.isAnswered s = true ->
     Game1.submissions key attempts s = s /\
     (forall rs, Game1.step rs key Game1.SubmitForm s = Some s /\
                 Game1.step rs key Game1.Tick s = None)) /\
  (forall key attempts s,
     Game2.isAnswered s = true -> Game2.selections key attempts s = Some s) /\
  (forall key attempts s,
     Game3.isAnswered s = true -> Game3.selections key attempts s = Some s) /\
  (forall attempts s,
     Game4.isAnswered s = true ->
     Game4.selections attempts s = Some s /\
     (forall rs key, Game4.step rs key Game4.Tick s = None)).
Proof.
  split; [| split; [| split]].
  - intros key attempts s Hans. split.
    + induction attempts as [| isTimeout rest IH]; simpl; [reflexivity |].
      rewrite game1_handleSubmit_locked by exact Hans. exact IH.
    + intros rs. simpl. rewrite game1_handleSubmit_locked by exact Hans.
      rewrite Hans. split; reflexivity.
  - intros key attempts s Hans. apply game2_selections_locked. exact Hans.
  - intros key attempts s Hans. apply game3_selections_locked. exact Hans.
  - intros attempts s Hans. split.
    + apply game4_selections_locked. exact Hans.
    + intros rs key. simpl. rewrite Hans, orb_true_r. reflexivity.
Qed.

(** An instance: game 1 after a first submission, then three more. *)
Lemma answered_lock_witness :
  Game1.isAnswered
    (Game1.handleSubmit None false (Game1.initial Spec.sampleSource None)) = true /\
  Game1.submissions None [false; true; false]
    (Game1.handleSubmit None false (Game1.initial Spec.sampleSource None))
  = Game1.handleSubmit None false (Game1.initial Spec.sampleSource None).
Proof.
  split; [reflexivity |].
  exact (proj1 (proj1 answered_question_is_locked None [false; true; false]
                  (Game1.handleSubmit None false (Game1.initial Spec.sampleSource None))
                  eq_refl)).
Defined.

(** C4.  In the two timed games the countdown reaching zero runs the
    submission handler as a timeout, and a timeout is judged incorrect
    whatever the input holds: it leaves the score, locks the question and
    schedules the same single next-question callback as an explicit wrong
    answer does.  In game 1 the two resulting states agree in everything
    but the input text and the prompt of the feedback request; in the
    quiz they agree in everything but the selected index. *)
Theorem timeout_is_an_incorrect_answer :
  (forall rs key s q,
     Game1.question s = Some q -> Game1.isAnswered s = false ->
     let timedOut := Game1.handleSubmit key true s in
     (Game1.timeLeft s = 1 -> Game1.step rs key Game1.Tick s
        = Some (Game1.handleSubmit key true (Game1.setTimeLeft 0 s))) /\
     Game1.score timedOut = Game1.score s /\
     Game1.isAnswered timedOut = true /\
     Game1.nextTimers timedOut = S (Game1.nextTimers s) /\
     Feedback.type (Feedback.feedback (Game1.hook timedOut)) = Some Feedback.incorrect /\
     forall wrong,
       JS.strictEq (JS.parseInt wrong) (Game1.y q) = false ->
       let answered := Game1.handleSubmit key false (Game1.setInputValue wrong s) in
       Game1.score answered = Game1.score timedOut /\
       Game1.isAnswered answered = Game1.isAnswered timedOut /\
       Game1.nextTimers answered = Game1.nextTimers timedOut /\
       Game1.hook answered = Game1.hook timedOut /\
       Game1.question answered = Game1.question timedOut /\
       Game1.timeLeft answered = Game1.timeLeft timedOut /\
       Game1.cursor answered = Game1.cursor timedOut /\
       length (Game1.inflight answered) = length (Game1.inflight timedOut)) /\
  (forall rs key s,
     Game4.reachable rs key s -> Game4.isAnswered s = false ->
     exists timedOut,
       Game4.handleAnswer (-1) s = Some timedOut /\
       (Game4.timeLeft s = 1 -> Game4.step rs key Game4.Tick s
          = Game4.handleAnswer (-1) (Game4.setTimeLeft 0 s)) /\
       Game4.score timedOut = Game4.score s /\
       Game4.isAnswered timedOut = true /\
       Game4.nextTimers timedOut =
         [Game4.mkClosure (Game4.currentQIndex s) 10 (Game4.score s)] /\
       forall wrong,
         Spec.correctOption s <> Some wrong ->
         Game4.handleAnswer wrong s =
           Some (Game4.mkState
                   (Game4.questions timedOut) (Game4.currentQIndex timedOut)
                   (Game4.score timedOut) (Game4.timeLeft timedOut)
                   (Game4.isAnswered timedOut) (Some wrong)
                   (Game4.isGameOver timedOut) (Game4.hook timedOut)
                   (Game4.inflight timedOut) (Game4.cursor timedOut)
                   (Game4.nextTimers timedOut))).
Proof.
  split.
  - intros rs key s q Hq Hans. cbv zeta.
    destruct (game1_handleSubmit_open key true s q Hans Hq)
      as (Hscore & Hlock & Htimers & Hquestion & Htime & _ & Hcursor & Hhook & Hflight).
    simpl in Hscore, Hhook.
    split.
    { intros Hone. simpl. rewrite Hans, Hone. simpl.
      unfold Game1.timerEffect. simpl. rewrite Hans. reflexivity. }
    split; [exact Hscore |]. split; [exact Hlock |]. split; [exact Htimers |].
    split.
    { rewrite Hhook. unfold Feedback.getFeedback_start.
      destruct (Feedback.ai key); reflexivity. }
    intros wrong Hwrong.
    destruct (game1_handleSubmit_open key false (Game1.setInputValue wrong s) q Hans Hq)
      as (Hscore' & Hlock' & Htimers' & Hquestion' & Htime' & _ & Hcursor' & Hhook' & Hflight').
    simpl in Hscore', Hhook', Htimers', Hquestion', Htime', Hcursor', Hflight'.
    rewrite Hwrong in Hscore', Hhook'.
    rewrite Hscore, Hlock, Htimers, Hquestion, Htime, Hcursor, Hhook, Hflight.
    repeat split; assumption.
  - intros rs key s Hreach Hans.
    pose proof (game4_reachable_invariant rs key s Hreach) as Hinv.
    destruct (game4_current_slot s Hinv) as (slot & Hnth & Hslot).
    destruct (game4_open_state s Hinv Hans) as (Hover & Htimers & Hlen).
    assert (Hno : match slot with
                  | Some q => -1 =? Game4.answerIndex q
                  | None => false
                  end = false).
    { destruct slot as [q |]; [| reflexivity].
      simpl in Hslot. apply Z.eqb_neq. lia. }
    eexists. split.
    { rewrite (game4_handleAnswer_open (-1) s slot Hans Hnth). reflexivity. }
    rewrite Hno, Htimers, Hlen.
    cbn [Game4.questions Game4.currentQIndex Game4.score Game4.timeLeft
         Game4.isAnswered Game4.isGameOver Game4.hook Game4.inflight Game4.cursor
         Game4.nextTimers app].
    split.
    { intros Hone. cbn [Game4.step]. rewrite Hover, Hans, Hone. cbn [orb].
      change (1 >? 0) with true. cbv iota.
      unfold Game4.timerEffect, Game4.setTimeLeft.
      cbn [Game4.isGameOver Game4.isAnswered Game4.timeLeft].
      rewrite Hover, Hans. reflexivity. }
    repeat split.
    intros wrong Hwrong.
    rewrite (game4_handleAnswer_open wrong s slot Hans Hnth).
    assert (Hno' : match slot with
                   | Some q => wrong =? Game4.answerIndex q
                   | None => false
                   end = false).
    { unfold Spec.correctOption in Hwrong. rewrite Hnth in Hwrong.
      destruct slot as [q |]; [| reflexivity].
      apply Z.eqb_neq. intros ->. apply Hwrong. reflexivity. }
    rewrite Hno', Htimers, Hlen. reflexivity.
Qed.

(** An instance: in game 1 under the sample source, with the correct
    value typed in when the time runs out; and the first state of the
    quiz. *)
Lemma timeout_witness :
  (Game1.question (Game1.initial Spec.sampleSource None)
     = Some (Game1.mkQuestion (-3) 3 5 (-12)) /\
   Game1.isAnswered (Game1.initial Spec.sampleSource None) = false /\
   Game1.score (Game1.handleSubmit None true
                  (Game1.setInputValue "-12" (Game1.initial Spec.sampleSource None)))
   = Game1.score (Game1.setInputValue "-12" (Game1.initial Spec.sampleSource None))) /\
  exists s0 timedOut,
    Game4.reachable Spec.sampleSource None s0 /\
    Game4.isAnswered s0 = false /\
    Game4.handleAnswer (-1) s0 = Some timedOut /\
    Game4.score timedOut = Game4.score s0.
Proof.
  split.
  - split; [reflexivity |]. split; [reflexivity |].
    exact (proj1 (proj2 (proj1 timeout_is_an_incorrect_answer Spec.sampleSource None
                           (Game1.setInputValue "-12"
                              (Game1.initial Spec.sampleSource None))
                           (Game1.mkQuestion (-3) 3 5 (-12)) eq_refl eq_refl))).
  - destruct (game4_initial_exists Spec.sampleSource) as [s0 Hinit].
    pose proof (Game4.reach_initial Spec.sampleSource None s0 Hinit) as Hreach.
    destruct (game4_initial_round Spec.sampleSource None s0 sampleSource_valid Hinit)
      as (_ & _ & _ & _ & Hans & _).
    destruct (proj2 timeout_is_an_incorrect_answer Spec.sampleSource None s0 Hreach Hans)
      as (timedOut & Hrun & _ & Hscore & _).
    exists s0, timedOut. auto.
Defined.

(** C5.  For every prompt and tag, when the API key is missing or empty,
    or the remote call throws, a call of [getFeedback] completes
    normally and leaves as the message the fallback string of the tag:
    one fixed string for [correct], another for [incorrect]. *)
Theorem feedback_falls_back API_KEY service prompt t h :
  API_KEY = None \/ API_KEY = Some "" \/
  (exists error,
     service (Feedback.mkRequest "gemini-2.5-flash" prompt) = Feedback.Throw error) ->
  exists h',
    Feedback.getFeedback (Feedback.ai API_KEY) service prompt t h
      = (h', Feedback.Normal tt) /\
    Feedback.feedback h'
      = Feedback.mkMessage
          (match t with
           | Feedback.correct => "Chính xác! Làm tốt lắm!"
           | Feedback.incorrect => "Không đúng rồi. Cố gắng lại nhé!"
           end)
          (Some t) /\
    Feedback.message (Feedback.feedback h') <> "".
Proof.
  intros Hcase. unfold Feedback.getFeedback, Feedback.getFeedback_start.
  assert (Hmsg : forall t', Feedback.fallbackMessage t' <> "")
    by (intros []; discriminate).
  assert (Hsel : Feedback.fallbackMessage t =
                 match t with
                 | Feedback.correct => "Chính xác! Làm tốt lắm!"
                 | Feedback.incorrect => "Không đúng rồi. Cố gắng lại nhé!"
                 end) by (destruct t; reflexivity).
  destruct (Feedback.ai API_KEY) eqn:Hai.
  - destruct Hcase as [-> | [-> | [error Herr]]]; try discriminate.
    cbn [negb]. rewrite Herr.
    eexists. split; [reflexivity |]. cbn. rewrite <- Hsel.
    split; [reflexivity | apply Hmsg].
  - cbn [negb]. eexists. split; [reflexivity |]. cbn. rewrite <- Hsel.
    split; [reflexivity | apply Hmsg].
Qed.

(** An instance: a configured key and a service that fails. *)
Lemma feedback_fallback_witness :
  (exists error,
     (fun _ : Feedback.Request => Feedback.Throw (A := string) "503")
       (Feedback.mkRequest "gemini-2.5-flash" "prompt") = Feedback.Throw error) /\
  exists h',
    Feedback.getFeedback (Feedback.ai (Some "key"))
      (fun _ => Feedback.Throw "503") "prompt" Feedback.incorrect Feedback.initialHook
      = (h', Feedback.Normal tt) /\
    Feedback.feedback h'
      = Feedback.mkMessage "Không đúng rồi. Cố gắng lại nhé!" (Some Feedback.incorrect) /\
    Feedback.message (Feedback.feedback h') <> "".
Proof.
  split; [exists "503"; reflexivity |].
  exact (feedback_falls_back (Some "key") (fun _ => Feedback.Throw "503") "prompt"
           Feedback.incorrect Feedback.initialHook
           (or_intror (or_intror (ex_intro _ "503" eq_refl)))).
Defined.

(** C6.  Under every valid random source no generator produces a zero
    slope; in particular the divisor of each division [-b/a] is nonzero:
    the slope of every question of game 2 (where the quotient is moreover
    exact), and the slope each pass of the quiz loop ends with (for a
    question about the x-intercept, the slope drawn again inside that
    case). *)
Theorem slope_is_never_zero rs :
  Random.valid_source rs ->
  (forall n, Game1.a (fst (Game1.newQuestion rs n)) <> 0) /\
  (forall fuel n,
     exists q, fst (Game2.newQuestion (S fuel) rs n) = Some q /\
               Game2.a q <> 0 /\
               Game2.a q * JS.divide (- Game2.b q) (Game2.a q) = - Game2.b q) /\
  (forall n, Game3.a (fst (Game3.newQuestion rs n)) <> 0) /\
  (forall n,
     Forall (fun item => Game4.coefA item <> 0) (fst (Game4.generateItems rs n))).
Proof.
  intros Hrs.
  split; [intros n; apply (game1_question_ranges rs n Hrs) |].
  split.
  { intros fuel n.
    destruct (game2_newQuestion_right rs fuel n Hrs) as (q & Hq & Ha & [m Hb] & _).
    exists q. split; [exact Hq |]. split; [exact Ha |].
    pose proof (divide_intercept (Game2.a q) (Game2.b q) m Ha Hb). lia. }
  split; [intros n; apply (game3_newQuestion_right rs n Hrs) |].
  intros n. eapply Forall_impl; [| apply (generateItems_right rs n Hrs)].
  intros item (Ha & _). exact Ha.
Qed.

(** An instance: the sample source. *)
Lemma slope_witness :
  Random.valid_source Spec.sampleSource /\
  Game1.a (fst (Game1.newQuestion Spec.sampleSource O)) <> 0.
Proof.
  split; [exact sampleSource_valid |].
  exact (proj1 (slope_is_never_zero Spec.sampleSource sampleSource_valid) O).
Defined.




(** C8.  Under every valid random source, a student who answers each of
    the ten questions correctly, each within its fifteen seconds, ends
    with a score of 100 in the game-over state after the tenth question;
    the results panel shows 100 points and 10 / 10 correct; from there no
    run of events without the restart button changes the question, the
    score or the end of the game; and the restart button starts a new
    quiz at question 0 with score 0. *)
Theorem perfect_quiz_ends_at_100 rs key delays :
  Random.valid_source rs ->
  length delays = 10%nat ->
  Forall (fun delay => (delay < 15)%nat) delays ->
  exists s0 final,
    Game4.initial rs = Some s0 /\
    Spec.playCorrectly rs key delays s0 = Some final /\
    Game4.score final = 100 /\
    Game4.isGameOver final = true /\
    Game4.currentQIndex final = 9%nat /\
    Game4.render final =
      Game4.ResultsPanel "Điểm số của bạn: 100" "Số câu đúng: 10 / 10"
        (Feedback.message (Feedback.feedback (Game4.hook final))) /\
    (forall events after,
       ~ In Game4.PlayAgain events ->
       Spec.quizRun rs key events final = Some after ->
       Game4.isGameOver after = true /\
       Game4.currentQIndex after = Game4.currentQIndex final /\
       Game4.questions after = Game4.questions final /\
       Game4.score after = 100) /\
    (exists fresh,
       Game4.step rs key Game4.PlayAgain final = Some fresh /\
       Game4.isGameOver fresh = false /\ Game4.isAnswered fresh = false /\
       Game4.currentQIndex fresh = O /\ Game4.score fresh = 0 /\
       Game4.timeLeft fresh = 15).
Proof.
  intros Hrs Hlen Hdelays.
  destruct (game4_initial_exists rs) as [s0 Hinit].
  pose proof (game4_initial_round rs key s0 Hrs Hinit) as Hstart.
  destruct (game4_playCorrectly rs key delays O s0 Hstart) as
    (final & Hplay & Hinv & Hover & Hscore & Hqs & Hidx); try assumption.
  { intros ->. discriminate. }
  exists s0, final.
  split; [exact Hinit |].
  split; [exact Hplay |]. split; [exact Hscore |]. split; [exact Hover |].
  split; [exact Hidx |].
  split; [apply game4_results_view; assumption |].
  split.
  - intros events after Hno Hrun.
    destruct (game4_gameOver_run rs key events final after Hinv Hover Hno Hrun)
      as (H1 & H2 & H3 & H4).
    rewrite H4. auto.
  - apply game4_playAgain. exact Hover.
Qed.

(** An instance: the sample source, with delays between 0 and 14
    seconds. *)
Lemma perfect_quiz_witness :
  Random.valid_source Spec.sampleSource /\
  length [0; 3; 14; 1; 7; 2; 0; 9; 5; 4]%nat = 10%nat /\
  Forall (fun delay => (delay < 15)%nat) [0; 3; 14; 1; 7; 2; 0; 9; 5; 4]%nat /\
  exists s0 final,
    Game4.initial Spec.sampleSource = Some s0 /\
    Spec.playCorrectly Spec.sampleSource None [0; 3; 14; 1; 7; 2; 0; 9; 5; 4]%nat s0
      = Some final /\
    Game4.score final = 100.
Proof.
  split; [exact sampleSource_valid |]. split; [reflexivity |].
  assert (Hdelays : Forall (fun delay => (delay < 15)%nat)
                           [0; 3; 14; 1; 7; 2; 0; 9; 5; 4]%nat)
    by (repeat (apply Forall_cons; [lia |]); apply Forall_nil).
  split; [exact Hdelays |].
  destruct (perfect_quiz_ends_at_100 Spec.sampleSource None
              [0; 3; 14; 1; 7; 2; 0; 9; 5; 4]%nat
              sampleSource_valid eq_refl Hdelays)
    as (s0 & final & Hinit & Hplay & Hscore & _).
  exists s0, final. auto.
Defined.

(** C9.  Each generator is a function of the draws it consumes: on two
    streams that hold the same values at the positions the first run
    reads, the second run returns the same question (coefficients,
    answer, options in the same order) and stops at the same position. *)
Theorem generation_is_deterministic rs1 rs2 n :
  (Random.agree rs1 rs2 n (snd (Game1.newQuestion rs1 n)) ->
   Game1.newQuestion rs2 n = Game1.newQuestion rs1 n) /\
  (forall fuel,
     Random.agree rs1 rs2 n (snd (Game2.newQuestion fuel rs1 n)) ->
     Game2.newQuestion fuel rs2 n = Game2.newQuestion fuel rs1 n) /\
  (Random.agree rs1 rs2 n (snd (Game3.newQuestion rs1 n)) ->
   Game3.newQuestion rs2 n = Game3.newQuestion rs1 n) /\
  (Random.agree rs1 rs2 n (snd (Game4.generateItems rs1 n)) ->
   Game4.generateItems rs2 n = Game4.generateItems rs1 n) /\
  (Random.agree rs1 rs2 n (snd (Game4.generateQuiz rs1 n)) ->
   Game4.generateQuiz rs2 n = Game4.generateQuiz rs1 n).
Proof.
  split; [apply (determined_game1 rs1 rs2 n) |].
  split; [intros fuel; apply (determined_game2 fuel rs1 rs2 n) |].
  split; [apply (determined_game3 rs1 rs2 n) |].
  split; [apply (determined_quizLoop 10 [] rs1 rs2 n) |].
  apply (determined_game4 rs1 rs2 n).
Qed.

(** An instance: a stream that differs from the sample source from the
    fourth draw on, which game 1 does not read. *)
Lemma deterministic_witness :
  Random.agree Spec.sampleSource
    (fun i => if (i <? 3)%nat then Spec.sampleSource i else 0) O
    (snd (Game1.newQuestion Spec.sampleSource O)) /\
  Game1.newQuestion (fun i => if (i <? 3)%nat then Spec.sampleSource i else 0) O
  = Game1.newQuestion Spec.sampleSource O.
Proof.
  assert (H : Random.agree Spec.sampleSource
                (fun i => if (i <? 3)%nat then Spec.sampleSource i else 0) O
                (snd (Game1.newQuestion Spec.sampleSource O))).
  { intros i Hi. simpl in Hi. destruct i as [| [| [| i]]]; [reflexivity .. | lia]. }
  split; [exact H |].
  exact (proj1 (generation_is_deterministic Spec.sampleSource
                  (fun i => if (i <? 3)%nat then Spec.sampleSource i else 0) O) H).
Defined.

(** C10, the part that fails.  With [Math.random()] returning 0 at every
    call, ten correct answers lead to a reachable state with score 100,
    and the restart button then sets the score to 0: a change that is
    not an addition of 10, and a decrease. *)
Lemma restart_lowers_the_score :
  exists s s',
    Game4.reachable Spec.zeroSource None s /\
    Game4.step Spec.zeroSource None Game4.PlayAgain s = Some s' /\
    Game4.score s = 100 /\ Game4.score s' = 0.
Proof.
  destruct (game4_initial_exists Spec.zeroSource) as [s0 Hinit].
  pose proof (game4_initial_round Spec.zeroSource None s0 zeroSource_valid Hinit) as Hstart.
  destruct (game4_playCorrectly Spec.zeroSource None (repeat O 10) O s0 Hstart)
    as (final & Hplay & _ & Hover & Hscore & _).
  - reflexivity.
  - discriminate.
  - repeat (apply Forall_cons; [lia |]). apply Forall_nil.
  - destruct (game4_playAgain Spec.zeroSource None final Hover)
      as (fresh & Hstep & _ & _ & _ & Hzero & _).
    exists final, fresh.
    split; [| auto].
    apply (game4_play_reachable Spec.zeroSource None (repeat O 10) s0 final);
      [apply Game4.reach_initial; exact Hinit | exact Hplay].
Qed.

(** C10, as the code has it.  In every game the score starts at 0 and
    is, in every reachable state, a non-negative multiple of 10.  A step
    leaves it alone or adds 10, and adds 10 only for a submission or
    selection judged correct; in the quiz a step may also be the restart
    from the results panel, which sets it to 0.  So the score never
    decreases in games 1 to 3, nor in the quiz between restarts.  In the
    quiz the score is at most 100, and the number of correct answers
    shown, the score divided by 10, is an integer from 0 to 10. *)
Theorem score_moves_by_ten_or_restarts :
  (forall rs key,
     Game1.score (Game1.initial rs key) = 0 /\
     forall s, Game1.reachable rs key s ->
       0 <= Game1.score s /\ Game1.score s mod 10 = 0 /\
       forall e s', Game1.step rs key e s = Some s' ->
         Game1.score s' = Game1.score s \/
         (Game1.score s' = Game1.score s + 10 /\ e = Game1.SubmitForm /\
          exists q, Game1.question s = Some q /\
                    JS.strictEq (JS.parseInt (Game1.inputValue s)) (Game1.y q) = true)) /\
  (forall rs key fuel,
     (forall s0, Game2.initial rs fuel = Some s0 -> Game2.score s0 = 0) /\
     forall s, Game2.reachable rs key fuel s ->
       0 <= Game2.score s /\ Game2.score s mod 10 = 0 /\
       forall e s', Game2.step rs key fuel e s = Some s' ->
         Game2.score s' = Game2.score s \/
         (Game2.score s' = Game2.score s + 10 /\
          exists q opt, e = Game2.Select opt /\ Game2.question s = Some q /\
                        Game2.answer q = Some opt)) /\
  (forall rs key,
     Game3.score (Game3.initial rs) = 0 /\
     forall s, Game3.reachable rs key s ->
       0 <= Game3.score s /\ Game3.score s mod 10 = 0 /\
       forall e s', Game3.step rs key e s = Some s' ->
         Game3.score s' = Game3.score s \/
         (Game3.score s' = Game3.score s + 10 /\
          exists q opt, e = Game3.Select opt /\ Game3.question s = Some q /\
                        Game3.answer q = opt)) /\
  (forall rs key,
     (forall s0, Game4.initial rs = Some s0 -> Game4.score s0 = 0) /\
     forall s, Game4.reachable rs key s ->
       0 <= Game4.score s <= 100 /\ Game4.score s mod 10 = 0 /\
       0 <= JS.divide (Game4.score s) 10 <= 10 /\
       Game4.score s = 10 * JS.divide (Game4.score s) 10 /\
       forall e s', Game4.step rs key e s = Some s' ->
         Game4.score s' = Game4.score s \/
         (Game4.score s' = Game4.score s + 10 /\
          exists optionIndex, e = Game4.Select optionIndex /\
                              Spec.correctOption s = Some optionIndex) \/
         (e = Game4.PlayAgain /\ Game4.isGameOver s = true /\ Game4.score s' = 0)).
Proof.
  split; [| split; [| split]].
  - intros rs key. split; [apply game1_initial_score |].
    intros s Hreach. destruct (game1_reachable_score rs key s Hreach) as [H0 Hmod].
    split; [exact H0 |]. split; [exact Hmod |].
    intros e s'. apply game1_step_score.
  - intros rs key fuel. split.
    + intros s0 Hinit. unfold Game2.initial in Hinit.
      apply game2_generateQuestion_score in Hinit. exact Hinit.
    + intros s Hreach.
      destruct (game2_reachable_score rs key fuel s Hreach) as [H0 Hmod].
      split; [exact H0 |]. split; [exact Hmod |].
      intros e s'. apply game2_step_score.
  - intros rs key. split.
    + unfold Game3.initial. rewrite game3_generateQuestion_score. reflexivity.
    + intros s Hreach. destruct (game3_reachable_score rs key s Hreach) as [H0 Hmod].
      split; [exact H0 |]. split; [exact Hmod |].
      intros e s'. apply game3_step_score.
  - intros rs key. split.
    + intros s0 Hinit.
      pose proof (game4_resetGame_invariant rs
                    (Game4.mkState [] O 0 15 false None false Feedback.initialHook [] O [])
                    eq_refl) as Hinv.
      unfold Game4.initial in Hinit.
      rewrite (game4_timerEffect_score _ _ Hinv Hinit).
      unfold Game4.resetGame. destruct (Game4.generateQuiz rs _). reflexivity.
    + intros s Hreach.
      pose proof (game4_reachable_invariant rs key s Hreach) as Hinv.
      assert (Hinv' := Hinv).
      destruct Hinv' as (_ & _ & Hidx & Hmod & Hscore & _).
      assert (Hbound : 0 <= Game4.score s <= 100)
        by (destruct (Game4.isAnswered s); lia).
      unfold JS.divide.
      pose proof (Z.div_mod (Game4.score s) 10) as Hdiv.
      split; [exact Hbound |]. split; [exact Hmod |].
      split; [lia |]. split; [lia |].
      intros e s'. apply game4_step_score. exact Hinv.
Qed.

(** An instance: the first states of game 1 and of the quiz under the
    sample source. *)
Lemma score_witness :
  (Game1.reachable Spec.sampleSource None (Game1.initial Spec.sampleSource None) /\
   0 <= Game1.score (Game1.initial Spec.sampleSource None)) /\
  exists s0,
    Game4.reachable Spec.sampleSource None s0 /\
    0 <= Game4.score s0 <= 100.
Proof.
  split.
  - split; [apply Game1.reach_initial |].
    exact (proj1 (proj2 (proj1 score_moves_by_ten_or_restarts Spec.sampleSource None)
                    (Game1.initial Spec.sampleSource None)
                    (Game1.reach_initial Spec.sampleSource None))).
  - destruct (game4_initial_exists Spec.sampleSource) as [s0 Hinit].
    pose proof (Game4.reach_initial Spec.sampleSource None s0 Hinit) as Hreach.
    exists s0. split; [exact Hreach |].
    exact (proj1 (proj2 (proj2 (proj2 (proj2 score_moves_by_ten_or_restarts))
                          Spec.sampleSource None) s0 Hreach)).
Defined.

(* ================================================================== *)
(** * Further properties: numbers as text *)
(* ================================================================== *)

Section ParseRoundTrip.
Import Extra.

Ltac digit_step :=
  match goal with
  | |- context [JS.digitValue ?c] =>
      let v := eval vm_compute in (JS.digitValue c) in
      change (JS.digitValue c) with v
  end; cbv iota beta.

Lemma parseDigits_stop rest acc :
  endsNumber rest = true -> JS.parseDigits rest acc = acc.
Proof.
  destruct rest as [| c rest]; [reflexivity |].
  cbn [endsNumber JS.parseDigits]. destruct (JS.digitValue c); [discriminate | reflexivity].
Qed.

Lemma parseDigits_digits rest d :
  endsNumber rest = true ->
  forall acc,
    JS.parseDigits (NilEmpty.string_of_uint d +++ rest) (Some acc)
    = Some (digitsValue d acc).
Proof.
  intros Hrest.
  induction d; intros acc;
    cbn [NilEmpty.string_of_uint String.append JS.parseDigits digitsValue];
    [apply parseDigits_stop; exact Hrest | ..];
    digit_step; apply IHd.
Qed.

Lemma parseDigits_first_digit rest d :
  endsNumber rest = true -> d <> Decimal.Nil ->
  JS.parseDigits (NilEmpty.string_of_uint d +++ rest) None = Some (digitsValue d 0).
Proof.
  intros Hrest.
  destruct d; intros Hd; [contradiction | ..];
    cbn [NilEmpty.string_of_uint String.append JS.parseDigits digitsValue];
    digit_step; apply parseDigits_digits; exact Hrest.
Qed.

Lemma digitsValue_acc d :
  forall acc, digitsValue d (Z.pos acc) = Z.pos (Pos.of_uint_acc d acc).
Proof.
  induction d; intros acc; cbn [digitsValue Pos.of_uint_acc];
    try reflexivity;
    rewrite <- IHd; f_equal; lia.
Qed.

Lemma digitsValue_of_uint d : digitsValue d 0 = Z.of_N (Pos.of_uint d).
Proof.
  induction d; cbn [digitsValue Pos.of_uint]; try reflexivity;
    try exact IHd;
    cbn [Z.mul Z.add Z.of_N]; apply digitsValue_acc.
Qed.

Lemma to_uint_nonnil p : Pos.to_uint p <> Decimal.Nil.
Proof.
  intros E. pose proof (DecimalPos.Unsigned.of_to p) as H.
  rewrite E in H. discriminate.
Qed.

Lemma digitsValue_to_uint p : digitsValue (Pos.to_uint p) 0 = Z.pos p.
Proof.
  rewrite digitsValue_of_uint, DecimalPos.Unsigned.of_to. reflexivity.
Qed.

(** The first character of a nonempty run of digits is a digit: it is
    neither white space nor a sign. *)
Lemma digits_head d :
  d <> Decimal.Nil ->
  exists c rest,
    NilEmpty.string_of_uint d = String c rest /\
    JS.isWhite c = false /\ c <> "-"%char /\ c <> "+"%char.
Proof.
  destruct d; intros Hd; [contradiction | ..];
    cbn [NilEmpty.string_of_uint]; eexists _, _;
    (split; [reflexivity |]); (split; [reflexivity |]); split; discriminate.
Qed.

Lemma parseInt_digits rest d :
  endsNumber rest = true -> d <> Decimal.Nil ->
  JS.parseInt (NilEmpty.string_of_uint d +++ rest) = Some (digitsValue d 0).
Proof.
  intros Hrest Hd. destruct (digits_head d Hd) as (c & tail & E & Hw & Hm & Hp).
  unfold JS.parseInt. rewrite <- (parseDigits_first_digit rest d Hrest Hd).
  rewrite E. cbn [String.append JS.trimStart]. rewrite Hw.
  destruct c as [[] [] [] [] [] [] [] []]; try reflexivity; contradiction.
Qed.

Lemma toString_pos p :
  JS.toString (Z.pos p) = NilEmpty.string_of_uint (Pos.to_uint p).
Proof.
  unfold JS.toString. cbn [Z.to_int NilZero.string_of_int]. unfold NilZero.string_of_uint.
  pose proof (to_uint_nonnil p) as Hd.
  destruct (Pos.to_uint p); [contradiction | reflexivity ..].
Qed.

Lemma toString_neg p :
  JS.toString (Z.neg p) = String "-" (NilEmpty.string_of_uint (Pos.to_uint p)).
Proof.
  unfold JS.toString. cbn [Z.to_int NilZero.string_of_int]. unfold NilZero.string_of_uint.
  pose proof (to_uint_nonnil p) as Hd.
  destruct (Pos.to_uint p); [contradiction | reflexivity ..].
Qed.

(** [parseInt] reads back what [String] prints, also when other text
    follows the digits. *)
Lemma parseInt_toString_then n rest :
  endsNumber rest = true -> JS.parseInt (JS.toString n +++ rest) = Some n.
Proof.
  intros Hrest. destruct n as [| p | p].
  - change (JS.toString 0) with (NilEmpty.string_of_uint (Decimal.D0 Decimal.Nil)).
    rewrite parseInt_digits by (exact Hrest || discriminate). reflexivity.
  - rewrite toString_pos, parseInt_digits by (exact Hrest || apply to_uint_nonnil).
    rewrite digitsValue_to_uint. reflexivity.
  - rewrite toString_neg. unfold JS.parseInt. cbn [String.append JS.trimStart].
    change (JS.isWhite "-") with false. cbv iota.
    rewrite (parseDigits_first_digit rest _ Hrest (to_uint_nonnil p)), digitsValue_to_uint.
    reflexivity.
Qed.








Lemma append_empty s : s +++ "" = s.
Proof. induction s as [| c s IH]; [reflexivity |]. cbn [String.append]. now rewrite IH. Qed.

Lemma parseInt_toString n : JS.parseInt (JS.toString n) = Some n.
Proof.
  rewrite <- (append_empty (JS.toString n)). now apply parseInt_toString_then.
Qed.

Lemma toString_injective n m : JS.toString n = JS.toString m -> n = m.
Proof.
  intros E. apply some_injective. rewrite <- (parseInt_toString n), E.
  apply parseInt_toString.
Qed.

End ParseRoundTrip.

Section Settling.
Import Feedback.

Lemma nth_error_remove_length {A} (l : list A) k x :
  nth_error l k = Some x -> length l = S (length (remove_nth k l)).
Proof.
  revert k. induction l as [| y l IH]; intros [| k] H; try discriminate.
  - reflexivity.
  - cbn [remove_nth length]. f_equal. now apply IH.
Qed.

(** Replies are applied as they arrive.  When a request in flight
    settles, the hook shows the reply (or, on failure, the fallback of
    the request's tag) under the request's tag, whatever was displayed
    before, and clears the loading flag, also while other requests are
    still in flight; one request leaves the queue.  Settling a position
    that holds no request is impossible. *)
Lemma replies_in_arrival_order k outcome h q :
  match settle k outcome h q with
  | Some (h', q') =>
      exists request t,
        nth_error q k = Some (request, t) /\
        q' = remove_nth k q /\
        length q = S (length q') /\
        isLoading h' = false /\
        feedback h'
        = mkMessage (match outcome with
                     | Normal text => text
                     | Throw _ => fallbackMessage t
                     end) (Some t)
  | None => (length q <= k)%nat
  end.
Proof.
  unfold settle. destruct (nth_error q k) as [[request t] |] eqn:E.
  - exists request, t. split; [reflexivity |]. split; [reflexivity |].
    split; [now apply nth_error_remove_length with (x := (request, t)) |].
    destruct outcome; split; reflexivity.
  - now apply nth_error_None.
Qed.

End Settling.

(* ================================================================== *)
(** * Further properties: game 1 *)
(* ================================================================== *)

Section Game1Play.
Import Feedback Game1 Extra.
Variable rs : Random.source.
Variable key : option string.

Lemma getFeedback_start_type configured prompt t h :
  type (feedback (fst (getFeedback_start configured prompt t h))) = Some t.
Proof. unfold getFeedback_start. destruct configured; reflexivity. Qed.


Lemma game1_ticks k :
  forall s,
    isAnswered s = false -> Z.of_nat k < timeLeft s ->
    game1Run rs key (repeat Tick k) s
    = Some (setTimeLeft (timeLeft s - Z.of_nat k) s).
Proof.
  induction k as [| k IH]; intros s Hopen Hk.
  - cbn [repeat game1Run]. f_equal. destruct s.
    unfold setTimeLeft. cbn. f_equal. lia.
  - cbn [repeat game1Run step]. rewrite Hopen.
    destruct (Z.gtb_spec (timeLeft s) 0) as [_ | Hle]; [| lia].
    unfold timerEffect. cbn [setTimeLeft isAnswered timeLeft]. rewrite ?Hopen.
    destruct (Z.gtb_spec (timeLeft s - 1) 0) as [_ | Hle]; [| lia].
    rewrite IH by (cbn; (exact Hopen || lia)).
    f_equal. unfold setTimeLeft. cbn. f_equal. lia.
Qed.

Lemma game1Run_app events1 :
  forall events2 s,
    game1Run rs key (events1 ++ events2) s
    = match game1Run rs key events1 s with
      | Some s' => game1Run rs key events2 s'
      | None => None
      end.
Proof.
  induction events1 as [| e events1 IH]; intros events2 s; [reflexivity |].
  cbn [app game1Run]. destruct (step rs key e s); [apply IH | reflexivity].
Qed.

Lemma repeat_snoc {A} (x : A) n : repeat x (S n) = repeat x n ++ [x].
Proof.
  induction n as [| n IH]; [reflexivity |].
  cbn [repeat app] in *. now rewrite <- IH.
Qed.

(** X2.  The countdown of game 1.  From an open question with [t]
    seconds left, fewer than [t] ticks only lower the time shown; the
    tick that brings it to 0 submits the question as a timeout: the
    question is locked with the score unchanged, the feedback is tagged
    [incorrect], one next-question callback is scheduled, and no
    further tick can occur. *)
Theorem countdown_ends_in_a_timeout s q :
  question s = Some q -> isAnswered s = false -> 0 < timeLeft s ->
  (forall k, Z.of_nat k < timeLeft s ->
     game1Run rs key (repeat Tick k) s
     = Some (setTimeLeft (timeLeft s - Z.of_nat k) s)) /\
  exists expired,
    game1Run rs key (repeat Tick (Z.to_nat (timeLeft s))) s = Some expired /\
    expired = handleSubmit key true (setTimeLeft 0 s) /\
    timeLeft expired = 0 /\
    isAnswered expired = true /\
    score expired = score s /\
    type (feedback (hook expired)) = Some incorrect /\
    nextTimers expired = S (nextTimers s) /\
    step rs key Tick expired = None.
Proof.
  intros Hq Hopen Ht. split; [intros k Hk; apply game1_ticks; assumption |].
  assert (Hrun : game1Run rs key (repeat Tick (Z.to_nat (timeLeft s))) s
                 = Some (handleSubmit key true (setTimeLeft 0 s))).
  { destruct (Z.to_nat (timeLeft s)) as [| k] eqn:Ek; [lia |].
    rewrite repeat_snoc, game1Run_app, game1_ticks by (exact Hopen || lia).
    cbn [game1Run step]. unfold timerEffect, setTimeLeft.
    cbn [isAnswered timeLeft question score inputValue hook inflight cursor nextTimers].
    rewrite Hopen.
    destruct (Z.gtb_spec (timeLeft s - Z.of_nat k) 0) as [_ | Hle]; [| lia].
    replace (timeLeft s - Z.of_nat k - 1) with 0 by lia. reflexivity. }
  eexists. split; [exact Hrun |]. split; [reflexivity |].
  unfold handleSubmit, setTimeLeft.
  cbn [isAnswered question inputValue score hook nextTimers inflight cursor timeLeft].
  rewrite Hopen, Hq. cbn [negb andb].
  destruct (getFeedback_start (ai key) (promptIncorrect q true (inputValue s))
              incorrect (hook s)) as [hook' request] eqn:E.
  cbn [step isAnswered score hook nextTimers timeLeft].
  repeat split.
  change hook' with (fst (hook', request)). rewrite <- E.
  apply getFeedback_start_type.
Qed.

Lemma game1_generateQuestion_fields s :
  let s' := generateQuestion rs s in
  (exists q, question s' = Some q) /\ timeLeft s' = 15 /\ isAnswered s' = false /\
  inputValue s' = "" /\ feedback (hook s') = mkMessage "" None /\
  isLoading (hook s') = isLoading (hook s) /\
  score s' = score s /\ nextTimers s' = nextTimers s /\ inflight s' = inflight s.
Proof.
  unfold generateQuestion. destruct (newQuestion rs (cursor s)) as [q cursor'].
  cbn. repeat split. now exists q.
Qed.

Lemma game1_timerEffect_running s :
  isAnswered s = false -> 0 < timeLeft s -> timerEffect key s = s.
Proof.
  intros Hopen Ht. unfold timerEffect. rewrite Hopen.
  destruct (Z.gtb_spec (timeLeft s) 0); [reflexivity | lia].
Qed.

Lemma game1_timerEffect_timeLeft s : timeLeft (timerEffect key s) = timeLeft s.
Proof.
  unfold timerEffect, handleSubmit.
  destruct (isAnswered s); cbv iota; [reflexivity |].
  destruct (timeLeft s >? 0); [reflexivity |].
  destruct (question s); [| reflexivity].
  destruct (getFeedback_start _ _ _ _). reflexivity.
Qed.

Lemma game1_nextTimer_fields s pending :
  nextTimers s = S pending ->
  exists next,
    step rs key NextTimer s = Some next /\
    (exists q, question next = Some q) /\ timeLeft next = 15 /\
    isAnswered next = false /\ inputValue next = "" /\
    feedback (hook next) = mkMessage "" None /\
    isLoading (hook next) = isLoading (hook s) /\
    score next = score s /\ nextTimers next = pending /\
    inflight next = inflight s.
Proof.
  intros Hp. cbn [step]. rewrite Hp. eexists. split; [reflexivity |].
  match goal with
  | |- context [generateQuestion rs ?st] =>
      pose proof (game1_generateQuestion_fields st) as H; cbv zeta in H;
      cbn [hook score nextTimers inflight] in H;
      destruct H as (Hq & Ht & Ha & Hi & Hf & Hl & Hs & Hn & Hfl);
      rewrite game1_timerEffect_running by (rewrite ?Ht; (exact Ha || lia))
  end.
  repeat split; assumption.
Qed.

Lemma game1_handleSubmit_invariant isTimeout s :
  (exists q, question s = Some q) -> 0 <= timeLeft s <= 15 ->
  nextTimers s = (if isAnswered s then 1 else 0)%nat ->
  Game1Invariant (handleSubmit key isTimeout s).
Proof.
  intros Hq Ht Hn. unfold handleSubmit.
  destruct (isAnswered s) eqn:Hopen.
  - unfold Game1Invariant. rewrite Hopen.
    split; [exact Hq |]. split; [exact Ht |]. split; [reflexivity | exact Hn].
  - destruct Hq as [q Hq]. rewrite Hq.
    destruct (getFeedback_start _ _ _ _) as [hook' request].
    unfold Game1Invariant. cbn [question timeLeft isAnswered nextTimers].
    split; [now exists q |]. split; [exact Ht |]. split; [reflexivity |].
    now rewrite Hn.
Qed.

Lemma game1_timerEffect_invariant s :
  (exists q, question s = Some q) -> 0 <= timeLeft s <= 15 ->
  nextTimers s = (if isAnswered s then 1 else 0)%nat ->
  Game1Invariant (timerEffect key s).
Proof.
  intros Hq Ht Hn. unfold timerEffect.
  destruct (isAnswered s) eqn:Hopen.
  - unfold Game1Invariant. rewrite Hopen.
    split; [exact Hq |]. split; [exact Ht |]. split; [reflexivity | exact Hn].
  - destruct (Z.gtb_spec (timeLeft s) 0) as [Hpos | Hle].
    + unfold Game1Invariant. rewrite Hopen.
      split; [exact Hq |]. split; [exact Ht |]. split; [lia | exact Hn].
    + apply game1_handleSubmit_invariant; [exact Hq | exact Ht |].
      now rewrite Hopen.
Qed.

Lemma game1_initial_invariant : Game1Invariant (initial rs key).
Proof.
  unfold initial.
  match goal with
  | |- context [generateQuestion rs ?st] =>
      pose proof (game1_generateQuestion_fields st) as H; cbv zeta in H;
      cbn [hook score nextTimers inflight] in H;
      destruct H as (Hq & Ht & Ha & Hi & Hf & Hl & Hs & Hn & Hfl)
  end.
  apply game1_timerEffect_invariant; [assumption | lia |].
  rewrite Ha. exact Hn.
Qed.

Lemma game1_step_invariant e s s' :
  Game1Invariant s -> step rs key e s = Some s' -> Game1Invariant s'.
Proof.
  intros Hinv. pose proof Hinv as (Hq & Ht & Hz & Hn).
  destruct e as [| value | | | k outcome]; cbn [step].
  - destruct (isAnswered s) eqn:Hopen; [discriminate |].
    destruct (Z.gtb_spec (timeLeft s) 0) as [Hpos | Hle]; [| discriminate].
    intros H. apply some_injective in H. subst s'.
    apply game1_timerEffect_invariant; unfold setTimeLeft;
      cbn [question timeLeft isAnswered nextTimers];
      [assumption | lia | now rewrite Hopen].
  - destruct (isAnswered s) eqn:Hopen; [discriminate |].
    intros H. apply some_injective in H. subst s'.
    unfold Game1Invariant, setInputValue.
    cbn [question timeLeft isAnswered nextTimers]. rewrite Hopen.
    split; [exact Hq |]. split; [exact Ht |]. split; [lia | exact Hn].
  - intros H. apply some_injective in H. subst s'.
    now apply game1_handleSubmit_invariant.
  - destruct (nextTimers s) as [| pending] eqn:Hp; [discriminate |].
    destruct (game1_nextTimer_fields s pending Hp)
      as (next & Hstep & Hq' & Ht' & Ha' & _ & _ & _ & _ & Hn' & _).
    cbn [step] in Hstep. rewrite Hp in Hstep. rewrite Hstep.
    intros H. apply some_injective in H. subst s'.
    destruct (isAnswered s); [| discriminate].
    unfold Game1Invariant. rewrite Ht', Ha', Hn'.
    split; [exact Hq' |]. split; [lia |]. split; [discriminate | congruence].
  - destruct (settle k outcome (hook s) (inflight s)) as [[hook' inflight'] |];
      [| discriminate].
    intros H. apply some_injective in H. subst s'. exact Hinv.
Qed.

Lemma game1_reachable_invariant s : reachable rs key s -> Game1Invariant s.
Proof.
  induction 1 as [| s e s' _ IH Hstep]; [apply game1_initial_invariant |].
  exact (game1_step_invariant e s s' IH Hstep).
Qed.

(** X3.  Game 1 never stalls and never shows the spinner again.  In
    every reachable state a question is present, the time shown is
    between 0 and 15, time 0 means the question is locked, and a
    next-question callback is pending exactly when the question is
    locked, and then only one.  From a locked state that callback
    yields an open state with a new question, 15 seconds, an empty
    input, no feedback message and the same score; in an open state no
    such callback is pending and the countdown can tick. *)
Theorem game1_never_stalls s :
  reachable rs key s ->
  (exists q, question s = Some q) /\
  0 <= timeLeft s <= 15 /\
  (timeLeft s = 0 -> isAnswered s = true) /\
  nextTimers s = (if isAnswered s then 1 else 0)%nat /\
  (isAnswered s = true ->
   exists next,
     step rs key NextTimer s = Some next /\
     (exists q, question next = Some q) /\
     isAnswered next = false /\ timeLeft next = 15 /\ inputValue next = "" /\
     feedback (hook next) = mkMessage "" None /\
     score next = score s /\ nextTimers next = O) /\
  (isAnswered s = false ->
   step rs key NextTimer s = None /\
   exists next, step rs key Tick s = Some next /\ timeLeft next = timeLeft s - 1).
Proof.
  intros Hreach.
  destruct (game1_reachable_invariant s Hreach) as (Hq & Ht & Hz & Hn).
  repeat (split; [assumption |]). split.
  - intros Ha. rewrite Ha in Hn.
    destruct (game1_nextTimer_fields s O Hn)
      as (next & Hstep & Hq' & Ht' & Ha' & Hi' & Hf' & _ & Hs' & Hn' & _).
    exists next. repeat split; assumption.
  - intros Ha. rewrite Ha in Hn. cbn [step]. rewrite Hn, Ha.
    split; [reflexivity |].
    destruct (Z.gtb_spec (timeLeft s) 0) as [Hpos | Hle];
      [| assert (timeLeft s = 0) by lia; rewrite Hz in Ha by assumption; discriminate].
    eexists. split; [reflexivity |].
    now rewrite game1_timerEffect_timeLeft.
Qed.

Lemma nth_error_snoc {A} (l : list A) x : nth_error (l ++ [x]) (length l) = Some x.
Proof. induction l as [| y l IH]; [reflexivity | exact IH]. Qed.

Lemma remove_nth_snoc {A} (l : list A) x : remove_nth (length l) (l ++ [x]) = l.
Proof.
  induction l as [| y l IH]; [reflexivity |]. cbn [length app remove_nth].
  now rewrite IH.
Qed.

(** X4.  A reply that arrives late lands on the next question.  With a
    configured key, when the request made for an answer is still in
    flight while the next question is generated, the new question is
    shown with the loading flag still set and no message; when the
    request then settles with a text, that text is displayed, under the
    tag of the previous answer, while the new question is still open. *)
Theorem late_feedback_lands_on_next_question s q isTimeout text :
  ai key = true -> question s = Some q -> isAnswered s = false ->
  let answered := handleSubmit key isTimeout s in
  exists next late t,
    step rs key NextTimer answered = Some next /\
    step rs key (Settle (length (inflight s)) (Normal text)) next = Some late /\
    isAnswered next = false /\
    isLoading (hook next) = true /\
    feedback (hook next) = mkMessage "" None /\
    isAnswered late = false /\
    question late = question next /\
    feedback (hook late) = mkMessage text (Some t) /\
    type (feedback (hook answered)) = Some t /\
    isLoading (hook late) = false /\
    inflight late = inflight s.
Proof.
  intros Hkey Hq Hopen answered.
  assert (Hans : exists t prompt,
             answered = mkState (question s) (if match t with correct => true | incorrect => false end
                                              then score s + 10 else score s)
                          (timeLeft s) (inputValue s) true
                          (mkHook (mkMessage "" (Some t)) true (console (hook s)))
                          (inflight s ++ [(mkRequest "gemini-2.5-flash" prompt, t)])
                          (cursor s) (S (nextTimers s))).
  { subst answered. unfold handleSubmit. rewrite Hopen, Hq.
    unfold getFeedback_start. rewrite Hkey. cbn [negb].
    destruct (negb isTimeout && _); [exists correct | exists incorrect];
      eexists; cbn; reflexivity. }
  destruct Hans as (t & prompt & Hans). rewrite Hans.
  destruct (game1_nextTimer_fields
              (mkState (question s) (if match t with correct => true | incorrect => false end
                                     then score s + 10 else score s)
                       (timeLeft s) (inputValue s) true
                       (mkHook (mkMessage "" (Some t)) true (console (hook s)))
                       (inflight s ++ [(mkRequest "gemini-2.5-flash" prompt, t)])
                       (cursor s) (S (nextTimers s)))
              (nextTimers s) eq_refl)
    as (next & Hstep & Hq' & Ht' & Ha' & Hi' & Hf' & Hl' & Hs' & Hn' & Hfl').
  cbn [hook isLoading inflight] in Hl', Hfl'.
  exists next. eexists. exists t.
  split; [exact Hstep |].
  cbn [step]. unfold settle. rewrite Hfl', nth_error_snoc, remove_nth_snoc.
  split; [reflexivity |].
  cbn [isAnswered question hook inflight feedback type].
  repeat split; assumption.
Qed.






Lemma game1_loading_step e s s' :
  step rs key e s = Some s' ->
  (isLoading (hook s) = true -> inflight s <> []) ->
  isLoading (hook s') = true -> inflight s' <> [].
Proof.
  intros Hstep IH.
  assert (Hsubmit : forall isTimeout st,
             (isLoading (hook st) = true -> inflight st <> []) ->
             isLoading (hook (handleSubmit key isTimeout st)) = true ->
             inflight (handleSubmit key isTimeout st) <> []).
  { intros isTimeout st IH'. unfold handleSubmit.
    destruct (isAnswered st); [exact IH' |].
    destruct (question st) as [q |]; [| exact IH'].
    unfold getFeedback_start. destruct (ai key); cbn [negb].
    - cbn [fst setIsLoading setFeedback hook inflight enqueue].
      intros _ E. destruct (inflight st); discriminate.
    - cbn [fst setFeedback hook inflight enqueue isLoading]. exact IH'. }
  assert (Htimer : forall st,
             (isLoading (hook st) = true -> inflight st <> []) ->
             isLoading (hook (timerEffect key st)) = true ->
             inflight (timerEffect key st) <> []).
  { intros st IH'. unfold timerEffect.
    destruct (isAnswered st); [exact IH' |].
    destruct (timeLeft st >? 0); [exact IH' |]. now apply Hsubmit. }
  destruct e as [| value | | | k outcome]; cbn [step] in Hstep.
  - destruct (isAnswered s); [discriminate |].
    destruct (timeLeft s >? 0); [| discriminate].
    apply some_injective in Hstep. subst s'. apply Htimer. exact IH.
  - destruct (isAnswered s); [discriminate |].
    apply some_injective in Hstep. subst s'. exact IH.
  - apply some_injective in Hstep. subst s'. now apply Hsubmit.
  - destruct (nextTimers s) as [| pending]; [discriminate |].
    apply some_injective in Hstep. subst s'. apply Htimer.
    unfold generateQuestion. destruct (newQuestion rs _) as [q cursor'].
    cbn [hook inflight resetFeedback setFeedback fst isLoading]. exact IH.
  - pose proof (replies_in_arrival_order k outcome (hook s) (inflight s)) as Hsettle.
    destruct (settle k outcome (hook s) (inflight s)) as [[hook' inflight'] |];
      [| discriminate].
    apply some_injective in Hstep. subst s'. cbn [hook inflight].
    destruct Hsettle as (_ & _ & _ & _ & _ & Hl & _). rewrite Hl. discriminate.
Qed.

(** X6.  The spinner of game 1 is shown only while a request is in
    flight, but not for as long.  In every reachable state a set loading
    flag means that some request has not settled yet.  The converse
    fails with a configured key: after two answers whose requests are
    both in flight, the first reply clears the flag while the second
    request is still in flight. *)
Theorem spinner_needs_a_request_in_flight :
  (forall s, reachable rs key s -> isLoading (hook s) = true -> inflight s <> []) /\
  (ai key = true ->
   exists s,
     reachable rs key s /\ inflight s <> [] /\ isLoading (hook s) = false).
Proof.
  split.
  - induction 1 as [| s e s' _ IH Hstep].
    + unfold initial, generateQuestion. cbn [cursor].
      destruct (newQuestion rs O) as [q cursor'].
      rewrite game1_timerEffect_running by (cbn; (reflexivity || lia)).
      cbn. discriminate.
    + exact (game1_loading_step e s s' Hstep IH).
  - intros Hkey.
    pose proof (reach_initial rs key) as H0.
    destruct (game1_reachable_invariant _ H0) as ([q0 Hq0] & _ & _ & Hn0).
    assert (Ha0 : isAnswered (initial rs key) = false).
    { unfold initial, generateQuestion. cbn [cursor].
      destruct (newQuestion rs O) as [q cursor'].
      now rewrite game1_timerEffect_running by (cbn; (reflexivity || lia)). }
    set (s1 := handleSubmit key false (initial rs key)).
    assert (H1 : reachable rs key s1)
      by (apply (reach_step rs key (initial rs key) SubmitForm); [exact H0 | reflexivity]).
    destruct (game1_handleSubmit_open key false _ q0 Ha0 Hq0)
      as (_ & Ha1 & Hn1 & _ & _ & _ & _ & _ & Hlen1).
    fold s1 in Ha1, Hn1, Hlen1. rewrite Hkey in Hlen1.
    destruct (game1_nextTimer_fields s1 _ Hn1)
      as (s2 & Hstep2 & [q2 Hq2] & _ & Ha2 & _ & _ & _ & _ & _ & Hf2).
    assert (H2 : reachable rs key s2) by (eapply reach_step; eassumption).
    set (s3 := handleSubmit key false s2).
    assert (H3 : reachable rs key s3)
      by (apply (reach_step rs key s2 SubmitForm); [exact H2 | reflexivity]).
    destruct (game1_handleSubmit_open key false s2 q2 Ha2 Hq2)
      as (_ & _ & _ & _ & _ & _ & _ & _ & Hlen3).
    fold s3 in Hlen3. rewrite Hkey, Hf2, Hlen1 in Hlen3.
    pose proof (replies_in_arrival_order O (Normal "") (hook s3) (inflight s3)) as Hsettle.
    destruct (settle O (Normal "") (hook s3) (inflight s3))
      as [[hook' inflight'] |] eqn:E;
      [| rewrite Hlen3 in Hsettle; cbn in Hsettle; lia].
    destruct Hsettle as (request & t & _ & _ & Hlen & Hl & _).
    eexists. split; [| split].
    + apply (reach_step rs key s3 (Settle O (Normal ""))); [exact H3 |].
      cbn [step]. rewrite E. reflexivity.
    + cbn [inflight]. intros E'. rewrite E' in Hlen. cbn in Hlen. lia.
    + exact Hl.
Qed.


End Game1Play.


Lemma countdown_witness :
  exists expired,
    Extra.game1Run Spec.sampleSource None (repeat Game1.Tick 15)
      (Game1.initial Spec.sampleSource None) = Some expired /\
    Game1.isAnswered expired = true /\
    Game1.score expired = Game1.score (Game1.initial Spec.sampleSource None).
Proof.
  destruct (countdown_ends_in_a_timeout Spec.sampleSource None
              (Game1.initial Spec.sampleSource None)
              (Game1.mkQuestion (-3) 3 5 (-12)))
    as (_ & expired & Hrun & _ & _ & Hlocked & Hscore & _);
    [vm_compute; reflexivity | vm_compute; reflexivity | vm_compute; reflexivity |].
  exists expired. split; [exact Hrun |]. split; [exact Hlocked | exact Hscore].
Defined.

Lemma game1_never_stalls_witness :
  Game1.reachable Spec.sampleSource None (Game1.initial Spec.sampleSource None) /\
  0 <= Game1.timeLeft (Game1.initial Spec.sampleSource None) <= 15.
Proof.
  split; [apply Game1.reach_initial |].
  apply (game1_never_stalls Spec.sampleSource None), Game1.reach_initial.
Defined.

Lemma late_feedback_witness :
  exists next late t,
    Game1.step Spec.sampleSource (Some "key") Game1.NextTimer
      (Game1.handleSubmit (Some "key") false
         (Game1.initial Spec.sampleSource (Some "key"))) = Some next /\
    Game1.step Spec.sampleSource (Some "key")
      (Game1.Settle 0 (Feedback.Normal "Gần đúng rồi!")) next = Some late /\
    Game1.isAnswered late = false /\
    Feedback.feedback (Game1.hook late)
    = Feedback.mkMessage "Gần đúng rồi!" (Some t).
Proof.
  destruct (late_feedback_lands_on_next_question Spec.sampleSource (Some "key")
              (Game1.initial Spec.sampleSource (Some "key"))
              (Game1.mkQuestion (-3) 3 5 (-12)) false "Gần đúng rồi!")
    as (next & late & t & H1 & H2 & _ & _ & _ & H3 & _ & H4 & _);
    [reflexivity | vm_compute; reflexivity | vm_compute; reflexivity |].
  exists next, late, t. repeat split; assumption.
Defined.

(* ================================================================== *)
(** * Further properties: the feedback hook *)
(* ================================================================== *)

Section Pending.
Import Feedback Game1 Extra.
Variable rs : Random.source.
Variable key : option string.

Lemma game1_handleSubmit_pending isTimeout s :
  isLoading (hook s) = true ->
  isLoading (hook (handleSubmit key isTimeout s)) = true /\
  exists later, inflight (handleSubmit key isTimeout s) = inflight s ++ later.
Proof.
  intros Hl. unfold handleSubmit.
  destruct (isAnswered s); [split; [exact Hl | exists []; now rewrite app_nil_r] |].
  destruct (question s) as [q |]; [| split; [exact Hl | exists []; now rewrite app_nil_r]].
  unfold getFeedback_start. destruct (ai key); cbn [negb].
  - cbn [fst setIsLoading setFeedback hook inflight enqueue isLoading].
    split; [reflexivity |]. eexists. reflexivity.
  - cbn [fst setFeedback hook inflight enqueue isLoading].
    split; [exact Hl | exists []; now rewrite app_nil_r].
Qed.

Lemma game1_timerEffect_pending s :
  isLoading (hook s) = true ->
  isLoading (hook (timerEffect key s)) = true /\
  exists later, inflight (timerEffect key s) = inflight s ++ later.
Proof.
  intros Hl. unfold timerEffect.
  destruct (isAnswered s); [split; [exact Hl | exists []; now rewrite app_nil_r] |].
  destruct (timeLeft s >? 0); [split; [exact Hl | exists []; now rewrite app_nil_r] |].
  now apply game1_handleSubmit_pending.
Qed.

Lemma game1_step_pending e s s' :
  (forall k outcome, e <> Settle k outcome) ->
  step rs key e s = Some s' ->
  isLoading (hook s) = true ->
  isLoading (hook s') = true /\ exists later, inflight s' = inflight s ++ later.
Proof.
  intros Hreply Hstep Hl.
  destruct e as [| value | | | k outcome]; cbn [step] in Hstep.
  - destruct (isAnswered s); [discriminate |].
    destruct (timeLeft s >? 0); [| discriminate].
    apply some_injective in Hstep. subst s'.
    apply (game1_timerEffect_pending (setTimeLeft (timeLeft s - 1) s)). exact Hl.
  - destruct (isAnswered s); [discriminate |].
    apply some_injective in Hstep. subst s'.
    split; [exact Hl | exists []; cbn [setInputValue inflight]; now rewrite app_nil_r].
  - apply some_injective in Hstep. subst s'. now apply game1_handleSubmit_pending.
  - destruct (nextTimers s) as [| pending]; [discriminate |].
    apply some_injective in Hstep. subst s'.
    match goal with
    | |- context [timerEffect key ?st] =>
        destruct (game1_timerEffect_pending st) as (Hl' & later & Hq)
    end.
    + unfold generateQuestion. cbn [cursor hook].
      destruct (newQuestion rs (cursor s)) as [q cursor'].
      cbn [hook resetFeedback setFeedback fst isLoading]. exact Hl.
    + split; [exact Hl' |]. exists later. rewrite Hq.
      unfold generateQuestion. cbn [cursor inflight].
      destruct (newQuestion rs (cursor s)) as [q cursor']. reflexivity.
  - exfalso. exact (Hreply k outcome eq_refl).
Qed.

Lemma game1_run_pending events :
  forall s s',
    (forall k outcome, ~ In (Settle k outcome) events) ->
    game1Run rs key events s = Some s' ->
    isLoading (hook s) = true ->
    isLoading (hook s') = true /\ exists later, inflight s' = inflight s ++ later.
Proof.
  induction events as [| e events IH]; intros s s' Hreply Hrun Hl.
  - apply some_injective in Hrun. subst s'.
    split; [exact Hl | exists []; now rewrite app_nil_r].
  - cbn [game1Run] in Hrun.
    destruct (step rs key e s) as [s1 |] eqn:Hstep; [| discriminate].
    destruct (game1_step_pending e s s1) as (Hl1 & later1 & Hq1);
      [intros k outcome E; apply (Hreply k outcome); left; exact E
      | exact Hstep | exact Hl |].
    destruct (IH s1 s') as (Hl' & later & Hq');
      [intros k outcome Hin; apply (Hreply k outcome); right; exact Hin
      | exact Hrun | exact Hl1 |].
    split; [exact Hl' |]. exists (later1 ++ later).
    rewrite Hq', Hq1, app_assoc. reflexivity.
Qed.

End Pending.

(** X7.  A call of [getFeedback] completes once its request settles,
    and only then: the hook sets no timeout.  Without a client the call
    makes no request and ends at once with the fallback message of its
    tag, the loading flag and the console left alone.  With a client it
    sets the loading flag, empties the message under its tag and leaves
    one request in flight, for the model [gemini-2.5-flash] with the
    prompt.  When that request is fulfilled the call ends normally with
    the response text as message, the flag cleared and nothing logged;
    when it fails the call still ends normally, with the fallback
    message, the flag cleared and exactly one line logged, which
    carries the error.  Until a request settles nothing clears the
    flag: neither [resetFeedback] nor the start of another call does,
    and in game 1 no run of events without a reply clears it or takes a
    request out of flight. *)
Theorem getFeedback_completes_once_settled prompt t h :
  Feedback.getFeedback_start false prompt t h
  = (Feedback.mkHook
       (Feedback.mkMessage (Feedback.fallbackMessage t) (Some t))
       (Feedback.isLoading h) (Feedback.console h),
     None) /\
  Feedback.getFeedback_start true prompt t h
  = (Feedback.mkHook (Feedback.mkMessage "" (Some t)) true (Feedback.console h),
     Some (Feedback.mkRequest "gemini-2.5-flash" prompt)) /\
  (forall text,
     Feedback.getFeedback_resume (Feedback.Normal text) t h
     = (Feedback.mkHook (Feedback.mkMessage text (Some t)) false (Feedback.console h),
        Feedback.Normal tt)) /\
  (forall error,
     Feedback.getFeedback_resume (Feedback.Throw error) t h
     = (Feedback.mkHook
          (Feedback.mkMessage (Feedback.fallbackMessage t) (Some t)) false
          (Feedback.console h ++ ["AI feedback error: " +++ error]),
        Feedback.Normal tt)) /\
  (Feedback.isLoading h = true ->
   Feedback.isLoading (Feedback.resetFeedback h) = true /\
   forall configured prompt' t',
     Feedback.isLoading (fst (Feedback.getFeedback_start configured prompt' t' h))
     = true) /\
  (forall rs key events s s',
     (forall k outcome, ~ In (Game1.Settle k outcome) events) ->
     Extra.game1Run rs key events s = Some s' ->
     Feedback.isLoading (Game1.hook s) = true ->
     Feedback.isLoading (Game1.hook s') = true /\
     exists later, Game1.inflight s' = Game1.inflight s ++ later).
Proof.
  split; [reflexivity |]. split; [reflexivity |].
  split; [intros text; reflexivity |]. split; [intros error; reflexivity |].
  split.
  - intros Hl. split; [exact Hl |].
    intros configured prompt' t'. unfold Feedback.getFeedback_start.
    destruct configured; cbn [negb fst Feedback.setFeedback Feedback.setIsLoading
                              Feedback.isLoading]; [reflexivity | exact Hl].
  - intros rs key events s s'. apply game1_run_pending.
Qed.

(* ================================================================== *)
(** * Further properties: game 2 *)
(* ================================================================== *)

Section ChartFacts.
Import Panel.

Lemma Array_from_length {A} n (f : Z -> A) : length (Array_from n f) = n.
Proof. unfold Array_from. now rewrite length_map, length_seq. Qed.

Lemma Array_from_nth {A} n (f : Z -> A) i :
  (i < n)%nat -> nth_error (Array_from n f) i = Some (f (Z.of_nat i)).
Proof.
  intros Hi. unfold Array_from.
  rewrite nth_error_map, nth_error_seq.
  destruct (Nat.ltb_spec i n); [reflexivity | lia].
Qed.

Lemma Array_from_nth_inv {A} n (f : Z -> A) i y :
  nth_error (Array_from n f) i = Some y -> (i < n)%nat /\ y = f (Z.of_nat i).
Proof.
  intros H.
  assert (Hi : (i < n)%nat).
  { rewrite <- (Array_from_length n f). apply nth_error_Some. congruence. }
  rewrite Array_from_nth in H by exact Hi. split; [exact Hi | congruence].
Qed.

End ChartFacts.

Section Game2Generator.
Import Random Game2 Extra.

Lemma buildQuestion_shape rs n a0 b0 m :
  valid_source rs -> a0 <> 0 -> 1 <= m <= 5 -> b0 = a0 * m \/ b0 = - (a0 * m) ->
  let q := fst (buildQuestion a0 b0 rs n) in
  a q = a0 /\ b q = b0 /\ Game2Shape q.
Proof.
  intros Hrs Ha Hm Hb. unfold buildQuestion. run_rand.
  destruct (floorTimes_3_cases (rs n) (Hrs n)) as [E | [E | E]]; rewrite E.
  - match goal with
    | |- context [Helpers.shuffleArray ?l rs (S n)] =>
        pose proof (shuffleArray_perm l rs (S n)) as Hperm;
        destruct (Helpers.shuffleArray l rs (S n)) as [opts n']
    end.
    cbn [fst] in *. cbn [a b].
    split; [reflexivity |]. split; [reflexivity |].
    apply shapeYIntercept; cbn [promptText answer options a b];
      [reflexivity | reflexivity | exact Hperm].
  - match goal with
    | |- context [Helpers.shuffleArray ?l rs (S n)] =>
        pose proof (shuffleArray_perm l rs (S n)) as Hperm;
        destruct (Helpers.shuffleArray l rs (S n)) as [opts n']
    end.
    cbn [fst] in *. cbn [a b].
    split; [reflexivity |]. split; [reflexivity |].
    pose proof (divide_intercept a0 b0 m Ha Hb) as Hx.
    apply (shapeXIntercept _ (JS.divide (- b0) a0)); cbn [promptText answer options a b];
      [exact Hx | | | reflexivity | reflexivity | exact Hperm].
    + destruct Hb as [Hb | Hb]; subst b0.
      * assert (JS.divide (- (a0 * m)) a0 = - m) by nia. lia.
      * assert (JS.divide (- - (a0 * m)) a0 = m) by nia. lia.
    + intros E0. rewrite E0 in Hx. nia.
  - pose proof (floorTimes_range (rs (S n)) 11 (Hrs _)) as Hx.
    destruct (ltHalf (rs (S (S n)))) eqn:Eon; cbn [fst a b].
    + split; [reflexivity |]. split; [reflexivity |].
      eapply shapePoint; cbn [promptText answer options a b];
        [| | reflexivity | | reflexivity]; [lia | lia |].
      now rewrite Z.eqb_refl.
    + pose proof (floorTimes_range (rs (S (S (S (S n))))) 2 (Hrs _)) as Hd.
      split; [reflexivity |]. split; [reflexivity |].
      eapply shapePoint; cbn [promptText answer options a b];
        [| | reflexivity | | reflexivity];
        [lia | destruct (ltHalf (rs (S (S (S n))))); lia |].
      match goal with
      | |- context [?u =? ?v] => destruct (Z.eqb_spec u v) as [Heq | _]
      end; [| reflexivity].
      destruct (ltHalf (rs (S (S (S n))))); lia.
Qed.

Lemma game2_newQuestion_generated rs fuel n :
  valid_source rs ->
  exists q n',
    newQuestion (S fuel) rs n = (Some q, n') /\ Game2Generated q.
Proof.
  intros Hrs. unfold newQuestion, bind.
  destruct (drawCoefficients_spec rs fuel n Hrs)
    as (a0 & b0 & m & E & Ha & Hrange & Hm & Hb).
  rewrite E.
  pose proof (buildQuestion_shape rs (S (S (S (S n)))) a0 b0 m Hrs Ha Hm Hb) as H.
  destruct (buildQuestion a0 b0 rs (S (S (S (S n))))) as [q n']. cbn [fst] in H.
  destruct H as (Ea & Eb & Hshape). exists q, n'. split; [reflexivity |].
  unfold Game2Generated. rewrite Ea, Eb.
  split; [exact Ha |]. split; [exact Hrange |]. split; [now exists m | exact Hshape].
Qed.

End Game2Generator.

Section Game2Play.
Import Random Feedback Game2 Extra.
Variable rs : source.
Variable key : option string.
Variable fuel : nat.
Hypothesis Hrs : valid_source rs.

Lemma game2_generateQuestion_fields s :
  exists s',
    generateQuestion rs (S fuel) s = Some s' /\
    (exists q, question s' = Some q /\ Game2Generated q) /\
    isAnswered s' = false /\ selectedOption s' = None /\
    feedback (hook s') = mkMessage "" None /\
    score s' = score s /\ nextTimers s' = nextTimers s /\
    inflight s' = inflight s.
Proof.
  unfold generateQuestion.
  destruct (game2_newQuestion_generated rs fuel (cursor s) Hrs) as (q & n' & E & Hq).
  rewrite E. eexists. split; [reflexivity |].
  cbn [question isAnswered selectedOption hook score nextTimers inflight].
  split; [now exists q |]. repeat split.
Qed.

Lemma game2_handleAnswer_fields opt s q :
  question s = Some q -> isAnswered s = false ->
  exists s',
    handleAnswer key opt s = Some s' /\
    question s' = Some q /\ isAnswered s' = true /\
    selectedOption s' = Some opt /\
    nextTimers s' = S (nextTimers s) /\
    score s' = (if Panel.sameString opt (answer q) then score s + 10 else score s) /\
    type (feedback (hook s'))
    = Some (if Panel.sameString opt (answer q) then correct else incorrect).
Proof.
  intros Hq Hopen. unfold handleAnswer. rewrite Hopen, Hq.
  change (match answer q with
          | Some correctOption => (opt =? correctOption)%string
          | None => false
          end) with (Panel.sameString opt (answer q)).
  destruct (getFeedback_start _ _ _ _) as [hook' request] eqn:E.
  eexists. split; [reflexivity |].
  cbn [question isAnswered selectedOption nextTimers score hook].
  repeat split. change hook' with (fst (hook', request)). rewrite <- E.
  rewrite getFeedback_start_type. now destruct (Panel.sameString opt (answer q)).
Qed.

Lemma game2_initial_invariant :
  exists s0, initial rs (S fuel) = Some s0 /\ Game2Invariant s0.
Proof.
  unfold initial.
  destruct (game2_generateQuestion_fields (mkState None 0 false None initialHook [] O O))
    as (s0 & E & Hq & Ha & _ & _ & _ & Hn & _).
  exists s0. split; [exact E |]. split; [exact Hq |]. now rewrite Ha, Hn.
Qed.

Lemma game2_step_invariant e s s' :
  Game2Invariant s -> step rs key (S fuel) e s = Some s' -> Game2Invariant s'.
Proof.
  intros Hinv. pose proof Hinv as ([q [Hq Hgen]] & Hn).
  destruct e as [opt | | k outcome]; cbn [step].
  - destruct (isAnswered s) eqn:Hopen.
    + unfold handleAnswer. rewrite Hopen. intros H. apply some_injective in H.
      now subst s'.
    + destruct (game2_handleAnswer_fields opt s q Hq Hopen)
        as (s1 & E & Hq1 & Ha1 & _ & Hn1 & _).
      rewrite E. intros H. apply some_injective in H. subst s'.
      split; [now exists q |]. now rewrite Ha1, Hn1, Hn.
  - destruct (nextTimers s) as [| pending] eqn:Hp; [discriminate |].
    match goal with
    | |- generateQuestion rs (S fuel) ?st = _ -> _ =>
        destruct (game2_generateQuestion_fields st)
          as (s1 & E & Hq1 & Ha1 & _ & _ & _ & Hn1 & _)
    end.
    rewrite E. intros H. apply some_injective in H. subst s'.
    cbn [nextTimers] in Hn1.
    split; [exact Hq1 |]. rewrite Ha1, Hn1.
    destruct (isAnswered s); [congruence | discriminate].
  - destruct (settle k outcome (hook s) (inflight s)) as [[hook' inflight'] |];
      [| discriminate].
    intros H. apply some_injective in H. subst s'. exact Hinv.
Qed.

Lemma game2_reachable_invariant s :
  reachable rs key (S fuel) s -> Game2Invariant s.
Proof.
  induction 1 as [s Hinit | s e s' _ IH Hstep].
  - destruct game2_initial_invariant as (s0 & E & Hinv).
    rewrite E in Hinit. apply some_injective in Hinit. now subst s.
  - exact (game2_step_invariant e s s' IH Hstep).
Qed.

Lemma game2_answer_listed q :
  Game2Generated q ->
  exists ans,
    answer q = Some ans /\ In ans (options q) /\
    (length (options q) = 2 \/ length (options q) = 4)%nat.
Proof.
  intros (_ & _ & _ & Hshape).
  destruct Hshape as [_ Hans Hperm | x0 _ _ _ _ Hans Hperm | x pointY _ _ _ Hans Hopts].
  - eexists. split; [exact Hans |].
    split; [eapply Permutation_in; [exact Hperm | now left] |].
    right. now rewrite <- (Permutation_length Hperm).
  - eexists. split; [exact Hans |].
    split; [eapply Permutation_in; [exact Hperm | now left] |].
    right. now rewrite <- (Permutation_length Hperm).
  - eexists. split; [exact Hans |]. rewrite Hopts.
    split; [| now left].
    destruct (pointY =? a q * x + b q); [now left | right; now left].
Qed.

(** X8.  Game 2 never throws and never stalls.  Under a valid source
    the first question exists, and in every reachable state a question
    is present (the spinner is not shown again), so a click on an option
    never reads a field of [null]; a next-question callback is pending
    exactly when the question is locked, and then only one; from a
    locked state it yields an open state with no selection, no feedback
    message and the same score. *)
Theorem game2_never_throws :
  (exists s0, initial rs (S fuel) = Some s0) /\
  forall s,
    reachable rs key (S fuel) s ->
    (exists q, question s = Some q) /\
    Game2View.render s <> Game2View.Spinner /\
    nextTimers s = (if isAnswered s then 1 else 0)%nat /\
    (forall opt, exists s', step rs key (S fuel) (Select opt) s = Some s') /\
    (isAnswered s = true ->
     exists next,
       step rs key (S fuel) NextTimer s = Some next /\
       isAnswered next = false /\ selectedOption next = None /\
       feedback (hook next) = mkMessage "" None /\ score next = score s) /\
    (isAnswered s = false -> step rs key (S fuel) NextTimer s = None).
Proof.
  split; [destruct game2_initial_invariant as (s0 & E & _); now exists s0 |].
  intros s Hreach.
  destruct (game2_reachable_invariant s Hreach) as ([q [Hq Hgen]] & Hn).
  split; [now exists q |].
  split; [unfold Game2View.render; rewrite Hq; discriminate |].
  split; [exact Hn |].
  split; [| split].
  - intros opt. cbn [step]. destruct (isAnswered s) eqn:Hopen.
    + exists s. unfold handleAnswer. now rewrite Hopen.
    + destruct (game2_handleAnswer_fields opt s q Hq Hopen) as (s' & E & _).
      now exists s'.
  - intros Ha. rewrite Ha in Hn. cbn [step]. rewrite Hn.
    match goal with
    | |- context [generateQuestion rs (S fuel) ?st] =>
        destruct (game2_generateQuestion_fields st)
          as (next & E & _ & Ha1 & Hsel & Hf & Hs & _)
    end.
    exists next. cbn [score] in Hs. repeat split; assumption.
  - intros Ha. rewrite Ha in Hn. cbn [step]. now rewrite Hn.
Qed.

(** X9.  In game 2 the right answer can always be chosen.  In every
    reachable state the stored answer is one of the 2 or 4 options
    shown, and while the question is open a click on it is judged
    correct: the score grows by 10 and the feedback is tagged
    [correct]. *)
Theorem game2_answer_is_offered s :
  reachable rs key (S fuel) s ->
  exists q ans,
    question s = Some q /\ answer q = Some ans /\ In ans (options q) /\
    (length (options q) = 2 \/ length (options q) = 4)%nat /\
    (isAnswered s = false ->
     exists s',
       step rs key (S fuel) (Select ans) s = Some s' /\
       score s' = score s + 10 /\
       type (feedback (hook s')) = Some correct).
Proof.
  intros Hreach.
  destruct (game2_reachable_invariant s Hreach) as ([q [Hq Hgen]] & Hn).
  destruct (game2_answer_listed q Hgen) as (ans & Hans & Hin & Hlen).
  exists q, ans. repeat (split; [assumption |]).
  intros Hopen.
  destruct (game2_handleAnswer_fields ans s q Hq Hopen)
    as (s' & E & _ & _ & _ & _ & Hscore & Htype).
  rewrite Hans in Hscore, Htype. cbn [Panel.sameString] in Hscore, Htype.
  rewrite String.eqb_refl in Hscore, Htype.
  exists s'. split; [exact E |]. split; assumption.
Qed.

Lemma game2_chart_plots q x :
  -10 <= x <= 10 -> plotted (Game2View.chartData q) x (a q * x + b q).
Proof.
  intros Hx. exists (Z.to_nat (x + 10)).
  unfold Game2View.chartData. cbn [Panel.labels Panel.data].
  rewrite !Array_from_nth by lia.
  replace (Z.of_nat (Z.to_nat (x + 10)) - 10) with x by lia.
  split; reflexivity.
Qed.

(** X10.  The chart of game 2 answers the question.  It plots the 21
    points of the line with x from -10 to 10, and in every reachable
    state the stored answer is what these points show: the y-intercept
    is the point plotted at x = 0, the x-intercept is a plotted point
    with y = 0, and the point named in a point check has a plotted
    point above its x, which has the same y exactly when the answer is
    yes. *)
Theorem game2_chart_answers_the_question s :
  reachable rs key (S fuel) s ->
  exists q p ans,
    question s = Some q /\ promptText q = Some p /\ answer q = Some ans /\
    length (Panel.labels (Game2View.chartData q)) = 21%nat /\
    length (Panel.data (Game2View.chartData q)) = 21%nat /\
    (forall x y, plotted (Game2View.chartData q) x y <->
                 -10 <= x <= 10 /\ y = a q * x + b q) /\
    ChartAnswer2 (Game2View.chartData q) p ans.
Proof.
  intros Hreach.
  destruct (game2_reachable_invariant s Hreach) as ([q [Hq Hgen]] & _).
  assert (Hplot : forall x y, plotted (Game2View.chartData q) x y <->
                              -10 <= x <= 10 /\ y = a q * x + b q).
  { intros x y. split.
    - intros (i & Hl & Hd).
      apply Array_from_nth_inv in Hl. apply Array_from_nth_inv in Hd.
      destruct Hl as [Hi ->]. destruct Hd as [_ ->]. lia.
    - intros [Hx ->]. now apply game2_chart_plots. }
  destruct Hgen as (Ha & _ & _ & Hshape).
  destruct Hshape as [Hp Hans _ | x0 Hx0 Hrange _ Hp Hans _
                     | x pointY Hx _ Hp Hans _].
  - eexists q, _, _. repeat (split; [eassumption || apply Array_from_length |]).
    apply readYIntercept, Hplot. lia.
  - eexists q, _, _. repeat (split; [eassumption || apply Array_from_length |]).
    apply readXIntercept, Hplot. lia.
  - eexists q, _, _. repeat (split; [eassumption || apply Array_from_length |]).
    destruct (Z.eqb_spec pointY (a q * x + b q)) as [-> | Hne].
    + apply readPointOn, Hplot. lia.
    + apply (readPointOff _ x (a q * x + b q)); [apply Hplot; lia | exact Hne].
Qed.

End Game2Play.

Lemma game2_never_throws_witness :
  Random.valid_source Spec.sampleSource /\
  exists s0, Game2.initial Spec.sampleSource 1 = Some s0.
Proof.
  split; [exact sampleSource_valid |].
  exact (proj1 (game2_never_throws Spec.sampleSource None O sampleSource_valid)).
Defined.

Lemma game2_initial_reachable rs key fuel :
  Random.valid_source rs ->
  exists s0, Game2.initial rs (S fuel) = Some s0 /\ Game2.reachable rs key (S fuel) s0.
Proof.
  intros Hrs. destruct (game2_initial_invariant rs fuel Hrs) as (s0 & E & _).
  exists s0. split; [exact E | now apply Game2.reach_initial].
Qed.

Lemma game2_answer_witness :
  exists s0 q ans,
    Game2.reachable Spec.sampleSource None 1 s0 /\
    Game2.question s0 = Some q /\ Game2.answer q = Some ans /\
    In ans (Game2.options q).
Proof.
  destruct (game2_initial_reachable Spec.sampleSource None O sampleSource_valid)
    as (s0 & _ & Hreach).
  destruct (game2_answer_is_offered Spec.sampleSource None O sampleSource_valid s0 Hreach)
    as (q & ans & Hq & Hans & Hin & _).
  exists s0, q, ans. repeat split; assumption.
Defined.

Lemma game2_chart_witness :
  exists s0 q p ans,
    Game2.reachable Spec.sampleSource None 1 s0 /\
    Game2.question s0 = Some q /\
    Extra.ChartAnswer2 (Game2View.chartData q) p ans.
Proof.
  destruct (game2_initial_reachable Spec.sampleSource None O sampleSource_valid)
    as (s0 & _ & Hreach).
  destruct (game2_chart_answers_the_question Spec.sampleSource None O
              sampleSource_valid s0 Hreach)
    as (q & p & ans & Hq & _ & _ & _ & _ & _ & Hchart).
  exists s0, q, p, ans. repeat split; assumption.
Defined.

Section Game2Loop.
Import Random Game2.

Lemma drawCoefficients_once rs fuel n :
  valid_source rs ->
  drawCoefficients (S fuel) rs n = drawCoefficients 1 rs n.
Proof.
  intros Hrs. cbn [drawCoefficients]. run_rand.
  pose proof (floorTimes_range (rs n) 5 (Hrs n)) as H1.
  pose proof (floorTimes_range (rs (S (S n))) 5 (Hrs (S (S n)))) as H3.
  match goal with
  | |- (if ?c then _ else _) _ _ = _ => destruct c eqn:E
  end; [| reflexivity].
  exfalso. apply Z.eqb_eq in E. revert E.
  destruct (ltHalf (rs (S n))), (ltHalf (rs (S (S (S n))))); nia.
Qed.

End Game2Loop.

(** X11.  The coefficient loop of game 2 never repeats.  Under a valid
    source [b] is a nonzero multiple of the nonzero [a], so the test
    [b === 0] of the [do ... while] fails at its first evaluation: the
    loop body runs once and reads four draws, and the question does not
    depend on how many passes the loop would be allowed. *)
Theorem coefficient_loop_runs_once rs fuel n :
  Random.valid_source rs ->
  Game2.drawCoefficients (S fuel) rs n = Game2.drawCoefficients 1 rs n /\
  snd (Game2.drawCoefficients (S fuel) rs n) = (n + 4)%nat /\
  (exists a b,
     fst (Game2.drawCoefficients (S fuel) rs n) = Some (a, b) /\
     a <> 0 /\ b <> 0 /\ (a | b)) /\
  Game2.newQuestion (S fuel) rs n = Game2.newQuestion 1 rs n.
Proof.
  intros Hrs. split; [now apply drawCoefficients_once |].
  destruct (drawCoefficients_spec rs fuel n Hrs) as (a & b & m & E & Ha & _ & Hm & Hb).
  rewrite E. cbn [fst snd]. split; [lia |]. split.
  - exists a, b. split; [reflexivity |]. split; [exact Ha |].
    split; [destruct Hb; nia |].
    destruct Hb as [-> | ->]; [exists m | exists (- m)]; lia.
  - unfold Game2.newQuestion, Random.bind.
    now rewrite (drawCoefficients_once rs fuel n Hrs).
Qed.

Lemma coefficient_loop_witness :
  Random.valid_source Spec.sampleSource /\
  Game2.newQuestion 7 Spec.sampleSource O = Game2.newQuestion 1 Spec.sampleSource O.
Proof.
  split; [exact sampleSource_valid |].
  exact (proj2 (proj2 (proj2
    (coefficient_loop_runs_once Spec.sampleSource 6 O sampleSource_valid)))).
Defined.

(* ================================================================== *)
(** * Further properties: game 3 *)
(* ================================================================== *)

Section Marks.
Import Panel.

Lemma count_occ_map_iff {A} (f : A -> string) (c : string)
    (eq_dec : forall x y : A, {x = y} + {x <> y}) (v : A) (l : list A) :
  (forall x, In x l -> (f x = c <-> x = v)) ->
  count_occ string_dec (map f l) c = count_occ eq_dec l v.
Proof.
  induction l as [| x l IH]; intros H; [reflexivity |].
  cbn [map count_occ].
  rewrite IH by (intros y Hy; apply H; now right).
  destruct (string_dec (f x) c) as [E | E], (eq_dec x v) as [E' | E'];
    try reflexivity.
  - apply (H x (or_introl eq_refl)) in E. contradiction.
  - apply (H x (or_introl eq_refl)) in E'. contradiction.
Qed.

Lemma count_occ_map_le {A} (f : A -> string) (c : string)
    (eq_dec : forall x y : A, {x = y} + {x <> y}) (v : A) (l : list A) :
  (forall x, In x l -> f x = c -> x = v) ->
  (count_occ string_dec (map f l) c <= count_occ eq_dec l v)%nat.
Proof.
  induction l as [| x l IH]; intros H; [apply le_n |].
  cbn [map count_occ].
  specialize (IH (fun y Hy => H y (or_intror Hy))).
  destruct (string_dec (f x) c) as [E | E], (eq_dec x v) as [E' | E']; try lia.
  apply (H x (or_introl eq_refl)) in E. contradiction.
Qed.

Lemma count_occ_map_none {A} (f : A -> string) (c : string) (l : list A) :
  (forall x, In x l -> f x <> c) -> count_occ string_dec (map f l) c = O.
Proof.
  induction l as [| x l IH]; intros H; [reflexivity |].
  cbn [map count_occ]. rewrite IH by (intros y Hy; apply H; now right).
  destruct (string_dec (f x) c) as [E | E]; [| reflexivity].
  now apply (H x (or_introl eq_refl)) in E.
Qed.

Lemma mapIndexed_constant {A B} (f : A -> B) (l : list A) :
  forall i, mapIndexed (fun x _ => f x) i l = map f l.
Proof.
  induction l as [| x l IH]; intros i; [reflexivity |].
  cbn [mapIndexed map]. now rewrite IH.
Qed.

Lemma optionClass_correct isAnswer isSelected :
  optionClass true isAnswer isSelected = "mcq-btn correct" <-> isAnswer = true.
Proof. destruct isAnswer, isSelected; cbn; split; congruence. Qed.

Lemma optionClass_incorrect isAnswer isSelected :
  optionClass true isAnswer isSelected = "mcq-btn incorrect"
  <-> isAnswer = false /\ isSelected = true.
Proof.
  destruct isAnswer, isSelected; cbn; split;
    try congruence; try (intros [? ?]; congruence); auto.
Qed.

End Marks.

Section Game3Play.
Import Random Feedback Game3 Extra.
Variable rs : source.
Variable key : option string.
Hypothesis Hrs : valid_source rs.

Lemma game3_generateQuestion_fields s :
  let s' := generateQuestion rs s in
  question s' = Some (fst (newQuestion rs (cursor s))) /\
  isAnswered s' = false /\ selectedOption s' = None /\
  feedback (hook s') = mkMessage "" None /\
  score s' = score s /\ nextTimers s' = nextTimers s /\
  inflight s' = inflight s.
Proof.
  unfold generateQuestion. destruct (newQuestion rs (cursor s)) as [q cursor'].
  cbn. repeat split.
Qed.

Lemma game3_handleAnswer_fields opt s q :
  question s = Some q -> isAnswered s = false ->
  exists s',
    handleAnswer key opt s = Some s' /\
    question s' = Some q /\ isAnswered s' = true /\
    selectedOption s' = Some opt /\
    nextTimers s' = S (nextTimers s) /\
    score s' = (if String.eqb opt (answer q) then score s + 10 else score s) /\
    type (feedback (hook s'))
    = Some (if String.eqb opt (answer q) then correct else incorrect).
Proof.
  intros Hq Hopen. unfold handleAnswer. rewrite Hopen, Hq.
  destruct (getFeedback_start _ _ _ _) as [hook' request] eqn:E.
  eexists. split; [reflexivity |].
  cbn [question isAnswered selectedOption nextTimers score hook].
  repeat split. change hook' with (fst (hook', request)). rewrite <- E.
  rewrite getFeedback_start_type. now destruct (String.eqb opt (answer q)).
Qed.

Lemma game3_initial_invariant : Game3Invariant rs (initial rs).
Proof.
  unfold initial.
  match goal with
  | |- context [generateQuestion rs ?st] =>
      destruct (game3_generateQuestion_fields st) as (Hq & Ha & Hsel & _ & _ & Hn & _)
  end.
  split; [eexists; exact Hq |]. split; [now rewrite Ha, Hn | now intros _].
Qed.

Lemma game3_step_invariant e s s' :
  Game3Invariant rs s -> step rs key e s = Some s' -> Game3Invariant rs s'.
Proof.
  intros Hinv. pose proof Hinv as ([n Hq] & Hn & Hsel).
  destruct e as [opt | | k outcome]; cbn [step].
  - destruct (isAnswered s) eqn:Hopen.
    + unfold handleAnswer. rewrite Hopen. intros H. apply some_injective in H.
      now subst s'.
    + destruct (game3_handleAnswer_fields opt s _ Hq Hopen)
        as (s1 & E & Hq1 & Ha1 & _ & Hn1 & _).
      rewrite E. intros H. apply some_injective in H. subst s'.
      split; [now exists n |]. split; [now rewrite Ha1, Hn1, Hn |].
      rewrite Ha1. discriminate.
  - destruct (nextTimers s) as [| pending] eqn:Hp; [discriminate |].
    intros H. apply some_injective in H. subst s'.
    match goal with
    | |- context [generateQuestion rs ?st] =>
        destruct (game3_generateQuestion_fields st) as (Hq1 & Ha1 & Hsel1 & _ & _ & Hn1 & _)
    end.
    cbn [nextTimers] in Hn1.
    split; [eexists; exact Hq1 |]. split; [| now intros _].
    rewrite Ha1, Hn1. destruct (isAnswered s); [congruence | discriminate].
  - destruct (settle k outcome (hook s) (inflight s)) as [[hook' inflight'] |];
      [| discriminate].
    intros H. apply some_injective in H. subst s'. exact Hinv.
Qed.

Lemma game3_reachable_invariant s : reachable rs key s -> Game3Invariant rs s.
Proof.
  induction 1 as [| s e s' _ IH Hstep]; [apply game3_initial_invariant |].
  exact (game3_step_invariant e s s' IH Hstep).
Qed.

(** X12.  Game 3 never throws and never stalls, and its right answer
    can always be chosen.  In every reachable state under a valid source
    a question is present (the spinner is not shown again); its options
    hold no duplicate and hold the stored answer exactly once; a click on an option never reads a field
    of [null], and while the question is open a click on the answer
    adds 10 to the score under the tag [correct]; a next-question
    callback is pending exactly when the question is locked, and it
    yields an open state with the same score. *)
Theorem game3_never_throws s :
  reachable rs key s ->
  exists q,
    question s = Some q /\
    Game3View.render s <> Game3View.Spinner /\
    NoDup (options q) /\ count_occ string_dec (options q) (answer q) = 1%nat /\
    nextTimers s = (if isAnswered s then 1 else 0)%nat /\
    (forall opt, exists s', step rs key (Select opt) s = Some s') /\
    (isAnswered s = false ->
     step rs key NextTimer s = None /\
     exists s',
       step rs key (Select (answer q)) s = Some s' /\
       score s' = score s + 10 /\ type (feedback (hook s')) = Some correct) /\
    (isAnswered s = true ->
     exists next,
       step rs key NextTimer s = Some next /\
       isAnswered next = false /\ selectedOption next = None /\
       feedback (hook next) = mkMessage "" None /\ score next = score s).
Proof.
  intros Hreach.
  destruct (game3_reachable_invariant s Hreach) as ([n Hq] & Hn & _).
  destruct (game3_options_hold_answer_once rs n Hrs) as [Hnodup Hcount].
  eexists. split; [exact Hq |].
  split; [unfold Game3View.render; rewrite Hq; discriminate |].
  split; [exact Hnodup |]. split; [exact Hcount |].
  split; [exact Hn |]. split; [| split].
  - intros opt. cbn [step]. destruct (isAnswered s) eqn:Hopen.
    + exists s. unfold handleAnswer. now rewrite Hopen.
    + destruct (game3_handleAnswer_fields opt s _ Hq Hopen) as (s' & E & _).
      now exists s'.
  - intros Hopen. rewrite Hopen in Hn. cbn [step]. rewrite Hn.
    split; [reflexivity |].
    destruct (game3_handleAnswer_fields (answer (fst (newQuestion rs n))) s _ Hq Hopen)
      as (s' & E & _ & _ & _ & _ & Hscore & Htype).
    rewrite String.eqb_refl in Hscore, Htype.
    exists s'. repeat split; assumption.
  - intros Ha. rewrite Ha in Hn. cbn [step]. rewrite Hn.
    eexists. split; [reflexivity |].
    match goal with
    | |- context [generateQuestion rs ?st] =>
        destruct (game3_generateQuestion_fields st) as (_ & Ha1 & Hsel1 & Hf & Hs & _)
    end.
    repeat split; assumption.
Qed.

(** X13.  The option buttons of game 3.  The buttons show the options
    in order and are disabled exactly while the question is locked.
    While it is open every button carries the class [mcq-btn false].
    Once it is locked exactly one button is marked [correct], the one
    whose text is the stored answer; at most one is marked [incorrect],
    and a button is so marked exactly when it is the one selected and
    its text is not the answer. *)
Theorem game3_marks_the_answer s q :
  reachable rs key s -> question s = Some q ->
  let shown := Game3View.buttons q (isAnswered s) (selectedOption s) in
  map Panel.text shown = options q /\
  Forall (fun button => Panel.disabled button = isAnswered s) shown /\
  (isAnswered s = false ->
   Forall (fun button => Panel.className button = "mcq-btn false") shown) /\
  (isAnswered s = true ->
   marked "mcq-btn correct" shown = 1%nat /\
   (marked "mcq-btn incorrect" shown <= 1)%nat /\
   Forall (fun button =>
             (Panel.className button = "mcq-btn correct"
              <-> Panel.text button = answer q) /\
             (Panel.className button = "mcq-btn incorrect"
              <-> Panel.text button <> answer q /\
                  selectedOption s = Some (Panel.text button)))
          shown).
Proof.
  intros Hreach Hq shown.
  destruct (game3_reachable_invariant s Hreach) as ([n Hq'] & _ & _).
  assert (q = fst (newQuestion rs n)) by congruence. subst q.
  destruct (game3_options_hold_answer_once rs n Hrs) as [Hnodup Hcount].
  set (q := fst (newQuestion rs n)) in *.
  subst shown. unfold Game3View.buttons. rewrite mapIndexed_constant.
  split; [rewrite map_map; cbn [Panel.text]; apply map_id |].
  split; [apply Forall_map, Forall_forall; intros opt _; reflexivity |].
  split.
  - intros Hopen. rewrite Hopen.
    apply Forall_map, Forall_forall. intros opt _. reflexivity.
  - intros Ha. rewrite Ha. unfold marked. rewrite !map_map. cbn [Panel.className].
    assert (Hsel : forall opt,
               Panel.sameString opt (selectedOption s) = true
               <-> selectedOption s = Some opt).
    { intros opt. unfold Panel.sameString.
      destruct (selectedOption s) as [w |]; [| split; discriminate].
      rewrite String.eqb_eq. split; congruence. }
    split; [| split].
    + rewrite (count_occ_map_iff _ _ string_dec (answer q)); [exact Hcount |].
      intros opt _. rewrite optionClass_correct. apply String.eqb_eq.
    + destruct (selectedOption s) as [w |] eqn:Esel.
      * transitivity (count_occ string_dec (options q) w).
        -- apply count_occ_map_le. intros opt _ H.
           apply optionClass_incorrect in H. destruct H as [_ H].
           apply Hsel in H. congruence.
        -- now apply NoDup_count_occ.
      * rewrite count_occ_map_none; [apply Nat.le_0_l |].
        intros opt _ H. apply optionClass_incorrect in H. destruct H as [_ H].
        apply Hsel in H. discriminate.
    + apply Forall_map, Forall_forall. intros opt _. cbn [Panel.className Panel.text].
      rewrite optionClass_correct, optionClass_incorrect, String.eqb_eq, Hsel.
      split; [reflexivity |].
      rewrite <- String.eqb_neq, <- Bool.not_true_iff_false. reflexivity.
Qed.

Lemma game3_chart_plots q x :
  -10 <= x <= 10 -> plotted (Game3View.chartData q) x (a q * x + b q).
Proof.
  intros Hx. exists (Z.to_nat (x + 10)).
  unfold Game3View.chartData. cbn [Panel.labels Panel.data].
  rewrite !Array_from_nth by lia.
  replace (Z.of_nat (Z.to_nat (x + 10)) - 10) with x by lia.
  split; reflexivity.
Qed.

(** X14.  The chart of game 3 answers the question.  It plots the 21
    points of the line with x from -10 to 10, and in every reachable
    state under a valid source the stored answer is what the points
    plotted at x = 0 and x = 1 show: the equation has the rise between
    them as its slope and the first as its constant; the function is
    increasing or decreasing as the second lies above or below the
    first; and the signs of a and b are those of the rise and of the
    first. *)
Theorem game3_chart_answers_the_question s q :
  reachable rs key s -> question s = Some q ->
  length (Panel.labels (Game3View.chartData q)) = 21%nat /\
  length (Panel.data (Game3View.chartData q)) = 21%nat /\
  (forall x y, plotted (Game3View.chartData q) x y <->
               -10 <= x <= 10 /\ y = a q * x + b q) /\
  ChartAnswer3 (Game3View.chartData q) (promptText q) (answer q).
Proof.
  intros Hreach Hq.
  destruct (game3_reachable_invariant s Hreach) as ([n Hq'] & _ & _).
  assert (q = fst (newQuestion rs n)) by congruence. subst q.
  destruct (game3_newQuestion_right rs n Hrs) as (Ha & Hb & Hright).
  set (q := fst (newQuestion rs n)) in *.
  split; [apply Array_from_length |]. split; [apply Array_from_length |].
  split.
  - intros x y. split.
    + intros (i & Hl & Hd).
      apply Array_from_nth_inv in Hl. apply Array_from_nth_inv in Hd.
      destruct Hl as [Hi ->]. destruct Hd as [_ ->]. lia.
    + intros [Hx ->]. now apply game3_chart_plots.
  - pose proof (game3_chart_plots q 0 ltac:(lia)) as H0.
    pose proof (game3_chart_plots q 1 ltac:(lia)) as H1.
    inversion Hright as [| Hpos | Hneg | signA signB HsA HsB].
    + replace (a q) with ((a q * 1 + b q) - (a q * 0 + b q)) at 1 by lia.
      replace (b q) with (a q * 0 + b q) at 3 by lia.
      now apply readEquation.
    + apply (readIncreasing _ _ _ H0 H1). lia.
    + apply (readDecreasing _ _ _ H0 H1). lia.
    + apply (readSigns _ _ _ _ _ H0 H1).
      * replace (a q * 1 + b q - (a q * 0 + b q)) with (a q) by lia. exact HsA.
      * replace (a q * 0 + b q) with (b q) by lia. exact HsB.
Qed.

End Game3Play.

Lemma game3_never_throws_witness :
  Random.valid_source Spec.sampleSource /\
  exists q,
    Game3.question (Game3.initial Spec.sampleSource) = Some q /\
    NoDup (Game3.options q).
Proof.
  split; [exact sampleSource_valid |].
  destruct (game3_never_throws Spec.sampleSource None sampleSource_valid
              (Game3.initial Spec.sampleSource) (Game3.reach_initial _ _))
    as (q & Hq & _ & Hnodup & _).
  exists q. split; assumption.
Defined.

Lemma game3_marks_witness :
  Game3.reachable Spec.sampleSource None (Game3.initial Spec.sampleSource) /\
  exists q,
    Game3.question (Game3.initial Spec.sampleSource) = Some q /\
    map Panel.text (Game3View.buttons q false None) = Game3.options q.
Proof.
  split; [apply Game3.reach_initial |].
  exists (fst (Game3.newQuestion Spec.sampleSource O)).
  split; [vm_compute; reflexivity |].
  exact (proj1 (game3_marks_the_answer Spec.sampleSource None sampleSource_valid
                  (Game3.initial Spec.sampleSource)
                  (fst (Game3.newQuestion Spec.sampleSource O))
                  (Game3.reach_initial _ _) eq_refl)).
Defined.

Lemma game3_chart_witness :
  Game3.reachable Spec.sampleSource None (Game3.initial Spec.sampleSource) /\
  exists q,
    Game3.question (Game3.initial Spec.sampleSource) = Some q /\
    Extra.ChartAnswer3 (Game3View.chartData q) (Game3.promptText q) (Game3.answer q).
Proof.
  split; [apply Game3.reach_initial |].
  exists (fst (Game3.newQuestion Spec.sampleSource O)).
  split; [vm_compute; reflexivity |].
  exact (proj2 (proj2 (proj2
    (game3_chart_answers_the_question Spec.sampleSource None sampleSource_valid
       (Game3.initial Spec.sampleSource)
       (fst (Game3.newQuestion Spec.sampleSource O))
       (Game3.reach_initial _ _) eq_refl)))).
Defined.

(* ================================================================== *)
(** * Further properties: the quiz *)
(* ================================================================== *)

Section QuizPlay.
Import Feedback Game4 Spec Extra.
Variable rs : Random.source.
Variable key : option string.

(** A selection, right or wrong, or a timeout (index [-1]), followed by
    the scheduled [nextQuestion]. *)
Lemma game4_answerAndAdvance_any w optionIndex slot :
  QuizInvariant w -> isAnswered w = false ->
  nth_error (questions w) (currentQIndex w) = Some slot ->
  let score' := if match slot with
                   | Some q => optionIndex =? answerIndex q
                   | None => false
                   end then score w + 10 else score w in
  answerAndAdvance rs key optionIndex w =
    Some (if Z.of_nat (currentQIndex w) <? 9 then
            mkState (questions w) (S (currentQIndex w)) score' 15 false None
                    false (hook w) (inflight w) (cursor w) []
          else
            let started :=
              getFeedback_start (ai key) (promptFinal (JS.divide (score w) 10))
                                correct (hook w) in
            mkState (questions w) (currentQIndex w) score' (timeLeft w) true
                    (Some optionIndex) true (fst started)
                    (enqueue (inflight w) (snd started) correct) (cursor w) []).
Proof.
  intros Hinv Hans Hnth score'.
  destruct (game4_open_state w Hinv Hans) as (Hover & Htimers & Hlen).
  unfold answerAndAdvance. cbn [step].
  rewrite (game4_handleAnswer_open optionIndex w slot Hans Hnth).
  fold score'. rewrite Htimers, Hlen, Hover. cbn [app step nextTimers].
  unfold nextQuestion. quiz_fields.
  change (Z.of_nat 10 - 1) with 9.
  destruct (Z.of_nat (currentQIndex w) <? 9).
  - reflexivity.
  - destruct (getFeedback_start _ _ _ _) as [h request]. reflexivity.
Qed.

Lemma quizRun_app events1 :
  forall events2 s,
    quizRun rs key (events1 ++ events2) s
    = match quizRun rs key events1 s with
      | Some s' => quizRun rs key events2 s'
      | None => None
      end.
Proof.
  induction events1 as [| e events1 IH]; intros events2 s; [reflexivity |].
  cbn [app quizRun]. destruct (step rs key e s); [apply IH | reflexivity].
Qed.

(** Letting the countdown of a fresh question run out is the selection
    of index [-1] at time 0. *)
Lemma game4_timeout_run s :
  QuizInvariant s -> isAnswered s = false -> timeLeft s = 15 ->
  quizRun rs key (repeat Tick (Z.to_nat (timeLeft s))) s
  = step rs key (Select (-1)) (setTimeLeft 0 s).
Proof.
  intros Hinv Hans Htime.
  destruct (game4_open_state s Hinv Hans) as (Hover & _ & _).
  rewrite Htime. change (Z.to_nat 15) with (S 14).
  rewrite repeat_snoc, quizRun_app.
  rewrite game4_ticks by (try assumption; lia).
  cbn [quizRun step]. quiz_fields. rewrite ?Hover, ?Hans, ?Htime. cbn [orb].
  change (15 - Z.of_nat 14 - 1) with 0.
  unfold timerEffect. quiz_fields. rewrite ?Hover, ?Hans. cbn [orb].
  change (0 >? 0) with false. cbv iota.
  destruct (handleAnswer (-1) _); reflexivity.
Qed.

Lemma game4_answerAndAdvance_invariant optionIndex w s' :
  QuizInvariant w -> answerAndAdvance rs key optionIndex w = Some s' ->
  QuizInvariant s'.
Proof.
  intros Hw H. unfold answerAndAdvance in H.
  destruct (step rs key (Select optionIndex) w) as [mid |] eqn:E1; [| discriminate].
  apply (game4_step_invariant rs key NextTimer mid s'); [| exact H].
  apply (game4_step_invariant rs key (Select optionIndex) w mid Hw E1).
Qed.

(** One round, from the start of question [i]. *)
Lemma game4_round i k m s slot :
  RoundAt i k s -> inTime m ->
  nth_error (questions s) i = Some slot ->
  let k' := k + (if judgedCorrect slot m then 1 else 0) in
  exists s',
    playRound rs key m s = Some s' /\
    questions s' = questions s /\
    score s' = 10 * k' /\
    if Z.of_nat i <? 9
    then RoundAt (S i) k' s' /\ hook s' = hook s /\ inflight s' = inflight s
    else QuizInvariant s' /\ isGameOver s' = true /\ currentQIndex s' = 9%nat /\
         hook s' = fst (getFeedback_start (ai key) (promptFinal k) correct (hook s)) /\
         inflight s'
         = enqueue (inflight s)
             (snd (getFeedback_start (ai key) (promptFinal k) correct (hook s)))
             correct.
Proof.
  intros (Hinv & Hi & Hscore & Hans & Htime) Hm Hnth k'.
  destruct (game4_open_state s Hinv Hans) as (Hover & Htimers & Hlen).
  assert (Hidx : (i < 10)%nat) by (destruct Hinv as (_ & _ & Hidx & _); lia).
  assert (Hslot : indexedSlot slot).
  { destruct Hinv as (_ & Hall & _). rewrite Forall_forall in Hall.
    apply Hall. eapply nth_error_In. exact Hnth. }
  assert (Hround :
    exists w optionIndex,
      playRound rs key m s = answerAndAdvance rs key optionIndex w /\
      QuizInvariant w /\ isAnswered w = false /\
      questions w = questions s /\ currentQIndex w = i /\ score w = score s /\
      hook w = hook s /\ inflight w = inflight s /\
      match slot with
      | Some q => optionIndex =? answerIndex q
      | None => false
      end = judgedCorrect slot m).
  { destruct m as [delay optionIndex |].
    - exists (setTimeLeft (timeLeft s - Z.of_nat delay) s), optionIndex.
      cbn [playRound inTime] in *.
      rewrite game4_ticks by (try assumption; lia).
      split; [reflexivity |]. split; [exact Hinv |].
      unfold setTimeLeft. cbn [isAnswered questions currentQIndex score hook inflight].
      repeat (split; [assumption || reflexivity |]).
      destruct slot; reflexivity.
    - exists (setTimeLeft 0 s), (-1).
      cbn [playRound]. rewrite game4_timeout_run by assumption.
      split; [reflexivity |]. split; [exact Hinv |].
      unfold setTimeLeft. cbn [isAnswered questions currentQIndex score hook inflight].
      repeat (split; [assumption || reflexivity |]).
      destruct slot as [q |]; [| reflexivity]. cbn [judgedCorrect].
      cbn [indexedSlot] in Hslot. apply Z.eqb_neq. lia. }
  destruct Hround as (w & optionIndex & Hplay & Hw & Hwans & Hwq & Hwi & Hws & Hwh & Hwf & Hjudge).
  rewrite <- Hwq, <- Hwi in Hnth.
  pose proof (game4_answerAndAdvance_any w optionIndex slot Hw Hwans Hnth) as Hrun.
  cbv zeta in Hrun. rewrite Hjudge in Hrun.
  pose proof (game4_answerAndAdvance_invariant optionIndex w _ Hw Hrun) as Hinv'.
  rewrite Hplay, Hrun. eexists. split; [reflexivity |].
  revert Hinv'. rewrite Hwi, Hwq, Hws, Hwh, Hwf, Hscore.
  assert (Hdiv : JS.divide (10 * k) 10 = k)
    by (unfold JS.divide; rewrite Z.mul_comm; apply Z.div_mul; lia).
  rewrite Hdiv.
  assert (Hk' : (if judgedCorrect slot m then 10 * k + 10 else 10 * k) = 10 * k')
    by (subst k'; destruct (judgedCorrect slot m); lia).
  rewrite Hk'.
  destruct (Z.ltb_spec (Z.of_nat i) 9) as [Hlt | Hge]; intros Hinv'.
  - cbn [questions score hook inflight].
    split; [reflexivity |]. split; [reflexivity |].
    split; [| split; reflexivity].
    unfold RoundAt. cbn [currentQIndex score isAnswered timeLeft].
    split; [exact Hinv' |]. repeat split.
  - cbv zeta in Hinv' |- *. cbn [questions score isGameOver currentQIndex hook inflight].
    split; [reflexivity |]. split; [reflexivity |].
    split; [exact Hinv' |]. split; [reflexivity |].
    split; [lia |]. split; reflexivity.
Qed.

Lemma nth_error_skipn {A} (l : list A) i x :
  nth_error l i = Some x -> skipn i l = x :: skipn (S i) l.
Proof.
  revert i. induction l as [| y l IH]; intros [| i] H; try discriminate.
  - cbn in H. apply some_injective in H. now subst.
  - cbn [skipn]. apply IH. exact H.
Qed.

Lemma correctMoves_nil questions : correctMoves questions [] = 0.
Proof. destruct questions; reflexivity. Qed.

(** The rounds that remain from question [i] on: the quiz ends after
    the tenth question with 10 points per correct click, and the one
    call for a comment carries the count of correct answers before the
    last round. *)
Lemma game4_play_any moves :
  forall i k s,
    RoundAt i k s -> (i + length moves = 10)%nat -> moves <> [] ->
    Forall inTime moves ->
    exists final,
      play rs key moves s = Some final /\
      QuizInvariant final /\ isGameOver final = true /\
      questions final = questions s /\ currentQIndex final = 9%nat /\
      score final = 10 * (k + correctMoves (skipn i (questions s)) moves) /\
      let k9 := k + correctMoves (skipn i (questions s)) (removelast moves) in
      hook final = fst (getFeedback_start (ai key) (promptFinal k9) correct (hook s)) /\
      inflight final
      = enqueue (inflight s)
          (snd (getFeedback_start (ai key) (promptFinal k9) correct (hook s)))
          correct.
Proof.
  induction moves as [| m rest IH]; intros i k s Hstart Hlen Hne Hall;
    [contradiction |].
  inversion Hall as [| m' rest' Hm Hrest]; subst.
  cbn [length] in Hlen. cbn [play].
  pose proof Hstart as (Hinv & Hi & _).
  destruct (game4_current_slot s Hinv) as (slot & Hnth & _).
  rewrite Hi in Hnth.
  destruct (game4_round i k m s slot Hstart Hm Hnth)
    as (s' & Hround & Hq & Hscore & Hnext).
  cbv zeta in Hscore, Hnext.
  rewrite Hround, (nth_error_skipn _ _ _ Hnth). cbn [correctMoves].
  destruct rest as [| m2 rest].
  - cbn [length] in Hlen.
    assert (Hi9 : (Z.of_nat i <? 9) = false) by (apply Z.ltb_ge; lia).
    rewrite Hi9 in Hnext.
    destruct Hnext as (Hinv' & Hover & Hidx & Hhook & Hflight).
    exists s'. cbn [play removelast].
    split; [reflexivity |]. split; [exact Hinv' |]. split; [exact Hover |].
    split; [exact Hq |]. split; [exact Hidx |].
    rewrite !correctMoves_nil.
    split; [rewrite Hscore; lia |].
    cbv zeta. rewrite Z.add_0_r. split; assumption.
  - cbn [length] in Hlen.
    assert (Hi9 : (Z.of_nat i <? 9) = true) by (apply Z.ltb_lt; lia).
    rewrite Hi9 in Hnext. destruct Hnext as (Hstart' & Hhook & Hflight).
    destruct (IH (S i) _ s' Hstart') as (final & Hplay & Hinv' & Hover & Hq' & Hidx & Hfinal & Hcall);
      [cbn [length] in *; lia | discriminate | exact Hrest |].
    exists final. split; [exact Hplay |]. split; [exact Hinv' |].
    split; [exact Hover |]. split; [congruence |]. split; [exact Hidx |].
    rewrite Hq in Hfinal, Hcall. rewrite Hhook, Hflight in Hcall.
    split; [rewrite Hfinal; lia |].
    cbv zeta in Hcall |- *.
    change (removelast (m :: m2 :: rest)) with (m :: removelast (m2 :: rest)).
    cbn [correctMoves].
    rewrite Z.add_assoc. exact Hcall.
Qed.

Lemma game4_initial_start s0 :
  initial rs = Some s0 ->
  RoundAt 0 0 s0 /\ hook s0 = initialHook /\ inflight s0 = [] /\ QuizFrom rs s0.
Proof.
  intros Hinit.
  assert (Hinv : QuizInvariant s0)
    by (apply (game4_reachable_invariant rs key), reach_initial; exact Hinit).
  unfold initial, resetGame in Hinit. cbn [cursor] in Hinit.
  assert (Hfrom : exists n, fst (generateQuiz rs O) = fst (generateQuiz rs n))
    by (now exists O).
  destruct (generateQuiz rs O) as [qs n']. cbn [fst] in Hfrom.
  unfold timerEffect in Hinit. cbn in Hinit.
  apply some_injective in Hinit. subst s0.
  unfold RoundAt, QuizFrom. cbn [questions currentQIndex score isAnswered timeLeft hook inflight].
  split; [split; [exact Hinv | repeat split] |].
  split; [reflexivity |]. split; [reflexivity | exact Hfrom].
Qed.

Lemma correctMoves_range questions :
  forall moves,
    0 <= correctMoves questions moves <= Z.of_nat (length moves).
Proof.
  induction questions as [| slot questions IH]; intros [| m moves];
    cbn [correctMoves length]; try lia.
  specialize (IH moves). destruct (judgedCorrect slot m); lia.
Qed.

Lemma correctMoves_last questions :
  forall moves,
    moves <> [] -> (length moves <= length questions)%nat ->
    correctMoves questions moves
    = correctMoves questions (removelast moves)
      + (if judgedCorrect (nth (length moves - 1) questions None)
                          (last moves LetTimeout)
         then 1 else 0).
Proof.
  induction questions as [| slot questions IH]; intros [| m moves] Hne Hlen;
    try contradiction; [cbn in Hlen; lia |].
  destruct moves as [| m2 moves].
  - cbn [removelast last length Nat.sub nth correctMoves].
    rewrite !correctMoves_nil. lia.
  - change (removelast (m :: m2 :: moves)) with (m :: removelast (m2 :: moves)).
    change (last (m :: m2 :: moves) LetTimeout) with (last (m2 :: moves) LetTimeout).
    cbn [correctMoves]. cbn [length] in Hlen.
    rewrite (IH (m2 :: moves)) by (discriminate || (cbn [length]; lia)).
    cbn [length Nat.sub nth]. rewrite Nat.sub_0_r. lia.
Qed.

End QuizPlay.

(** X15.  The score of the quiz counts the correct clicks.  Whatever a
    student does in each of the ten rounds (a click on any index within
    the fifteen seconds, or no click until the countdown ends), the quiz
    ends after the tenth round with 10 points for every round whose
    click hit the index recorded for its question: a timeout and a click
    elsewhere score nothing.  The results panel shows that score and
    that number of correct answers out of 10. *)
Theorem quiz_score_counts_correct_clicks rs key moves :
  length moves = 10%nat -> Forall Extra.inTime moves ->
  exists s0 final,
    Game4.initial rs = Some s0 /\
    Extra.play rs key moves s0 = Some final /\
    Game4.isGameOver final = true /\
    Game4.questions final = Game4.questions s0 /\
    0 <= Extra.correctMoves (Game4.questions s0) moves <= 10 /\
    Game4.score final = 10 * Extra.correctMoves (Game4.questions s0) moves /\
    Game4.render final =
      Game4.ResultsPanel
        ("Điểm số của bạn: "
         +++ JS.toString (10 * Extra.correctMoves (Game4.questions s0) moves))
        ("Số câu đúng: "
         +++ JS.toString (Extra.correctMoves (Game4.questions s0) moves) +++ " / 10")
        (Feedback.message (Feedback.feedback (Game4.hook final))).
Proof.
  intros Hlen Hall.
  destruct (game4_initial_exists rs) as [s0 Hinit].
  destruct (game4_initial_start rs key s0 Hinit) as (Hstart & _ & _ & _).
  destruct (game4_play_any rs key moves O 0 s0 Hstart)
    as (final & Hplay & Hinv & Hover & Hq & _ & Hscore & _);
    [rewrite Hlen; reflexivity | intros E; rewrite E in Hlen; discriminate
    | exact Hall |].
  cbn [skipn] in Hscore. rewrite Z.add_0_l in Hscore.
  exists s0, final. split; [exact Hinit |]. split; [exact Hplay |].
  split; [exact Hover |]. split; [exact Hq |].
  pose proof (correctMoves_range (Game4.questions s0) moves) as Hrange.
  rewrite Hlen in Hrange. split; [exact Hrange |]. split; [exact Hscore |].
  unfold Game4.render. rewrite Hover, Hscore.
  destruct Hinv as (Hten & _). rewrite Hten. cbn [Nat.eqb].
  unfold JS.divide. rewrite Z.mul_comm, Z.div_mul by lia. reflexivity.
Qed.

Lemma quiz_score_witness :
  exists s0 final,
    Game4.initial Spec.sampleSource = Some s0 /\
    Extra.play Spec.sampleSource None
      [Extra.Click 3 0; Extra.LetTimeout; Extra.Click 0 1; Extra.Click 14 2;
       Extra.LetTimeout; Extra.Click 1 0; Extra.Click 2 3; Extra.Click 0 0;
       Extra.LetTimeout; Extra.Click 5 1] s0 = Some final /\
    Game4.isGameOver final = true.
Proof.
  destruct (quiz_score_counts_correct_clicks Spec.sampleSource None
              [Extra.Click 3 0; Extra.LetTimeout; Extra.Click 0 1; Extra.Click 14 2;
               Extra.LetTimeout; Extra.Click 1 0; Extra.Click 2 3; Extra.Click 0 0;
               Extra.LetTimeout; Extra.Click 5 1])
    as (s0 & final & Hinit & Hplay & Hover & _);
    [reflexivity | repeat (apply Forall_cons; [cbn; lia |]); apply Forall_nil |].
  exists s0, final. repeat split; assumption.
Defined.

(** X16.  The closing comment is asked about the first nine rounds
    only.  With a configured key the one request the quiz makes carries
    the number of correct answers of rounds one to nine, the score the
    scheduled [nextQuestion] captured before the tenth answer was
    counted, while the results panel reads the current score: when the
    tenth answer is correct the prompt reports one correct answer fewer
    than the panel shows.  Until the request settles the loading flag
    is set. *)
Theorem final_comment_misses_the_last_answer rs key moves :
  Feedback.ai key = true ->
  length moves = 10%nat -> Forall Extra.inTime moves ->
  exists s0 final,
    Game4.initial rs = Some s0 /\
    Extra.play rs key moves s0 = Some final /\
    let counted := Extra.correctMoves (Game4.questions s0) (removelast moves) in
    Game4.inflight final
    = [(Feedback.mkRequest "gemini-2.5-flash" (Game4.promptFinal counted),
        Feedback.correct)] /\
    Feedback.isLoading (Game4.hook final) = true /\
    Game4.score final
    = 10 * (counted
            + (if Extra.judgedCorrect (nth 9 (Game4.questions s0) None)
                                      (last moves Extra.LetTimeout)
               then 1 else 0)).
Proof.
  intros Hkey Hlen Hall.
  destruct (game4_initial_exists rs) as [s0 Hinit].
  destruct (game4_initial_start rs key s0 Hinit) as (Hstart & Hhook & Hflight & _).
  assert (Hne : moves <> []) by (intros E; rewrite E in Hlen; discriminate).
  destruct (game4_play_any rs key moves O 0 s0 Hstart)
    as (final & Hplay & Hinv & _ & _ & _ & Hscore & Hcall);
    [rewrite Hlen; reflexivity | exact Hne | exact Hall |].
  cbn [skipn] in Hscore, Hcall. cbv zeta in Hcall.
  rewrite Z.add_0_l in Hscore, Hcall.
  destruct Hcall as [Hh Hf]. rewrite Hflight in Hf.
  unfold Feedback.getFeedback_start in Hh, Hf. rewrite Hkey in Hh, Hf.
  cbn in Hh, Hf.
  exists s0, final. split; [exact Hinit |]. split; [exact Hplay |].
  cbv zeta. split; [exact Hf |]. split; [rewrite Hh; reflexivity |].
  rewrite Hscore. f_equal.
  rewrite (correctMoves_last (Game4.questions s0) moves Hne).
  - rewrite Hlen. reflexivity.
  - destruct Hstart as ((Hten & _) & _). rewrite Hlen, Hten. apply le_n.
Qed.

Lemma final_comment_witness :
  exists s0 final,
    Game4.initial Spec.zeroSource = Some s0 /\
    Extra.play Spec.zeroSource (Some "key") (repeat (Extra.Click 0 0) 10) s0
      = Some final /\
    Game4.score final = 100 /\
    Game4.inflight final
    = [(Feedback.mkRequest "gemini-2.5-flash" (Game4.promptFinal 9),
        Feedback.correct)].
Proof.
  destruct (final_comment_misses_the_last_answer Spec.zeroSource (Some "key")
              (repeat (Extra.Click 0 0) 10))
    as (s0 & final & Hinit & Hplay & Hcall & _ & Hscore);
    [reflexivity | reflexivity
    | repeat (apply Forall_cons; [cbn; lia |]); apply Forall_nil |].
  exists s0, final. split; [exact Hinit |]. split; [exact Hplay |].
  assert (E : s0 = match Game4.initial Spec.zeroSource with
                   | Some s => s
                   | None => s0
                   end) by (rewrite Hinit; reflexivity).
  split.
  - rewrite Hscore, E. vm_compute. reflexivity.
  - rewrite Hcall, E. vm_compute. reflexivity.
Defined.

(** X17.  Without a key the results panel praises every result.  The
    closing call is tagged [correct] whatever the score, so with no
    client the panel shows the fallback for a correct answer, also
    after ten timeouts; no request is made and the loading spinner is
    not shown. *)
Theorem results_praise_any_score rs key moves :
  Feedback.ai key = false ->
  length moves = 10%nat -> Forall Extra.inTime moves ->
  exists s0 final,
    Game4.initial rs = Some s0 /\
    Extra.play rs key moves s0 = Some final /\
    Game4.isGameOver final = true /\
    Game4.inflight final = [] /\
    Game4View.resultsFeedback final
    = Panel.mkFeedbackPanel "feedback-panel correct"
                            (Panel.Text "Chính xác! Làm tốt lắm!").
Proof.
  intros Hkey Hlen Hall.
  destruct (game4_initial_exists rs) as [s0 Hinit].
  destruct (game4_initial_start rs key s0 Hinit) as (Hstart & Hhook & Hflight & _).
  destruct (game4_play_any rs key moves O 0 s0 Hstart)
    as (final & Hplay & _ & Hover & _ & _ & _ & Hcall);
    [rewrite Hlen; reflexivity | intros E; rewrite E in Hlen; discriminate
    | exact Hall |].
  cbv zeta in Hcall. destruct Hcall as [Hh Hf].
  rewrite Hflight in Hf. rewrite Hhook in Hh.
  unfold Feedback.getFeedback_start in Hh, Hf. rewrite Hkey in Hh, Hf.
  cbn in Hh, Hf.
  exists s0, final. split; [exact Hinit |]. split; [exact Hplay |].
  split; [exact Hover |]. split; [exact Hf |].
  unfold Game4View.resultsFeedback, Panel.feedbackPanel. rewrite Hh. reflexivity.
Qed.

Lemma results_praise_witness :
  exists s0 final,
    Game4.initial Spec.sampleSource = Some s0 /\
    Extra.play Spec.sampleSource None (repeat Extra.LetTimeout 10) s0 = Some final /\
    Feedback.message (Feedback.feedback (Game4.hook final))
    = "Chính xác! Làm tốt lắm!".
Proof.
  destruct (results_praise_any_score Spec.sampleSource None
              (repeat Extra.LetTimeout 10))
    as (s0 & final & Hinit & Hplay & _ & _ & Hpanel);
    [reflexivity | reflexivity
    | repeat (apply Forall_cons; [exact I |]); apply Forall_nil |].
  exists s0, final. split; [exact Hinit |]. split; [exact Hplay |].
  unfold Game4View.resultsFeedback, Panel.feedbackPanel in Hpanel.
  destruct (Feedback.isLoading (Game4.hook final)); [discriminate |].
  injection Hpanel as _ Hmessage. exact Hmessage.
Defined.

Section QuizView.
Import Feedback Game4 Spec Extra.
Variable rs : Random.source.
Variable key : option string.

Lemma game4_handleAnswer_questions optionIndex s s' :
  handleAnswer optionIndex s = Some s' -> questions s' = questions s.
Proof.
  unfold handleAnswer. destruct (isAnswered s).
  - intros H. apply some_injective in H. now subst.
  - destruct (nth_error (questions s) (currentQIndex s)); [| discriminate].
    intros H. apply some_injective in H. now subst.
Qed.

Lemma game4_timerEffect_questions s s' :
  timerEffect s = Some s' -> questions s' = questions s.
Proof.
  unfold timerEffect.
  destruct (isGameOver s || isAnswered s);
    [intros H; apply some_injective in H; now subst |].
  destruct (timeLeft s >? 0);
    [intros H; apply some_injective in H; now subst |].
  apply game4_handleAnswer_questions.
Qed.

Lemma game4_step_from e s s' :
  QuizFrom rs s -> step rs key e s = Some s' -> QuizFrom rs s'.
Proof.
  intros [n Hn]. unfold QuizFrom.
  destruct e as [| optionIndex | | | k outcome]; cbn [step].
  - destruct (isGameOver s || isAnswered s); [discriminate |].
    destruct (timeLeft s >? 0); [| discriminate].
    intros H. apply game4_timerEffect_questions in H. exists n. now rewrite H.
  - intros H. apply game4_handleAnswer_questions in H. exists n. now rewrite H.
  - destruct (nextTimers s) as [| c pending]; [discriminate |].
    intros H. apply game4_timerEffect_questions in H. exists n. rewrite H, <- Hn.
    unfold nextQuestion, setNextTimers.
    cbn [questions currentQIndex score timeLeft isAnswered selectedOption
         isGameOver hook inflight cursor nextTimers].
    destruct (_ <? _); [reflexivity |].
    destruct (getFeedback_start _ _ _ _). reflexivity.
  - destruct (isGameOver s); [| discriminate].
    intros H. apply game4_timerEffect_questions in H. exists (cursor s).
    rewrite H. unfold resetGame.
    destruct (generateQuiz rs (cursor s)). reflexivity.
  - destruct (settle k outcome (hook s) (inflight s)) as [[hook' inflight'] |];
      [| discriminate].
    intros H. apply some_injective in H. subst s'. now exists n.
Qed.

Lemma game4_reachable_from s : reachable rs key s -> QuizFrom rs s.
Proof.
  induction 1 as [s Hinit | s e s' _ IH Hstep].
  - now destruct (game4_initial_start rs key s Hinit) as (_ & _ & _ & H).
  - exact (game4_step_from e s s' IH Hstep).
Qed.

(** Under a valid source the current question of a reachable state has
    all its fields, and its [answerIndex] is the index of an option. *)
Lemma game4_current_question s :
  Random.valid_source rs -> reachable rs key s ->
  exists q ans,
    nth_error (questions s) (currentQIndex s) = Some (Some q) /\
    JS.at_index (options q) (answerIndex q) = Some ans /\
    0 <= answerIndex q < Z.of_nat (length (options q)).
Proof.
  intros Hrs Hreach.
  pose proof (game4_reachable_invariant rs key s Hreach) as Hinv.
  destruct (game4_reachable_from s Hreach) as [n Hn].
  destruct (game4_current_slot s Hinv) as (slot & Hnth & _).
  pose proof (generateItems_right rs n Hrs) as Hitems.
  assert (Hslot : exists item, slot = pushed item /\ rightItem item).
  { apply nth_error_In in Hnth. rewrite Hn in Hnth.
    unfold generateQuiz, Random.bind in Hnth.
    destruct (generateItems rs n) as [items n']. cbn [fst Random.ret] in *.
    apply in_map_iff in Hnth. destruct Hnth as (item & E & Hin).
    exists item. split; [now symmetry |].
    rewrite Forall_forall in Hitems. now apply Hitems. }
  destruct Hslot as (item & -> & _ & q & ans & Hq & Hat & _).
  exists q, ans. rewrite Hnth, Hq. split; [reflexivity |]. split; [exact Hat |].
  unfold JS.at_index in Hat.
  destruct (Z.ltb_spec (answerIndex q) 0) as [| Hpos]; [discriminate |].
  split; [exact Hpos |].
  assert (Z.to_nat (answerIndex q) < length (options q))%nat
    by (apply nth_error_Some; congruence).
  lia.
Qed.

(** X18.  The quiz never crashes.  In every reachable state under a
    valid source the current question exists with all its fields, and
    the index it records as correct is the index of one of its options;
    so the component renders the results panel or the question panel
    with a question number from 1 to 10, never the spinner again, and a
    click on any option never reads a field of [undefined].  While the question is open a click on the
    recorded index adds 10 to the score. *)
Theorem quiz_never_crashes s :
  Random.valid_source rs -> reachable rs key s ->
  exists q ans,
    nth_error (questions s) (currentQIndex s) = Some (Some q) /\
    JS.at_index (options q) (answerIndex q) = Some ans /\
    0 <= answerIndex q < Z.of_nat (length (options q)) /\
    render s <> RenderError /\ render s <> Spinner /\
    (isGameOver s = false ->
     1 <= Z.of_nat (currentQIndex s) + 1 <= 10 /\
     render s
     = QuestionPanel ("🏆 Điểm: " +++ JS.toString (score s))
         ("❓ Câu hỏi: " +++ JS.toString (Z.of_nat (currentQIndex s) + 1) +++ "/10")
         ("⏳ Thời gian: " +++ JS.toString (timeLeft s) +++ "s")
         q (isAnswered s)) /\
    (forall optionIndex, exists s', step rs key (Select optionIndex) s = Some s') /\
    (isAnswered s = false ->
     exists s',
       step rs key (Select (answerIndex q)) s = Some s' /\
       score s' = score s + 10 /\ isAnswered s' = true).
Proof.
  intros Hrs Hreach.
  destruct (game4_current_question s Hrs Hreach) as (q & ans & Hnth & Hat & Hrange).
  pose proof (game4_reachable_invariant rs key s Hreach) as Hinv.
  exists q, ans. repeat (split; [assumption |]).
  assert (Hrender : render s <> RenderError /\ render s <> Spinner).
  { unfold render. destruct Hinv as (Hten & _). rewrite Hten. cbn [Nat.eqb].
    rewrite Hnth. destruct (isGameOver s); split; discriminate. }
  split; [apply Hrender |]. split; [apply Hrender |]. split; [| split].
  - intros Hover. destruct Hinv as (Hten & _ & Hidx & _).
    split; [lia |]. unfold render. rewrite Hten, Hover, Hnth. reflexivity.
  - intros optionIndex. cbn [step]. destruct (isAnswered s) eqn:Hans.
    + exists s. now apply game4_handleAnswer_locked.
    + rewrite (game4_handleAnswer_open optionIndex s (Some q) Hans Hnth).
      eexists. reflexivity.
  - intros Hans. cbn [step].
    rewrite (game4_handleAnswer_open (answerIndex q) s (Some q) Hans Hnth).
    eexists. split; [reflexivity |]. rewrite Z.eqb_refl. split; reflexivity.
Qed.

Lemma mapIndexed_text {A} (f : A -> Z -> Panel.Button) (l : list A) (g : A -> string) :
  (forall x i, Panel.text (f x i) = g x) ->
  forall i, map Panel.text (Panel.mapIndexed f i l) = map g l.
Proof.
  intros Hf. induction l as [| x l IH]; intros i; [reflexivity |].
  cbn [Panel.mapIndexed map]. now rewrite Hf, IH.
Qed.

Lemma mapIndexed_nth {A B} (f : A -> Z -> B) (l : list A) :
  forall i0 i y,
    nth_error (Panel.mapIndexed f i0 l) i = Some y ->
    exists x, nth_error l i = Some x /\ y = f x (i0 + Z.of_nat i).
Proof.
  induction l as [| x l IH]; intros i0 [| i] y H; try discriminate.
  - cbn in H. apply some_injective in H. exists x. split; [reflexivity |].
    now rewrite Z.add_0_r.
  - cbn [Panel.mapIndexed nth_error] in H. apply IH in H.
    destruct H as (x' & Hx & ->). exists x'. split; [exact Hx |].
    f_equal. lia.
Qed.

Lemma mapIndexed_Forall {A B} (P : B -> Prop) (f : A -> Z -> B) (l : list A) :
  (forall x i, P (f x i)) -> forall i, Forall P (Panel.mapIndexed f i l).
Proof.
  intros Hf. induction l as [| x l IH]; intros i; [apply Forall_nil |].
  cbn [Panel.mapIndexed]. apply Forall_cons; [apply Hf | apply IH].
Qed.

(** Buttons whose class is decided by the index: from index [i0] on, the
    class [c] goes to the button at index [v], if the list reaches it. *)
Lemma marked_at_index (cls : Z -> string) (c : string) (v : Z) (l : list string) :
  (forall i, cls i = c <-> i = v) ->
  forall i0,
    marked c (Panel.mapIndexed (fun opt i => Panel.mkButton opt true (cls i)) i0 l)
    = if (i0 <=? v) && (v <? i0 + Z.of_nat (length l)) then 1%nat else 0%nat.
Proof.
  intros Hcls. unfold marked.
  induction l as [| x l IH]; intros i0.
  - cbn [Panel.mapIndexed map count_occ length].
    destruct (Z.leb_spec i0 v), (Z.ltb_spec v (i0 + Z.of_nat 0)); cbn; try reflexivity; lia.
  - cbn [Panel.mapIndexed map count_occ Panel.className]. rewrite IH.
    cbn [length].
    destruct (string_dec (cls i0) c) as [E | E].
    + apply Hcls in E. subst v.
      destruct (Z.leb_spec (i0 + 1) i0); [lia |].
      destruct (Z.leb_spec i0 i0); [| lia].
      destruct (Z.ltb_spec i0 (i0 + Z.of_nat (S (length l)))); [| lia].
      reflexivity.
    + assert (i0 <> v) by (intros E'; apply E, Hcls, E').
      destruct (Z.leb_spec (i0 + 1) v), (Z.leb_spec i0 v); try lia;
        destruct (Z.ltb_spec v (i0 + 1 + Z.of_nat (length l))),
                 (Z.ltb_spec v (i0 + Z.of_nat (S (length l))));
        try lia; reflexivity.
Qed.

Lemma marked_at_most_one (cls : Z -> string) (c : string) (l : list string) :
  (forall i j, cls i = c -> cls j = c -> i = j) ->
  forall i0,
    (marked c (Panel.mapIndexed (fun opt i => Panel.mkButton opt true (cls i)) i0 l)
     <= 1)%nat.
Proof.
  intros Hcls. unfold marked.
  assert (Hnone : forall l' i0 v,
             cls v = c -> v < i0 ->
             count_occ string_dec
               (map Panel.className
                  (Panel.mapIndexed (fun opt i => Panel.mkButton opt true (cls i)) i0 l'))
               c = O).
  { induction l' as [| x l' IH]; intros i0 v Hv Hlt; [reflexivity |].
    cbn [Panel.mapIndexed map count_occ Panel.className].
    destruct (string_dec (cls i0) c) as [E | E].
    - pose proof (Hcls _ _ E Hv). lia.
    - apply (IH _ v Hv). lia. }
  induction l as [| x l IH]; intros i0; [cbn; lia |].
  cbn [Panel.mapIndexed map count_occ Panel.className].
  destruct (string_dec (cls i0) c) as [E | E].
  - rewrite (Hnone l (i0 + 1) i0 E) by lia. lia.
  - apply IH.
Qed.

(** X19.  The option buttons of the quiz are marked by position.  The
    buttons show the options in order; while the question is open every
    button carries the class [mcq-btn false].  Once it is locked, under
    a valid source, exactly one button is marked [correct], the one at
    the recorded index, also when another button shows the same text;
    at most one button is marked [incorrect], and a button is so marked
    exactly when it is the one selected and its position is not the
    recorded index. *)
Theorem quiz_marks_by_position s q :
  Random.valid_source rs -> reachable rs key s ->
  nth_error (questions s) (currentQIndex s) = Some (Some q) ->
  let shown := Game4View.buttons q (isAnswered s) (selectedOption s) in
  map Panel.text shown = options q /\
  Forall (fun button => Panel.disabled button = isAnswered s) shown /\
  (isAnswered s = false ->
   Forall (fun button => Panel.className button = "mcq-btn false") shown) /\
  (isAnswered s = true ->
   marked "mcq-btn correct" shown = 1%nat /\
   (marked "mcq-btn incorrect" shown <= 1)%nat /\
   forall i button,
     nth_error shown i = Some button ->
     (Panel.className button = "mcq-btn correct" <-> Z.of_nat i = answerIndex q) /\
     (Panel.className button = "mcq-btn incorrect"
      <-> Z.of_nat i <> answerIndex q /\ selectedOption s = Some (Z.of_nat i))).
Proof.
  intros Hrs Hreach Hnth shown.
  destruct (game4_current_question s Hrs Hreach) as (q' & ans & Hnth' & _ & Hrange).
  assert (q' = q) by congruence. subst q'.
  assert (Hsel : forall i, Panel.sameNumber i (selectedOption s) = true
                           <-> selectedOption s = Some i).
  { intros i. unfold Panel.sameNumber.
    destruct (selectedOption s) as [w |]; [| split; discriminate].
    rewrite Z.eqb_eq. split; congruence. }
  subst shown. unfold Game4View.buttons.
  split; [rewrite (mapIndexed_text _ _ (fun opt => opt)) by reflexivity; apply map_id |].
  split; [apply mapIndexed_Forall; reflexivity |].
  split.
  - intros Hopen. rewrite Hopen. apply mapIndexed_Forall. reflexivity.
  - intros Ha. rewrite Ha.
    split; [| split].
    + rewrite (marked_at_index
                 (fun i => Panel.optionClass true (i =? answerIndex q)
                             (Panel.sameNumber i (selectedOption s)))
                 _ (answerIndex q)).
      * destruct (Z.leb_spec 0 (answerIndex q)); [| lia].
        destruct (Z.ltb_spec (answerIndex q) (0 + Z.of_nat (length (options q))));
          [reflexivity | lia].
      * intros i. rewrite optionClass_correct. apply Z.eqb_eq.
    + apply (marked_at_most_one
               (fun i => Panel.optionClass true (i =? answerIndex q)
                           (Panel.sameNumber i (selectedOption s)))).
      intros i j Hi Hj.
      apply optionClass_incorrect in Hi. apply optionClass_incorrect in Hj.
      destruct Hi as [_ Hi]. destruct Hj as [_ Hj].
      apply Hsel in Hi. apply Hsel in Hj. congruence.
    + intros i button Hbutton. apply mapIndexed_nth in Hbutton.
      destruct Hbutton as (opt & _ & ->). cbn [Panel.className].
      rewrite Z.add_0_l, optionClass_correct, optionClass_incorrect, Z.eqb_eq, Hsel.
      split; [reflexivity |].
      rewrite <- Z.eqb_neq. reflexivity.
Qed.

End QuizView.

Lemma quiz_initial_reachable rs key :
  exists s0, Game4.initial rs = Some s0 /\ Game4.reachable rs key s0.
Proof.
  destruct (game4_initial_exists rs) as [s0 E].
  exists s0. split; [exact E | now apply Game4.reach_initial].
Qed.

Lemma quiz_never_crashes_witness :
  Random.valid_source Spec.sampleSource /\
  exists s0,
    Game4.reachable Spec.sampleSource None s0 /\
    Game4.render s0 <> Game4.RenderError.
Proof.
  split; [exact sampleSource_valid |].
  destruct (quiz_initial_reachable Spec.sampleSource None) as (s0 & _ & Hreach).
  destruct (quiz_never_crashes Spec.sampleSource None s0 sampleSource_valid Hreach)
    as (_ & _ & _ & _ & _ & Hrender & _).
  exists s0. split; assumption.
Defined.

Lemma quiz_marks_witness :
  Random.valid_source Spec.yInterceptSource /\
  exists s0 s1 q,
    Game4.reachable Spec.yInterceptSource None s1 /\
    Game4.initial Spec.yInterceptSource = Some s0 /\
    Game4.step Spec.yInterceptSource None (Game4.Select 2) s0 = Some s1 /\
    nth_error (Game4.questions s1) (Game4.currentQIndex s1) = Some (Some q) /\
    count_occ string_dec (Game4.options q) "(0, 0)" = 3%nat /\
    Extra.marked "mcq-btn correct"
      (Game4View.buttons q (Game4.isAnswered s1) (Game4.selectedOption s1)) = 1%nat.
Proof.
  split; [exact yInterceptSource_valid |].
  destruct (Game4.initial Spec.yInterceptSource) as [s0 |] eqn:Hinit;
    [| vm_compute in Hinit; discriminate].
  destruct (Game4.step Spec.yInterceptSource None (Game4.Select 2) s0) as [s1 |] eqn:Hstep;
    [| apply some_injective in Hinit; subst s0; vm_compute in Hstep; discriminate].
  assert (Hreach : Game4.reachable Spec.yInterceptSource None s1)
    by (eapply Game4.reach_step; [apply Game4.reach_initial; exact Hinit | exact Hstep]).
  assert (Hs1 : Game4.isAnswered s1 = true /\
                exists q, nth_error (Game4.questions s1) (Game4.currentQIndex s1)
                          = Some (Some q) /\
                          count_occ string_dec (Game4.options q) "(0, 0)" = 3%nat).
  { apply some_injective in Hinit. subst s0.
    apply some_injective in Hstep. subst s1.
    split; [vm_compute; reflexivity |].
    eexists. split; vm_compute; reflexivity. }
  destruct Hs1 as (Ha & q & Hq & Hopts).
  exists s0, s1, q. split; [exact Hreach |]. split; [reflexivity |].
  split; [exact Hstep |]. split; [exact Hq |]. split; [exact Hopts |].
  exact (proj1 (proj2 (proj2 (proj2
    (quiz_marks_by_position Spec.yInterceptSource None s1 q
       yInterceptSource_valid Hreach Hq))) Ha)).
Defined.

(* ================================================================== *)
(** * Further properties: the texts of equations and points *)
(* ================================================================== *)

Section Texts.
Import Helpers Extra.

Lemma append_cancel prefix : forall s t, prefix +++ s = prefix +++ t -> s = t.
Proof.
  induction prefix as [| c prefix IH]; intros s t H; [exact H |].
  cbn [String.append] in H. injection H as H. now apply IH.
Qed.

(** A printed number followed by text that starts with no digit can be
    cut off again: the number and the text are determined. *)
Lemma toString_then_injective n m s t :
  endsNumber s = true -> endsNumber t = true ->
  JS.toString n +++ s = JS.toString m +++ t -> n = m /\ s = t.
Proof.
  intros Hs Ht H.
  assert (E : n = m).
  { apply some_injective.
    rewrite <- (parseInt_toString_then n s Hs), H.
    now apply parseInt_toString_then. }
  subst m. split; [reflexivity |]. now apply append_cancel in H.
Qed.

Lemma signedTerm_injective b b' : signedTerm b = signedTerm b' -> b = b'.
Proof.
  unfold signedTerm.
  destruct (Z.geb_spec b 0) as [Hb | Hb], (Z.geb_spec b' 0) as [Hb' | Hb'];
    cbn [String.append]; intros H;
    try discriminate; injection H as H; apply toString_injective in H; lia.
Qed.

Lemma formatEquation_injective a b a' b' :
  Game3.formatEquation a b = Game3.formatEquation a' b' -> a = a' /\ b = b'.
Proof.
  unfold Game3.formatEquation. cbn [String.append]. intros H. injection H as H.
  apply toString_then_injective in H; [| reflexivity | reflexivity].
  destruct H as [-> H]. split; [reflexivity |].
  cbn [String.append] in H. injection H as H. now apply signedTerm_injective.
Qed.

Lemma point_injective u v u' v' :
  Game2.point (JS.toString u) (JS.toString v)
  = Game2.point (JS.toString u') (JS.toString v') ->
  u = u' /\ v = v'.
Proof.
  unfold Game2.point. cbn [String.append]. intros H. injection H as H.
  apply toString_then_injective in H; [| reflexivity | reflexivity].
  destruct H as [-> H]. split; [reflexivity |].
  cbn [String.append] in H. injection H as H.
  apply toString_then_injective in H; [| reflexivity | reflexivity].
  apply H.
Qed.

Lemma append_cancel_last c : forall s t, s +++ String c "" = t +++ String c "" -> s = t.
Proof.
  induction s as [| x s IH]; intros [| y t] H; cbn [String.append] in H.
  - reflexivity.
  - injection H as _ H. destruct t; discriminate.
  - injection H as _ H. destruct s; discriminate.
  - injection H as -> H. f_equal. now apply IH.
Qed.

Lemma questionText_injective a b a' b' :
  Game4.questionText a b = Game4.questionText a' b' -> a = a' /\ b = b'.
Proof.
  unfold Game4.questionText. intros H. apply append_cancel in H.
  apply toString_then_injective in H; [| reflexivity | reflexivity].
  destruct H as [-> H]. split; [reflexivity |].
  cbn [String.append] in H. injection H as H.
  apply append_cancel_last in H. now apply signedTerm_injective.
Qed.

End Texts.

(** X20.  The text of an equation identifies the line, and the text of
    a point identifies the point.  Two pairs of coefficients that print
    as the same equation [y = ax + b] (with the sign of [b] written out
    and its magnitude after it) are the same pair, in the options of
    game 3, the legend of game 2, the formula of game 1 and the prompt
    of the quiz; two points that print as the same text [(u, v)] are the
    same point; and [String] itself maps distinct integers to distinct
    texts. *)
Theorem printed_texts_identify_their_values :
  (forall n m, JS.toString n = JS.toString m -> n = m) /\
  (forall a b a' b',
     Game3.formatEquation a b = Game3.formatEquation a' b' -> a = a' /\ b = b') /\
  (forall a b a' b',
     Game4.questionText a b = Game4.questionText a' b' -> a = a' /\ b = b') /\
  (forall q q',
     Panel.label (Game2View.chartData q) = Panel.label (Game2View.chartData q') ->
     Game2.a q = Game2.a q' /\ Game2.b q = Game2.b q') /\
  (forall u v u' v',
     Game2.point (JS.toString u) (JS.toString v)
     = Game2.point (JS.toString u') (JS.toString v') ->
     u = u' /\ v = v') /\
  (forall u v u' v',
     Game4.point (JS.toString u) (JS.toString v)
     = Game4.point (JS.toString u') (JS.toString v') ->
     u = u' /\ v = v').
Proof.
  split; [exact toString_injective |].
  split; [exact formatEquation_injective |].
  split.
  - exact questionText_injective.
  - split; [intros q q' H; now apply formatEquation_injective |].
    split; [exact point_injective | exact point_injective].
Qed.

Lemma formatEquation_eqb a b a' b' :
  String.eqb (Game3.formatEquation a b) (Game3.formatEquation a' b')
  = (a =? a') && (b =? b').
Proof.
  destruct (String.eqb_spec (Game3.formatEquation a b) (Game3.formatEquation a' b'))
    as [E | E].
  - apply formatEquation_injective in E. destruct E as [-> ->].
    now rewrite !Z.eqb_refl.
  - symmetry. apply Bool.andb_false_iff.
    destruct (Z.eqb_spec a a') as [-> |]; [| now left].
    destruct (Z.eqb_spec b b') as [-> |]; [| now right].
    now contradiction E.
Qed.

(** X21.  The wrong equations of game 3 never need the filler.  For
    nonzero [a] and [b] the three equations with one or both signs
    flipped are distinct from one another and from the answer, so the
    set of wrong options has three members, the fourth candidate
    [y = 2ax + b] is never added, and the four equations offered are
    pairwise distinct. *)
Theorem wrong_equations_need_no_filler a b :
  a <> 0 -> b <> 0 ->
  Game3.wrongOptions a b
  = [Game3.formatEquation (- a) b; Game3.formatEquation a (- b);
     Game3.formatEquation (- a) (- b)] /\
  ~ In (Game3.formatEquation (a * 2) b) (Game3.wrongOptions a b) /\
  NoDup (Game3.formatEquation a b :: firstn 3 (Game3.wrongOptions a b)).
Proof.
  intros Ha Hb.
  assert (Hneq : forall x y : Z, x <> y -> (x =? y) = false)
    by (intros x y; apply Z.eqb_neq).
  assert (Hset : Game3.wrongOptions a b
                 = [Game3.formatEquation (- a) b; Game3.formatEquation a (- b);
                    Game3.formatEquation (- a) (- b)]).
  { unfold Game3.wrongOptions, JS.set_add. cbn [existsb app].
    rewrite !formatEquation_eqb.
    rewrite (Hneq a (- a)) by lia. cbn [andb orb app existsb].
    rewrite !formatEquation_eqb, !Z.eqb_refl.
    rewrite (Hneq (- b) b) by lia. rewrite (Hneq (- a) a) by lia.
    cbn [andb orb app length]. reflexivity. }
  rewrite Hset. split; [reflexivity |]. split.
  - cbn [In]. intros [E | [E | [E | []]]];
      apply formatEquation_injective in E; lia.
  - cbn [firstn].
    repeat (apply NoDup_cons;
            [cbn [In]; intros H;
             repeat (destruct H as [H | H];
                     [apply formatEquation_injective in H; lia |]);
             exact H |]).
    apply NoDup_nil.
Qed.

Lemma wrong_equations_witness :
  Game3.wrongOptions 2 (-3) = ["y = -2x - 3"; "y = 2x + 3"; "y = -2x + 3"].
Proof.
  exact (proj1 (wrong_equations_need_no_filler 2 (-3) ltac:(lia) ltac:(lia))).
Defined.

(* ================================================================== *)
(** * Further properties: the menu and the game host *)
(* ================================================================== *)

Section Routing.
Import App Extra.

Lemma routed_card index game :
  nth_error games index = Some game -> Routed (Some (id game)).
Proof.
  intros Hnth. assert (Hin : In game games) by (eapply nth_error_In; exact Hnth).
  do 4 (destruct index as [| index];
        [cbn in Hnth; apply some_injective in Hnth; subst game;
         unfold Routed; cbn [render id];
         eexists _, _, _; split; [exact Hin |]; split; [reflexivity |];
         split; [reflexivity |]; split; [reflexivity |];
         cbn [title id]; split; intros H; try discriminate; try reflexivity;
         try (exfalso; apply H; reflexivity) |]).
  destruct index; discriminate.
Qed.

Lemma routed_step e s s' : Routed s -> step e s = Some s' -> Routed s'.
Proof.
  intros Hs. unfold step.
  destruct e as [index |].
  - destruct (render s) as [cards | host] eqn:Hview; [| discriminate].
    unfold Routed in Hs. rewrite Hview in Hs. destruct Hs as [_ ->].
    destruct (nth_error games index) as [game |] eqn:Hnth; [| discriminate].
    intros H. apply some_injective in H. subst s'.
    unfold handleStartGame. now apply (routed_card index).
  - destruct (render s); [discriminate |].
    intros H. apply some_injective in H. subst s'.
    unfold handleBackToMenu, Routed. cbn. split; reflexivity.
Qed.

Lemma routed_reachable s : reachable s -> Routed s.
Proof.
  induction 1 as [| s e s' _ IH Hstep].
  - unfold Routed. cbn. split; reflexivity.
  - exact (routed_step e s s' IH Hstep).
Qed.

End Routing.

(** X22.  The menu opens real games only.  Whatever cards and back
    buttons are clicked, [App] shows either the menu with its four
    cards or the host of the game whose card was clicked, with that
    game's component: the placeholder for an unknown game is never
    shown, and no name inherited from [Object.prototype] is looked up.
    The host's header is the title on the card, except for the third
    game, whose two titles differ in the case of one letter.  From the
    menu each of the four cards opens its game and there is nothing to
    go back to; from a host the back button returns to the menu and no
    card can be clicked. *)
Theorem menu_opens_real_games_only s :
  App.reachable s ->
  match App.render s with
  | App.MainMenu cards =>
      s = None /\ cards = App.games /\ length cards = 4%nat /\
      App.step App.ClickBack s = None /\
      forall index game,
        nth_error cards index = Some game ->
        App.step (App.ClickCard index) s = Some (Some (App.id game))
  | App.Host host =>
      (exists game component shown,
         In game App.games /\ s = Some (App.id game) /\
         App.ownProperty App.gameComponents (App.id game) = Some component /\
         host = App.mkHostView (App.Own shown) (App.Game component) /\
         (shown = App.title game <-> App.id game <> "game3")) /\
      App.step App.ClickBack s = Some None /\
      forall index, App.step (App.ClickCard index) s = None
  end.
Proof.
  intros Hreach. pose proof (routed_reachable s Hreach) as Hs.
  unfold Extra.Routed in Hs. unfold App.step.
  destruct (App.render s) as [cards | host] eqn:Hview.
  - destruct Hs as [-> ->]. repeat (split; [reflexivity |]).
    intros index game Hnth. now rewrite Hnth.
  - split; [exact Hs |]. split; [reflexivity |]. intros index. reflexivity.
Qed.

Lemma menu_witness :
  App.reachable (Some "game3") /\
  App.step App.ClickBack (Some "game3") = Some None.
Proof.
  assert (Hreach : App.reachable (Some "game3"))
    by (apply (App.reach_step None (App.ClickCard 2));
        [apply App.reach_initial | reflexivity]).
  split; [exact Hreach |].
  exact (proj1 (proj2 (menu_opens_real_games_only (Some "game3") Hreach))).
Defined.

(* ================================================================== *)
(** * Further properties: how often the right answer is listed *)
(* ================================================================== *)

Section Repeats.
Import Random Extra.

Lemma pair_dec : forall x y : Z * Z, {x = y} + {x <> y}.
Proof. decide equality; apply Z.eq_dec. Qed.

(** [`(${u}, ${v})`] for a pair of integers. *)
Lemma count_points (l : list (Z * Z)) (p : Z * Z) :
  count_occ string_dec
    (map (fun uv => Game2.point (JS.toString (fst uv)) (JS.toString (snd uv))) l)
    (Game2.point (JS.toString (fst p)) (JS.toString (snd p)))
  = count_occ pair_dec l p.
Proof.
  apply count_occ_map_iff. intros [u v] _. destruct p as [u' v']. cbn [fst snd].
  split.
  - intros H. apply point_injective in H. destruct H. now subst.
  - intros H. injection H as -> ->. reflexivity.
Qed.

Lemma count_points4 u1 v1 u2 v2 u3 v3 u4 v4 u v :
  count_occ string_dec
    [Game2.point (JS.toString u1) (JS.toString v1);
     Game2.point (JS.toString u2) (JS.toString v2);
     Game2.point (JS.toString u3) (JS.toString v3);
     Game2.point (JS.toString u4) (JS.toString v4)]
    (Game2.point (JS.toString u) (JS.toString v))
  = count_occ pair_dec [(u1, v1); (u2, v2); (u3, v3); (u4, v4)] (u, v).
Proof. exact (count_points [(u1, v1); (u2, v2); (u3, v3); (u4, v4)] (u, v)). Qed.

Lemma count_pair_here (p : Z * Z) l :
  count_occ pair_dec (p :: l) p = S (count_occ pair_dec l p).
Proof. now apply count_occ_cons_eq. Qed.

Lemma count_pair_skip (p p' : Z * Z) l :
  p' <> p -> count_occ pair_dec (p' :: l) p = count_occ pair_dec l p.
Proof. intros H. now apply count_occ_cons_neq. Qed.

Lemma game2_answer_count q :
  Game2Generated q ->
  exists ans,
    Game2.answer q = Some ans /\
    count_occ string_dec (Game2.options q) ans
    = if Panel.sameString Game2.promptYIntercept (Game2.promptText q)
         && (Game2.a q =? Game2.b q)
      then 2%nat else 1%nat.
Proof.
  intros (Ha & _ & (m & Hm & Hb) & Hshape).
  assert (Hb0 : Game2.b q <> 0) by (destruct Hb; nia).
  destruct Hshape as [Hp Hans Hperm | x0 Hx0 _ Hx0' Hp Hans Hperm
                     | x pointY _ _ Hp Hans Hopts];
    eexists; (split; [exact Hans |]); rewrite Hp.
  - cbn [Panel.sameString]. rewrite String.eqb_refl. cbn [andb].
    rewrite <- (proj1 (Permutation_count_occ string_dec _ _) Hperm).
    change "0" with (JS.toString 0).
    rewrite count_points4.
    rewrite count_pair_here.
    rewrite count_pair_skip by (intros E; injection E; lia).
    destruct (Z.eqb_spec (Game2.a q) (Game2.b q)) as [E | E].
    + rewrite E, count_pair_here.
      rewrite count_pair_skip by (intros E'; injection E'; lia). reflexivity.
    + rewrite count_pair_skip by (intros E'; injection E'; lia).
      rewrite count_pair_skip by (intros E'; injection E'; lia). reflexivity.
  - replace (Panel.sameString Game2.promptYIntercept (Some Game2.promptXIntercept))
      with false by (vm_compute; reflexivity).
    cbn [andb].
    rewrite <- (proj1 (Permutation_count_occ string_dec _ _) Hperm).
    change "0" with (JS.toString 0).
    rewrite count_points4.
    rewrite count_pair_here.
    rewrite !count_pair_skip by (intros E; injection E; lia). reflexivity.
  - replace (Panel.sameString Game2.promptYIntercept (Some (Game2.promptPoint x pointY)))
      with false by (unfold Game2.promptPoint; cbn; reflexivity).
    cbn [andb]. rewrite Hopts.
    destruct (pointY =? Game2.a q * x + Game2.b q); reflexivity.
Qed.

End Repeats.

Section QuizShapes.
Import Random Game4 Extra.

Lemma newItem_shape rs n :
  valid_source rs -> GeneratedItem (fst (newItem rs n)).
Proof.
  intros Hrs. unfold GeneratedItem, newItem. run_rand.
  pose proof (floorTimes_range (rs n) 5 (Hrs n)) as H1.
  set (a0 := (floorTimes (rs n) 5 + 1) * (if ltHalf (rs (S n)) then 1 else -1)).
  set (b0 := floorTimes (rs (S (S n))) 9 - 4).
  assert (Ha : a0 <> 0) by (subst a0; destruct (ltHalf (rs (S n))); lia).
  destruct (floorTimes_5_cases _ (Hrs (S (S (S n))))) as [E | [E | [E | [E | E]]]];
    rewrite E.
  - cbn [fst coefA coefB pushed]. split; [exact Ha |].
    eexists. split; [reflexivity |].
    apply quizMonotone; reflexivity.
  - match goal with
    | |- context [Helpers.shuffleArray ?l rs ?k] =>
        pose proof (shuffleArray_perm l rs k) as Hperm;
        destruct (Helpers.shuffleArray l rs k) as [opts n']
    end.
    cbn [fst] in Hperm. cbn [fst coefA coefB pushed]. split; [exact Ha |].
    eexists. split; [reflexivity |].
    apply quizYIntercept; [reflexivity | exact Hperm | reflexivity].
  - destruct (ltHalf (rs (S (S (S (S (S n))))))) eqn:Eon;
      cbn [fst coefA coefB pushed]; (split; [exact Ha |]);
      eexists; (split; [reflexivity |]);
      eapply quizPoint; cbn [prompt options answerIndex];
      try reflexivity.
    + now rewrite Z.eqb_refl.
    + match goal with
      | |- context [?u =? ?v] => destruct (Z.eqb_spec u v) as [Heq | _]
      end; [| reflexivity].
      revert Heq.
      match goal with |- context [if ?c then 1 else -1] => destruct c end; lia.
  - set (b_diff := JS.orElse _ _).
    assert (Hdiff : b_diff <> b0).
    { pose proof (floorTimes_range _ 3 (Hrs (S (S (S (S (S n))))))) as H6.
      subst b_diff. unfold JS.orElse.
      match goal with |- context [?v =? 0] => destruct (Z.eqb_spec v 0) end; [lia |].
      match goal with |- context [if ?c then 1 else -1] => destruct c end; lia. }
    match goal with
    | |- context [Helpers.shuffleArray ?l rs ?k] =>
        pose proof (shuffleArray_perm l rs k) as Hperm;
        destruct (Helpers.shuffleArray l rs k) as [opts n']
    end.
    cbn [fst] in Hperm. cbn [fst coefA coefB pushed]. split; [exact Ha |].
    eexists. split; [reflexivity |].
    apply (quizParallel _ _ _ b_diff);
      [exact Hdiff | reflexivity | exact Hperm | reflexivity].
  - pose proof (floorTimes_range _ 4 (Hrs (S (S (S (S n)))))) as H5.
    pose proof (floorTimes_range _ 4 (Hrs (S (S (S (S (S (S n)))))))) as H7.
    set (a1 := (floorTimes (rs (S (S (S (S n))))) 4 + 1) *
               (if ltHalf (rs (S (S (S (S (S n)))))) then 1 else -1)).
    set (m := floorTimes (rs (S (S (S (S (S (S n))))))) 4 + 1).
    set (b1 := a1 * m * (if ltHalf (rs (S (S (S (S (S (S (S n)))))))) then 1 else -1)).
    assert (Ha1 : a1 <> 0)
      by (subst a1; match goal with |- context [if ?c then 1 else -1] => destruct c end; lia).
    assert (Hb1 : b1 = a1 * m \/ b1 = - (a1 * m))
      by (subst b1; match goal with |- context [if ?c then 1 else -1] => destruct c end; lia).
    assert (Hm : 1 <= m <= 4) by (subst m; lia).
    pose proof (divide_intercept a1 b1 m Ha1 Hb1) as Hx.
    match goal with
    | |- context [Helpers.shuffleArray ?l rs ?k] =>
        pose proof (shuffleArray_perm l rs k) as Hperm;
        destruct (Helpers.shuffleArray l rs k) as [opts n']
    end.
    cbn [fst] in Hperm. cbn [fst coefA coefB pushed]. split; [exact Ha1 |].
    eexists. split; [reflexivity |].
    apply (quizXIntercept _ _ _ (JS.divide (- b1) a1));
      [exact Hx | | | reflexivity | exact Hperm | reflexivity].
    + intros E0. rewrite E0 in Hx. destruct Hb1; nia.
    + destruct Hb1; nia.
Qed.

Lemma generateItems_shape rs n :
  valid_source rs -> Forall GeneratedItem (fst (generateItems rs n)).
Proof.
  intros Hrs. apply quizLoop_Forall; [| constructor].
  intros k. apply newItem_shape. exact Hrs.
Qed.

End QuizShapes.

Section QuizCopies.
Import Random Game4 Extra.

Lemma indexOfFrom_first x array :
  forall i j,
    0 <= i -> i <= j < JS.indexOfFrom i x array ->
    nth_error array (Z.to_nat (j - i)) <> Some x.
Proof.
  induction array as [| y array IH]; intros i j Hi Hj; cbn [JS.indexOfFrom] in Hj.
  - lia.
  - destruct (String.eqb_spec y x) as [-> | Hne]; [lia |].
    destruct (Z.eq_dec j i) as [-> | Hji].
    + rewrite Z.sub_diag. cbn. congruence.
    + replace (Z.to_nat (j - i)) with (S (Z.to_nat (j - (i + 1)))) by lia.
      cbn [nth_error]. apply IH; lia.
Qed.

(** [indexOf] returns the first position that holds the string. *)
Lemma indexOf_first x array j :
  0 <= j < JS.indexOf array x -> JS.at_index array j <> Some x.
Proof.
  intros Hj. unfold JS.at_index.
  destruct (Z.ltb_spec j 0); [lia |].
  replace j with (j - 0) at 1 by lia.
  apply indexOfFrom_first; [lia | exact Hj].
Qed.

Lemma eqb_append prefix s t :
  String.eqb (prefix +++ s) (prefix +++ t) = String.eqb s t.
Proof.
  induction prefix as [| c prefix IH]; [reflexivity |].
  cbn [String.append String.eqb]. now rewrite Ascii.eqb_refl.
Qed.

Lemma line_same_sign a s : line a s s = Game3.formatEquation a s.
Proof. reflexivity. Qed.

Lemma line_slope a s m a' s' m' : line a s m = line a' s' m' -> a = a'.
Proof.
  unfold line. cbn [String.append]. intros H. injection H as H.
  apply toString_then_injective in H; [apply H | reflexivity | reflexivity].
Qed.

Lemma count_here {A} (dec : forall x y : A, {x = y} + {x <> y}) x l :
  count_occ dec (x :: l) x = S (count_occ dec l x).
Proof. now apply count_occ_cons_eq. Qed.

Lemma count_skip {A} (dec : forall x y : A, {x = y} + {x <> y}) x y l :
  y <> x -> count_occ dec (y :: l) x = count_occ dec l x.
Proof. intros H. now apply count_occ_cons_neq. Qed.

Lemma quiz_item_answer a b q :
  a <> 0 -> QuizShape a b q ->
  exists ans,
    JS.at_index (options q) (answerIndex q) = Some ans /\
    (forall j, 0 <= j < answerIndex q -> JS.at_index (options q) j <> Some ans) /\
    count_occ string_dec (options q) ans = quizCopies a b q.
Proof.
  intros Ha Hshape. unfold quizCopies.
  destruct Hshape as [Hp Hopts Hidx | Hp Hperm Hidx | x pointY Hp Hopts Hidx
                     | b_diff Hdiff Hp Hperm Hidx | x0 Hx0 Hx0' Hb Hp Hperm Hidx];
    rewrite Hp, Hidx.
  - unfold promptMonotone, promptYIntercept, promptXIntercept.
    rewrite !eqb_append. cbn [String.eqb Ascii.eqb Bool.eqb]. rewrite Hopts.
    destruct (a >? 0); eexists; (split; [reflexivity |]);
      (split; [| reflexivity]); intros j Hj.
    + lia.
    + assert (j = 0) by lia. subst j. discriminate.
  - unfold promptYIntercept, promptXIntercept.
    rewrite String.eqb_refl.
    assert (Hin : In (point "0" (JS.toString b)) (options q))
      by (eapply Permutation_in; [exact Hperm | now left]).
    exists (point "0" (JS.toString b)).
    split; [now apply indexOf_found |].
    split; [intros j Hj; now apply indexOf_first |].
    rewrite <- (proj1 (Permutation_count_occ string_dec _ _) Hperm).
    change "0" with (JS.toString 0). change point with Game2.point.
    rewrite count_points4, count_pair_here.
    destruct (Z.eqb_spec b 0) as [-> | Hb].
    + rewrite count_pair_here.
      rewrite count_pair_skip by (intros E; injection E; lia).
      change (- 0) with 0. rewrite count_pair_here. reflexivity.
    + rewrite count_pair_skip by (intros E; injection E; lia).
      destruct (Z.eqb_spec a b) as [-> | Hab].
      * rewrite count_pair_here.
        rewrite count_pair_skip by (intros E; injection E; lia). reflexivity.
      * rewrite !count_pair_skip by (intros E; injection E; lia). reflexivity.
  - unfold promptPoint, promptYIntercept, promptXIntercept.
    rewrite !eqb_append. cbn [String.append String.eqb Ascii.eqb Bool.eqb].
    rewrite Hopts.
    destruct (pointY =? a * x + b); eexists; (split; [reflexivity |]);
      (split; [| reflexivity]); intros j Hj.
    + lia.
    + assert (j = 0) by lia. subst j. discriminate.
  - unfold promptParallel, promptYIntercept, promptXIntercept.
    rewrite !eqb_append. cbn [String.eqb Ascii.eqb Bool.eqb].
    assert (Hin : In (line a b_diff b_diff) (options q))
      by (eapply Permutation_in; [exact Hperm | now left]).
    exists (line a b_diff b_diff).
    split; [now apply indexOf_found |].
    split; [intros j Hj; now apply indexOf_first |].
    rewrite <- (proj1 (Permutation_count_occ string_dec _ _) Hperm).
    rewrite count_here.
    rewrite count_skip by (intros E; apply line_slope in E; lia).
    rewrite count_skip
      by (rewrite !line_same_sign; intros E; apply formatEquation_injective in E; lia).
    rewrite count_skip by (intros E; apply line_slope in E; lia).
    reflexivity.
  - unfold promptXIntercept, promptYIntercept.
    rewrite eqb_append, String.eqb_refl.
    replace (" Đồ thị cắt trục hoành tại điểm nào?" =? " Đồ thị cắt trục tung tại điểm nào?")%string
      with false by (vm_compute; reflexivity).
    assert (Hin : In (point (JS.toString x0) "0") (options q))
      by (eapply Permutation_in; [exact Hperm | now left]).
    exists (point (JS.toString x0) "0").
    split; [now apply indexOf_found |].
    split; [intros j Hj; now apply indexOf_first |].
    rewrite <- (proj1 (Permutation_count_occ string_dec _ _) Hperm).
    change "0" with (JS.toString 0). change point with Game2.point.
    rewrite count_points4, count_pair_here.
    rewrite !count_pair_skip by (intros E; injection E; lia).
    destruct (Z.eqb_spec a (-1)) as [-> | Ha1].
    + assert (b = x0) by lia. subst b. rewrite count_pair_here. reflexivity.
    + rewrite count_pair_skip by (intros E; injection E; nia). reflexivity.
Qed.

End QuizCopies.

(** X23.  How often game 2 lists its answer.  In every reachable state
    under a valid source the stored answer occurs once among the
    options, except for a y-intercept question with [a = b], where the
    options [(0, b)] and [(0, a)] are the same text and it occurs
    twice.  Once the question is locked, each button that shows the
    answer is marked [correct]: one button, or two in that case. *)
Theorem game2_answer_repeats_when_a_is_b rs key fuel s :
  Random.valid_source rs -> Game2.reachable rs key (S fuel) s ->
  exists q ans,
    Game2.question s = Some q /\ Game2.answer q = Some ans /\
    count_occ string_dec (Game2.options q) ans
    = (if Panel.sameString Game2.promptYIntercept (Game2.promptText q)
          && (Game2.a q =? Game2.b q)
       then 2%nat else 1%nat) /\
    forall selected,
      Extra.marked "mcq-btn correct" (Game2View.buttons q true selected)
      = count_occ string_dec (Game2.options q) ans.
Proof.
  intros Hrs Hreach.
  destruct (game2_reachable_invariant rs key fuel Hrs s Hreach) as ([q [Hq Hgen]] & _).
  destruct (game2_answer_count q Hgen) as (ans & Hans & Hcount).
  exists q, ans. split; [exact Hq |]. split; [exact Hans |].
  split; [exact Hcount |].
  intros selected. unfold Extra.marked, Game2View.buttons.
  rewrite mapIndexed_constant, map_map. cbn [Panel.className].
  apply count_occ_map_iff. intros opt _.
  rewrite optionClass_correct, Hans. cbn [Panel.sameString].
  apply String.eqb_eq.
Qed.

Lemma game2_answer_repeats_witness :
  Random.valid_source Spec.equalCoefficientsSource /\
  exists s0 q ans,
    Game2.reachable Spec.equalCoefficientsSource None 1 s0 /\
    Game2.question s0 = Some q /\ Game2.answer q = Some ans /\
    count_occ string_dec (Game2.options q) ans = 2%nat.
Proof.
  split; [exact equalCoefficientsSource_valid |].
  destruct (game2_initial_reachable Spec.equalCoefficientsSource None O
              equalCoefficientsSource_valid) as (s0 & Hinit & Hreach).
  destruct (game2_answer_repeats_when_a_is_b Spec.equalCoefficientsSource None O s0
              equalCoefficientsSource_valid Hreach)
    as (q & ans & Hq & Hans & Hcount & _).
  exists s0, q, ans. split; [exact Hreach |]. split; [exact Hq |]. split; [exact Hans |].
  rewrite Hcount.
  assert (E : Some q = Game2.question
                         (match Game2.initial Spec.equalCoefficientsSource 1 with
                          | Some s => s
                          | None => s0
                          end)) by (rewrite Hinit; now symmetry).
  vm_compute in E. apply some_injective in E. subst q. vm_compute. reflexivity.
Defined.

Section QuizCurrent.
Import Game4 Spec Extra.
Variable rs : Random.source.
Variable key : option string.

Lemma game4_current_item s :
  Random.valid_source rs -> reachable rs key s ->
  exists item q,
    nth_error (questions s) (currentQIndex s) = Some (Some q) /\
    pushed item = Some q /\ GeneratedItem item.
Proof.
  intros Hrs Hreach.
  pose proof (game4_reachable_invariant rs key s Hreach) as Hinv.
  destruct (game4_reachable_from rs key s Hreach) as [n Hn].
  destruct (game4_current_slot s Hinv) as (slot & Hnth & _).
  pose proof (generateItems_shape rs n Hrs) as Hitems.
  assert (Hslot : exists item, slot = pushed item /\ GeneratedItem item).
  { apply nth_error_In in Hnth. rewrite Hn in Hnth.
    unfold generateQuiz, Random.bind in Hnth.
    destruct (generateItems rs n) as [items n']. cbn [fst Random.ret] in *.
    apply in_map_iff in Hnth. destruct Hnth as (item & E & Hin).
    exists item. split; [now symmetry |].
    rewrite Forall_forall in Hitems. now apply Hitems. }
  destruct Hslot as (item & -> & Hgen).
  pose proof Hgen as (_ & q & Hq & _).
  exists item, q. rewrite Hnth, Hq.
  split; [reflexivity |]. split; [reflexivity | exact Hgen].
Qed.

End QuizCurrent.

(** X24.  How often the quiz lists its answer, and which copy scores.
    In every reachable state under a valid source the text at the
    recorded index occurs once among the options of the current
    question, except that it occurs three times for a y-intercept
    question with [b = 0], twice for one with [a = b], and twice for an
    x-intercept question with [a = -1].  The recorded index is the
    first position that shows this text, and while the question is open
    a click on any other position, also one that shows the same text,
    leaves the score unchanged. *)
Theorem quiz_scores_the_first_copy_only rs key s :
  Random.valid_source rs -> Game4.reachable rs key s ->
  exists a b q ans,
    nth_error (Game4.questions s) (Game4.currentQIndex s) = Some (Some q) /\
    Extra.QuizShape a b q /\
    JS.at_index (Game4.options q) (Game4.answerIndex q) = Some ans /\
    count_occ string_dec (Game4.options q) ans = Extra.quizCopies a b q /\
    (forall j, 0 <= j < Game4.answerIndex q ->
               JS.at_index (Game4.options q) j <> Some ans) /\
    (forall j, Game4.isAnswered s = false -> j <> Game4.answerIndex q ->
               exists s', Game4.step rs key (Game4.Select j) s = Some s' /\
                          Game4.score s' = Game4.score s).
Proof.
  intros Hrs Hreach.
  destruct (game4_current_item rs key s Hrs Hreach)
    as (item & q & Hnth & Hq & Ha & q' & Hq' & Hshape).
  assert (q' = q) by congruence. subst q'.
  destruct (quiz_item_answer _ _ q Ha Hshape) as (ans & Hat & Hfirst & Hcount).
  exists (Game4.coefA item), (Game4.coefB item), q, ans.
  repeat (split; [assumption |]).
  intros j Hopen Hj. cbn [Game4.step].
  rewrite (game4_handleAnswer_open j s (Some q) Hopen Hnth).
  eexists. split; [reflexivity |]. cbn [Game4.score].
  destruct (Z.eqb_spec j (Game4.answerIndex q)); [contradiction | reflexivity].
Qed.

Lemma quiz_copies_witness :
  Random.valid_source Spec.yInterceptSource /\
  exists s0 a b q ans,
    Game4.reachable Spec.yInterceptSource None s0 /\
    nth_error (Game4.questions s0) (Game4.currentQIndex s0) = Some (Some q) /\
    JS.at_index (Game4.options q) (Game4.answerIndex q) = Some ans /\
    count_occ string_dec (Game4.options q) ans = Extra.quizCopies a b q.
Proof.
  split; [exact yInterceptSource_valid |].
  destruct (quiz_initial_reachable Spec.yInterceptSource None) as (s0 & _ & Hreach).
  destruct (quiz_scores_the_first_copy_only Spec.yInterceptSource None s0
              yInterceptSource_valid Hreach)
    as (a & b & q & ans & Hnth & _ & Hat & Hcount & _).
  exists s0, a, b, q, ans. repeat split; assumption.
Defined.

Section Distinct.
Import Random Extra.

Lemma NoDup_map_injective {A B} (f : A -> B) (l : list A) :
  (forall x y, f x = f y -> x = y) -> NoDup l -> NoDup (map f l).
Proof.
  intros Hf. induction 1 as [| x l Hx _ IH]; cbn [map]; [apply NoDup_nil |].
  apply NoDup_cons; [| exact IH].
  intros Hin. apply in_map_iff in Hin. destruct Hin as (y & E & Hy).
  apply Hf in E. subst y. contradiction.
Qed.

Lemma NoDup_points4 u1 v1 u2 v2 u3 v3 u4 v4 :
  NoDup [Game2.point (JS.toString u1) (JS.toString v1);
         Game2.point (JS.toString u2) (JS.toString v2);
         Game2.point (JS.toString u3) (JS.toString v3);
         Game2.point (JS.toString u4) (JS.toString v4)]
  <-> NoDup [(u1, v1); (u2, v2); (u3, v3); (u4, v4)].
Proof.
  split.
  - apply (NoDup_map_inv
             (fun uv => Game2.point (JS.toString (fst uv)) (JS.toString (snd uv)))
             [(u1, v1); (u2, v2); (u3, v3); (u4, v4)]).
  - apply (NoDup_map_injective
             (fun uv => Game2.point (JS.toString (fst uv)) (JS.toString (snd uv)))
             [(u1, v1); (u2, v2); (u3, v3); (u4, v4)]).
    intros [u v] [u' v'] H. cbn [fst snd] in H.
    apply point_injective in H. destruct H. now subst.
Qed.

(** Two positions of a duplicate-free list that hold the same element
    are the same position. *)
Lemma NoDup_positions {A} (l : list A) i j :
  NoDup l -> (i < length l)%nat -> nth_error l i = nth_error l j -> i = j.
Proof. intros H. now apply NoDup_nth_error. Qed.

Ltac distinct_pairs :=
  repeat (apply NoDup_cons;
          [let Hin := fresh "Hin" in
           cbn [In]; intros Hin;
           repeat (destruct Hin as [Hin | Hin]; [injection Hin; intros; nia |]);
           exact Hin |]);
  apply NoDup_nil.

Ltac same_position H i j :=
  let E := fresh "E" in
  assert (E : i = j)
    by (apply (NoDup_positions _ i j H);
        [cbn [length]; lia | cbn [nth_error]; f_equal; f_equal; nia]);
  discriminate E.

Lemma game2_options_distinct q :
  Game2Generated q -> NoDup (Game2.options q) <-> game2Distinct q = true.
Proof.
  intros (Ha & _ & (m & Hm & Hb) & Hshape).
  assert (Hb0 : Game2.b q <> 0) by (destruct Hb; nia).
  unfold game2Distinct.
  destruct Hshape as [Hp Hans Hperm | x0 Hx0 _ Hx0' Hp Hans Hperm
                     | x pointY _ _ Hp Hans Hopts];
    rewrite Hp.
  - cbn [Panel.sameString]. rewrite String.eqb_refl.
    rewrite <- (Permutation_NoDup' Hperm).
    change "0" with (JS.toString 0). rewrite NoDup_points4.
    rewrite Bool.negb_true_iff, Z.eqb_neq. split.
    + intros H E. same_position H 0%nat 2%nat.
    + intros E. distinct_pairs.
  - replace (Panel.sameString Game2.promptYIntercept (Some Game2.promptXIntercept))
      with false by (vm_compute; reflexivity).
    cbn [Panel.sameString]. rewrite String.eqb_refl.
    rewrite <- (Permutation_NoDup' Hperm).
    change "0" with (JS.toString 0). rewrite NoDup_points4.
    rewrite !Bool.andb_true_iff, !Bool.negb_true_iff, !Z.eqb_neq. split.
    + intros H. repeat split; intros E.
      * same_position H 1%nat 3%nat.
      * same_position H 1%nat 2%nat.
      * same_position H 2%nat 3%nat.
    + intros [[E1 E2] E3].
      assert (Game2.b q <> x0) by nia. assert (x0 <> Game2.a q) by nia.
      distinct_pairs.
  - replace (Panel.sameString Game2.promptYIntercept (Some (Game2.promptPoint x pointY)))
      with false by (unfold Game2.promptPoint; cbn; reflexivity).
    replace (Panel.sameString Game2.promptXIntercept (Some (Game2.promptPoint x pointY)))
      with false by (unfold Game2.promptPoint; cbn; reflexivity).
    rewrite Hopts. split; [reflexivity |]. intros _.
    apply NoDup_cons; [cbn [In]; intros [E | []]; discriminate |].
    apply NoDup_cons; [intros [] | apply NoDup_nil].
Qed.

Lemma quiz_options_distinct a b q :
  a <> 0 -> QuizShape a b q ->
  NoDup (Game4.options q) <-> quizDistinct a b q = true.
Proof.
  intros Ha Hshape. unfold quizDistinct.
  destruct Hshape as [Hp Hopts Hidx | Hp Hperm Hidx | x pointY Hp Hopts Hidx
                     | b_diff Hdiff Hp Hperm Hidx | x0 Hx0 Hx0' Hb Hp Hperm Hidx];
    rewrite Hp.
  - unfold Game4.promptMonotone, Game4.promptYIntercept, Game4.promptXIntercept.
    rewrite !eqb_append. cbn [String.eqb Ascii.eqb Bool.eqb]. rewrite Hopts.
    split; [reflexivity |]. intros _.
    apply NoDup_cons; [cbn [In]; intros [E | []]; discriminate |].
    apply NoDup_cons; [intros [] | apply NoDup_nil].
  - rewrite String.eqb_refl.
    rewrite <- (Permutation_NoDup' Hperm).
    change "0" with (JS.toString 0). change Game4.point with Game2.point.
    rewrite NoDup_points4.
    rewrite !Bool.andb_true_iff, !Bool.negb_true_iff, !Z.eqb_neq. split.
    + intros H. repeat split; intros E.
      * same_position H 0%nat 1%nat.
      * same_position H 0%nat 2%nat.
      * same_position H 2%nat 3%nat.
    + intros [[E1 E2] E3]. distinct_pairs.
  - unfold Game4.promptPoint, Game4.promptYIntercept, Game4.promptXIntercept.
    rewrite !eqb_append. cbn [String.append String.eqb Ascii.eqb Bool.eqb].
    rewrite Hopts. split; [reflexivity |]. intros _.
    apply NoDup_cons; [cbn [In]; intros [E | []]; discriminate |].
    apply NoDup_cons; [intros [] | apply NoDup_nil].
  - unfold Game4.promptParallel, Game4.promptYIntercept, Game4.promptXIntercept.
    rewrite !eqb_append. cbn [String.eqb Ascii.eqb Bool.eqb].
    split; [reflexivity |]. intros _.
    apply (Permutation_NoDup Hperm).
    repeat (apply NoDup_cons;
            [cbn [In]; intros H;
             repeat (destruct H as [H | H];
                     [first [ apply line_slope in H; lia
                            | rewrite !line_same_sign in H;
                              apply formatEquation_injective in H; lia ] |]);
             exact H |]).
    apply NoDup_nil.
  - unfold Game4.promptXIntercept, Game4.promptYIntercept.
    rewrite eqb_append, String.eqb_refl.
    replace (" Đồ thị cắt trục hoành tại điểm nào?" =? " Đồ thị cắt trục tung tại điểm nào?")%string
      with false by (vm_compute; reflexivity).
    rewrite <- (Permutation_NoDup' Hperm).
    change "0" with (JS.toString 0). change Game4.point with Game2.point.
    rewrite NoDup_points4.
    rewrite Bool.negb_true_iff, Z.eqb_neq. split.
    + intros H E. same_position H 0%nat 3%nat.
    + intros E. assert (b <> x0) by nia. distinct_pairs.
Qed.

End Distinct.

(** X25.  When the options of game 2 repeat.  In every reachable state
    under a valid source the options of the question are pairwise
    distinct texts, except in these cases and in no other: a y-intercept
    question with [a = b]; an x-intercept question with [a = b], with
    [a = -1] (where [-b/a] is [b]) or with [a * a = -b] (where [-b/a] is
    [a]).  The two options of a point check are always distinct. *)
Theorem game2_options_repeat_exactly_when rs key fuel s :
  Random.valid_source rs -> Game2.reachable rs key (S fuel) s ->
  exists q,
    Game2.question s = Some q /\
    (NoDup (Game2.options q) <-> Extra.game2Distinct q = true).
Proof.
  intros Hrs Hreach.
  destruct (game2_reachable_invariant rs key fuel Hrs s Hreach) as ([q [Hq Hgen]] & _).
  exists q. split; [exact Hq |]. now apply game2_options_distinct.
Qed.

Lemma game2_options_repeat_witness :
  Random.valid_source Spec.equalCoefficientsSource /\
  exists s0 q,
    Game2.reachable Spec.equalCoefficientsSource None 1 s0 /\
    Game2.question s0 = Some q /\
    Extra.game2Distinct q = false /\ ~ NoDup (Game2.options q).
Proof.
  split; [exact equalCoefficientsSource_valid |].
  destruct (game2_initial_reachable Spec.equalCoefficientsSource None O
              equalCoefficientsSource_valid) as (s0 & Hinit & Hreach).
  destruct (game2_options_repeat_exactly_when Spec.equalCoefficientsSource None O s0
              equalCoefficientsSource_valid Hreach) as (q & Hq & Hiff).
  assert (E : Some q = Game2.question
                         (match Game2.initial Spec.equalCoefficientsSource 1 with
                          | Some s => s
                          | None => s0
                          end)) by (rewrite Hinit; now symmetry).
  vm_compute in E. apply some_injective in E.
  assert (Hd : Extra.game2Distinct q = false) by (rewrite E; vm_compute; reflexivity).
  exists s0, q. split; [exact Hreach |]. split; [exact Hq |].
  split; [exact Hd |]. intros Hnodup. apply Hiff in Hnodup. congruence.
Defined.

(** X26.  When the options of the quiz repeat.  In every reachable
    state under a valid source the options of the current question are
    pairwise distinct texts, except in these cases and in no other: a
    y-intercept question with [b = 0], [a = b] or [a = -b]; an
    x-intercept question with [a = -1].  The options of the questions
    about monotonicity, a point on the line and a parallel line are
    always distinct. *)
Theorem quiz_options_repeat_exactly_when rs key s :
  Random.valid_source rs -> Game4.reachable rs key s ->
  exists a b q,
    nth_error (Game4.questions s) (Game4.currentQIndex s) = Some (Some q) /\
    Extra.QuizShape a b q /\
    (NoDup (Game4.options q) <-> Extra.quizDistinct a b q = true).
Proof.
  intros Hrs Hreach.
  destruct (game4_current_item rs key s Hrs Hreach)
    as (item & q & Hnth & Hq & Ha & q' & Hq' & Hshape).
  assert (q' = q) by congruence. subst q'.
  exists (Game4.coefA item), (Game4.coefB item), q.
  split; [exact Hnth |]. split; [exact Hshape |].
  now apply quiz_options_distinct.
Qed.

Lemma quiz_options_repeat_witness :
  Random.valid_source Spec.yInterceptSource /\
  exists s0 a b q,
    Game4.reachable Spec.yInterceptSource None s0 /\
    nth_error (Game4.questions s0) (Game4.currentQIndex s0) = Some (Some q) /\
    (NoDup (Game4.options q) <-> Extra.quizDistinct a b q = true).
Proof.
  split; [exact yInterceptSource_valid |].
  destruct (quiz_initial_reachable Spec.yInterceptSource None) as (s0 & _ & Hreach).
  destruct (quiz_options_repeat_exactly_when Spec.yInterceptSource None s0
              yInterceptSource_valid Hreach) as (a & b & q & Hnth & _ & Hiff).
  exists s0, a, b, q. repeat split; (assumption || apply Hiff).
Defined.

(* ================================================================== *)
(** * Further properties: the size of the numbers *)
(* ================================================================== *)

Section Ranges.
Import Random.

Lemma Array_from_Forall {A} (P : A -> Prop) n (f : Z -> A) :
  (forall i, 0 <= i < Z.of_nat n -> P (f i)) -> Forall P (Panel.Array_from n f).
Proof.
  intros H. unfold Panel.Array_from. apply Forall_map, Forall_forall.
  intros i Hi. apply in_seq in Hi. apply H. lia.
Qed.

Lemma game3_question_ranges rs n :
  valid_source rs ->
  let q := fst (Game3.newQuestion rs n) in
  Game3.a q <> 0 /\ -5 <= Game3.a q <= 5 /\
  Game3.b q <> 0 /\ -5 <= Game3.b q <= 5.
Proof.
  intros Hrs. unfold Game3.newQuestion. run_rand.
  pose proof (floorTimes_range (rs n) 5 (Hrs n)) as H1.
  pose proof (floorTimes_range (rs (S (S n))) 5 (Hrs _)) as H3.
  assert (Ha : forall c : bool,
             (floorTimes (rs n) 5 + 1) * (if c then 1 else -1) <> 0 /\
             -5 <= (floorTimes (rs n) 5 + 1) * (if c then 1 else -1) <= 5)
    by (intros []; lia).
  assert (Hb : forall c : bool,
             (floorTimes (rs (S (S n))) 5 + 1) * (if c then 1 else -1) <> 0 /\
             -5 <= (floorTimes (rs (S (S n))) 5 + 1) * (if c then 1 else -1) <= 5)
    by (intros []; lia).
  specialize (Ha (ltHalf (rs (S n)))). specialize (Hb (ltHalf (rs (S (S (S n)))))).
  destruct (floorTimes_3_cases _ (Hrs (S (S (S (S n)))))) as [E | [E | E]]; rewrite E.
  - destruct (Helpers.shuffleArray _ rs _) as [opts n']. cbn [fst Game3.a Game3.b].
    tauto.
  - cbn [fst Game3.a Game3.b]. tauto.
  - destruct (Helpers.shuffleArray _ rs _) as [opts n']. cbn [fst Game3.a Game3.b].
    tauto.
Qed.

Lemma newItem_ranges rs n :
  valid_source rs ->
  let item := fst (Game4.newItem rs n) in
  -5 <= Game4.coefA item <= 5 /\ -16 <= Game4.coefB item <= 16.
Proof.
  intros Hrs. unfold Game4.newItem. run_rand.
  pose proof (floorTimes_range (rs n) 5 (Hrs n)) as H1.
  pose proof (floorTimes_range (rs (S (S n))) 9 (Hrs _)) as H3.
  set (a0 := (floorTimes (rs n) 5 + 1) * (if ltHalf (rs (S n)) then 1 else -1)).
  set (b0 := floorTimes (rs (S (S n))) 9 - 4).
  assert (Ha : -5 <= a0 <= 5) by (subst a0; destruct (ltHalf (rs (S n))); lia).
  assert (Hb : -16 <= b0 <= 16) by (subst b0; lia).
  destruct (floorTimes_5_cases _ (Hrs (S (S (S n))))) as [E | [E | [E | [E | E]]]];
    rewrite E.
  - cbn [fst Game4.coefA Game4.coefB]. tauto.
  - destruct (Helpers.shuffleArray _ rs _) as [opts n'].
    cbn [fst Game4.coefA Game4.coefB]. tauto.
  - destruct (ltHalf (rs (S (S (S (S (S n))))))); cbn [fst Game4.coefA Game4.coefB]; tauto.
  - destruct (Helpers.shuffleArray _ rs _) as [opts n'].
    cbn [fst Game4.coefA Game4.coefB]. tauto.
  - pose proof (floorTimes_range _ 4 (Hrs (S (S (S (S n)))))) as H5.
    pose proof (floorTimes_range _ 4 (Hrs (S (S (S (S (S (S n)))))))) as H7.
    destruct (Helpers.shuffleArray _ rs _) as [opts n'].
    cbn [fst Game4.coefA Game4.coefB].
    destruct (ltHalf (rs (S (S (S (S (S n))))))),
             (ltHalf (rs (S (S (S (S (S (S (S n)))))))));
      split; nia.
Qed.

End Ranges.

(** X27.  The numbers the games show are small.  Under a valid random
    source: in game 1 the coefficients lie within -9 and 9, [x] within
    -5 and 5 and the answer [y] within -54 and 54; in game 2 the slope
    lies within -5 and 5, the constant is nonzero within -25 and 25, and
    every value the chart plots lies within -75 and 75; in game 3 both
    coefficients are nonzero within -5 and 5 and every plotted value
    lies within -55 and 55; in the quiz every slope lies within -5 and 5
    and every constant within -16 and 16. *)
Theorem generated_numbers_are_small rs :
  Random.valid_source rs ->
  (forall n,
     let q := fst (Game1.newQuestion rs n) in
     -9 <= Game1.a q <= 9 /\ -9 <= Game1.b q <= 9 /\ -5 <= Game1.x q <= 5 /\
     -54 <= Game1.y q <= 54) /\
  (forall fuel n,
     exists q,
       fst (Game2.newQuestion (S fuel) rs n) = Some q /\
       -5 <= Game2.a q <= 5 /\ -25 <= Game2.b q <= 25 /\ Game2.b q <> 0 /\
       Forall (fun y => -75 <= y <= 75) (Panel.data (Game2View.chartData q))) /\
  (forall n,
     let q := fst (Game3.newQuestion rs n) in
     -5 <= Game3.a q <= 5 /\ Game3.a q <> 0 /\
     -5 <= Game3.b q <= 5 /\ Game3.b q <> 0 /\
     Forall (fun y => -55 <= y <= 55) (Panel.data (Game3View.chartData q))) /\
  (forall n,
     Forall (fun item => -5 <= Game4.coefA item <= 5 /\ -16 <= Game4.coefB item <= 16)
            (fst (Game4.generateItems rs n))).
Proof.
  intros Hrs. split; [| split; [| split]].
  - intros n. pose proof (game1_question_ranges rs n Hrs) as H.
    pose proof (game1_question_value rs n) as Hy. cbv zeta in H, Hy |- *.
    rewrite Hy. destruct H as (_ & Ha & Hb & Hx). repeat (split; [lia |]). nia.
  - intros fuel n.
    destruct (game2_newQuestion_generated rs fuel n Hrs)
      as (q & n' & E & Ha0 & Ha & (m & Hm & Hb) & _).
    exists q. rewrite E. split; [reflexivity |]. split; [exact Ha |].
    assert (Hb' : -25 <= Game2.b q <= 25 /\ Game2.b q <> 0)
      by (destruct Hb; nia).
    split; [apply Hb' |]. split; [apply Hb' |].
    apply Array_from_Forall. intros i Hi. nia.
  - intros n. pose proof (game3_question_ranges rs n Hrs) as H. cbv zeta in H |- *.
    destruct H as (Ha0 & Ha & Hb0 & Hb).
    repeat (split; [assumption |]).
    apply Array_from_Forall. intros i Hi. nia.
  - intros n. apply quizLoop_Forall; [| constructor].
    intros k. now apply newItem_ranges.
Qed.

Lemma small_numbers_witness :
  Random.valid_source Spec.sampleSource /\
  -54 <= Game1.y (fst (Game1.newQuestion Spec.sampleSource O)) <= 54.
Proof.
  split; [exact sampleSource_valid |].
  apply (generated_numbers_are_small Spec.sampleSource sampleSource_valid).
Defined.
